(** * flight-path: batched curve renderer, instanced plane animator, path generation

    A shallow embedding of the core of the repository:
    - [src/planes/PlanesShader.ts]  instanced plane animator and its
      return-mode state machine,
    - [src/flights/Flight.ts]       per-flight speed smoothing,
    - [src/flights/FlightUtils.ts]  control-point generation and altitude floor,
    - [src/common/Utils.ts]         geographic projection,
    - [src/curves/Curves.ts]        batched curve renderer.

    Numbers.  JavaScript numbers are modelled by exact arithmetic: the
    animator and the flight, which only add, multiply, compare and take
    remainders, compute over the rationals [Q] (so every definition there
    evaluates); the geometry, which needs square roots and trigonometry,
    computes over the reals [R].  Rounding of IEEE doubles is not modelled.
    The typed arrays of the renderers hold 32-bit floats; a value that is
    stored and later read back is kept as it was computed, except in
    [PlanesShader.setAnimationSpeed], where the program goes on computing
    with the number it has just stored: there the store rounds with
    [JS.fround].  Slot indices and counts are integers [Z], array lengths
    are [nat]. *)

From Stdlib Require Import ZArith QArith Qabs Qminmax Qround Reals Psatz Lia List String.
From stdpp Require Import base list.

Set Default Proof Using "Type".

(** ** JavaScript arithmetic on exact numbers *)

Module JS.

Open Scope Q_scope.

(** [Math.trunc]: rounding toward zero. *)
Definition trunc (x : Q) : Z :=
  if Qle_bool 0 x then Qfloor x else Qceiling x.

(** The [%] operator: [a % b = a - b * trunc (a / b)], the sign follows the
    dividend.  (JavaScript yields NaN for [b = 0]; every caller below passes
    a positive period.) *)
Definition rem (a b : Q) : Q := a - b * inject_Z (trunc (a / b)).

(** Comparison operators, as booleans. *)
Definition ltb (a b : Q) : bool := negb (Qle_bool b a).
Definition leb (a b : Q) : bool := Qle_bool a b.
Definition gtb (a b : Q) : bool := ltb b a.
Definition geb (a b : Q) : bool := leb b a.

(** [Math.min] and [Math.abs]. *)
Definition min (a b : Q) : Q := if Qle_bool a b then a else b.
Definition abs (a : Q) : Q := if Qle_bool 0 a then a else - a.

(** The exponent of a positive number: [2 ^ e <= x < 2 ^ (e + 1)]. *)
Definition floorLog2 (x : Q) : Z :=
  let d := (Z.log2 (Qnum x) - Z.log2 (Zpos (Qden x)))%Z in
  if Qle_bool (2 ^ d) x then d else (d - 1)%Z.

(** Rounding to the nearest integer, a tie going to the even one. *)
Definition roundHalfEven (x : Q) : Z :=
  let f := Qfloor x in
  match Qcompare (x - inject_Z f) (1 # 2) with
  | Lt => f
  | Gt => (f + 1)%Z
  | Eq => if Z.even f then f else (f + 1)%Z
  end.

(** [Math.fround], what a store into a [Float32Array] keeps: the nearest
    number with a 24-bit significand, a tie going to the even significand,
    with the subnormal numbers below [2 ^ -126].  (Overflow to infinity is
    not modelled.) *)
Definition fround (x : Q) : Q :=
  if Qeq_bool x 0 then 0
  else
    let a := Qabs x in
    let e := Z.max (floorLog2 a) (- 126) in
    let ulp := 2 ^ (e - 23) in
    let m := Qred (inject_Z (roundHalfEven (a / ulp)) * ulp) in
    if Qle_bool 0 x then m else - m.

End JS.

(** ** Three.js values used by the renderers *)

(** [THREE.Vector3], over the coordinate type of the component that uses it. *)
Record Vector3 (A : Type) : Type := mkVector3 { vx : A; vy : A; vz : A }.
Arguments mkVector3 {A} _ _ _.
Arguments vx {A} _.
Arguments vy {A} _.
Arguments vz {A} _.

(** Typed arrays ([Float32Array], [Uint8Array]) as lists: a read outside the
    array finds nothing, a write outside the array is dropped. *)
Definition aget {A} (d : A) (a : list A) (i : nat) : A := default d (a !! i).
Definition aset {A} (a : list A) (i : nat) (v : A) : list A := <[i := v]> a.

(** [TypedArray.prototype.fill(value, start, end)]: negative bounds count
    from the end of the array, both are clamped to the array. *)
Definition fill_bound (len : nat) (k : Z) : nat :=
  if (k <? 0)%Z then Z.to_nat (Z.max (Z.of_nat len + k) 0)
  else Nat.min (Z.to_nat k) len.

Definition fill_range {A} (a : list A) (v : A) (s e : Z) : list A :=
  let lo := fill_bound (length a) s in
  let hi := fill_bound (length a) e in
  imap (fun i x => if (lo <=? i)%nat && (i <? hi)%nat then v else x) a.

Definition fill_all {A} (a : list A) (v : A) : list A := map (fun _ => v) a.

(** ** The instanced plane animator ([src/planes/PlanesShader.ts]) *)

Module PlanesShader.

Open Scope Q_scope.

(** Tilt mode for pane orientation. *)
Inductive TiltMode : Type := Perpendicular | Tangent.

(** A resolved [THREE.Color]. *)
Record Color : Type := mkColor { r : Q; g : Q; b : Q }.

Record AtlasInfo : Type := mkAtlasInfo {
  atlas_columns : Z;
  atlas_rows : Z;
  atlas_count : Z;
  atlas_scale : option (Q * Q)
}.

Record InternalAtlasInfo : Type := mkInternalAtlasInfo {
  columns : Z;
  rows : Z;
  count : Z;
  scaleX : Q;
  scaleY : Q
}.

Record PlanesShaderOptions : Type := mkOptions {
  opt_maxPanes : option nat;
  opt_baseSize : option Q;
  opt_returnMode : option bool;
  opt_baseElevation : option Q
}.

(** The uniforms of the shader material. *)
Record Uniforms : Type := mkUniforms {
  time : Q;
  useTexture : Q;
  returnMode : Q;
  paneVisibility : Q
}.

(** Upload requests on the instanced attributes. *)
Record NeedsUpdate : Type := mkNeedsUpdate {
  nu_controlPointsPack1 : bool;
  nu_controlPointsPack2 : bool;
  nu_controlPointsPack3 : bool;
  nu_instanceColor : bool;
  nu_instanceScale : bool;
  nu_instanceElevation : bool;
  nu_instanceUVTransform : bool;
  nu_animationParams : bool
}.

(** The renderer object.  The mesh, geometry and material are created by the
    constructor and stay allocated, so the source's null checks on them
    always pass and are not repeated here. *)
Record t : Type := mk {
  maxPanes : nat;
  baseSize : Q;
  returnModeEnabled : bool;
  defaultElevation : Q;
  controlPointsPack1 : list Q; (* (p0.x, p0.y, p0.z, p1.x) *)
  controlPointsPack2 : list Q; (* (p1.y, p1.z, p2.x, p2.y) *)
  controlPointsPack3 : list Q; (* (p2.z, p3.x, p3.y, p3.z) *)
  instanceColors : list Q; (* RGB per instance *)
  instanceScales : list Q;
  instanceElevations : list Q;
  instanceUvTransforms : list Q; (* (offsetX, offsetY, scaleX, scaleY) *)
  animationParams : list Q; (* (phase, speed, tiltMode, visible) *)
  activePanes : Z;
  atlasInfo : option InternalAtlasInfo;
  planesVisible : bool;
  returnModePreferred : bool;
  pendingReturnCompletion : list Z;
  uniforms : Uniforms; (* material.uniforms *)
  needsUpdate : NeedsUpdate; (* geometry.attributes.*.needsUpdate *)
  warnings : list string (* console.warn, most recent first *)
}.

Definition set_returnModeEnabled (v : bool) (s : t) : t :=
  mk (maxPanes s) (baseSize s) v (defaultElevation s) (controlPointsPack1 s)
     (controlPointsPack2 s) (controlPointsPack3 s) (instanceColors s)
     (instanceScales s) (instanceElevations s) (instanceUvTransforms s)
     (animationParams s) (activePanes s) (atlasInfo s) (planesVisible s)
     (returnModePreferred s) (pendingReturnCompletion s) (uniforms s)
     (needsUpdate s) (warnings s).
Definition set_controlPointsPack1 (v : list Q) (s : t) : t :=
  mk (maxPanes s) (baseSize s) (returnModeEnabled s) (defaultElevation s) v
     (controlPointsPack2 s) (controlPointsPack3 s) (instanceColors s)
     (instanceScales s) (instanceElevations s) (instanceUvTransforms s)
     (animationParams s) (activePanes s) (atlasInfo s) (planesVisible s)
     (returnModePreferred s) (pendingReturnCompletion s) (uniforms s)
     (needsUpdate s) (warnings s).
Definition set_controlPointsPack2 (v : list Q) (s : t) : t :=
  mk (maxPanes s) (baseSize s) (returnModeEnabled s) (defaultElevation s)
     (controlPointsPack1 s) v (controlPointsPack3 s) (instanceColors s)
     (instanceScales s) (instanceElevations s) (instanceUvTransforms s)
     (animationParams s) (activePanes s) (atlasInfo s) (planesVisible s)
     (returnModePreferred s) (pendingReturnCompletion s) (uniforms s)
     (needsUpdate s) (warnings s).
Definition set_controlPointsPack3 (v : list Q) (s : t) : t :=
  mk (maxPanes s) (baseSize s) (returnModeEnabled s) (defaultElevation s)
     (controlPointsPack1 s) (controlPointsPack2 s) v (instanceColors s)
     (instanceScales s) (instanceElevations s) (instanceUvTransforms s)
     (animationParams s) (activePanes s) (atlasInfo s) (planesVisible s)
     (returnModePreferred s) (pendingReturnCompletion s) (uniforms s)
     (needsUpdate s) (warnings s).
Definition set_instanceColors (v : list Q) (s : t) : t :=
  mk (maxPanes s) (baseSize s) (returnModeEnabled s) (defaultElevation s)
     (controlPointsPack1 s) (controlPointsPack2 s) (controlPointsPack3 s) v
     (instanceScales s) (instanceElevations s) (instanceUvTransforms s)
     (animationParams s) (activePanes s) (atlasInfo s) (planesVisible s)
     (returnModePreferred s) (pendingReturnCompletion s) (uniforms s)
     (needsUpdate s) (warnings s).
Definition set_instanceScales (v : list Q) (s : t) : t :=
  mk (maxPanes s) (baseSize s) (returnModeEnabled s) (defaultElevation s)
     (controlPointsPack1 s) (controlPointsPack2 s) (controlPointsPack3 s)
     (instanceColors s) v (instanceElevations s) (instanceUvTransforms s)
     (animationParams s) (activePanes s) (atlasInfo s) (planesVisible s)
     (returnModePreferred s) (pendingReturnCompletion s) (uniforms s)
     (needsUpdate s) (warnings s).
Definition set_instanceElevations (v : list Q) (s : t) : t :=
  mk (maxPanes s) (baseSize s) (returnModeEnabled s) (defaultElevation s)
     (controlPointsPack1 s) (controlPointsPack2 s) (controlPointsPack3 s)
     (instanceColors s) (instanceScales s) v (instanceUvTransforms s)
     (animationParams s) (activePanes s) (atlasInfo s) (planesVisible s)
     (returnModePreferred s) (pendingReturnCompletion s) (uniforms s)
     (needsUpdate s) (warnings s).
Definition set_instanceUvTransforms (v : list Q) (s : t) : t :=
  mk (maxPanes s) (baseSize s) (returnModeEnabled s) (defaultElevation s)
     (controlPointsPack1 s) (controlPointsPack2 s) (controlPointsPack3 s)
     (instanceColors s) (instanceScales s) (instanceElevations s) v
     (animationParams s) (activePanes s) (atlasInfo s) (planesVisible s)
     (returnModePreferred s) (pendingReturnCompletion s) (uniforms s)
     (needsUpdate s) (warnings s).
Definition set_animationParams (v : list Q) (s : t) : t :=
  mk (maxPanes s) (baseSize s) (returnModeEnabled s) (defaultElevation s)
     (controlPointsPack1 s) (controlPointsPack2 s) (controlPointsPack3 s)
     (instanceColors s) (instanceScales s) (instanceElevations s)
     (instanceUvTransforms s) v (activePanes s) (atlasInfo s) (planesVisible
     s) (returnModePreferred s) (pendingReturnCompletion s) (uniforms s)
     (needsUpdate s) (warnings s).
Definition set_activePanes (v : Z) (s : t) : t :=
  mk (maxPanes s) (baseSize s) (returnModeEnabled s) (defaultElevation s)
     (controlPointsPack1 s) (controlPointsPack2 s) (controlPointsPack3 s)
     (instanceColors s) (instanceScales s) (instanceElevations s)
     (instanceUvTransforms s) (animationParams s) v (atlasInfo s)
     (planesVisible s) (returnModePreferred s) (pendingReturnCompletion s)
     (uniforms s) (needsUpdate s) (warnings s).
Definition set_atlasInfo (v : option InternalAtlasInfo) (s : t) : t :=
  mk (maxPanes s) (baseSize s) (returnModeEnabled s) (defaultElevation s)
     (controlPointsPack1 s) (controlPointsPack2 s) (controlPointsPack3 s)
     (instanceColors s) (instanceScales s) (instanceElevations s)
     (instanceUvTransforms s) (animationParams s) (activePanes s) v
     (planesVisible s) (returnModePreferred s) (pendingReturnCompletion s)
     (uniforms s) (needsUpdate s) (warnings s).
Definition set_planesVisible (v : bool) (s : t) : t :=
  mk (maxPanes s) (baseSize s) (returnModeEnabled s) (defaultElevation s)
     (controlPointsPack1 s) (controlPointsPack2 s) (controlPointsPack3 s)
     (instanceColors s) (instanceScales s) (instanceElevations s)
     (instanceUvTransforms s) (animationParams s) (activePanes s) (atlasInfo
     s) v (returnModePreferred s) (pendingReturnCompletion s) (uniforms s)
     (needsUpdate s) (warnings s).
Definition set_returnModePreferred (v : bool) (s : t) : t :=
  mk (maxPanes s) (baseSize s) (returnModeEnabled s) (defaultElevation s)
     (controlPointsPack1 s) (controlPointsPack2 s) (controlPointsPack3 s)
     (instanceColors s) (instanceScales s) (instanceElevations s)
     (instanceUvTransforms s) (animationParams s) (activePanes s) (atlasInfo
     s) (planesVisible s) v (pendingReturnCompletion s) (uniforms s)
     (needsUpdate s) (warnings s).
Definition set_pendingReturnCompletion (v : list Z) (s : t) : t :=
  mk (maxPanes s) (baseSize s) (returnModeEnabled s) (defaultElevation s)
     (controlPointsPack1 s) (controlPointsPack2 s) (controlPointsPack3 s)
     (instanceColors s) (instanceScales s) (instanceElevations s)
     (instanceUvTransforms s) (animationParams s) (activePanes s) (atlasInfo
     s) (planesVisible s) (returnModePreferred s) v (uniforms s)
     (needsUpdate s) (warnings s).
Definition set_uniforms (v : Uniforms) (s : t) : t :=
  mk (maxPanes s) (baseSize s) (returnModeEnabled s) (defaultElevation s)
     (controlPointsPack1 s) (controlPointsPack2 s) (controlPointsPack3 s)
     (instanceColors s) (instanceScales s) (instanceElevations s)
     (instanceUvTransforms s) (animationParams s) (activePanes s) (atlasInfo
     s) (planesVisible s) (returnModePreferred s) (pendingReturnCompletion
     s) v (needsUpdate s) (warnings s).
Definition set_needsUpdate (v : NeedsUpdate) (s : t) : t :=
  mk (maxPanes s) (baseSize s) (returnModeEnabled s) (defaultElevation s)
     (controlPointsPack1 s) (controlPointsPack2 s) (controlPointsPack3 s)
     (instanceColors s) (instanceScales s) (instanceElevations s)
     (instanceUvTransforms s) (animationParams s) (activePanes s) (atlasInfo
     s) (planesVisible s) (returnModePreferred s) (pendingReturnCompletion
     s) (uniforms s) v (warnings s).
Definition set_warnings (v : list string) (s : t) : t :=
  mk (maxPanes s) (baseSize s) (returnModeEnabled s) (defaultElevation s)
     (controlPointsPack1 s) (controlPointsPack2 s) (controlPointsPack3 s)
     (instanceColors s) (instanceScales s) (instanceElevations s)
     (instanceUvTransforms s) (animationParams s) (activePanes s) (atlasInfo
     s) (planesVisible s) (returnModePreferred s) (pendingReturnCompletion
     s) (uniforms s) (needsUpdate s) v.

Definition set_time (v : Q) (s : t) : t :=
  set_uniforms (mkUniforms v (useTexture (uniforms s)) (returnMode (uniforms s))
                           (paneVisibility (uniforms s))) s.
Definition set_returnModeUniform (v : Q) (s : t) : t :=
  set_uniforms (mkUniforms (time (uniforms s)) (useTexture (uniforms s)) v
                           (paneVisibility (uniforms s))) s.
Definition set_paneVisibility (v : Q) (s : t) : t :=
  set_uniforms (mkUniforms (time (uniforms s)) (useTexture (uniforms s))
                           (returnMode (uniforms s)) v) s.
Definition set_useTexture (v : Q) (s : t) : t :=
  set_uniforms (mkUniforms (time (uniforms s)) v (returnMode (uniforms s))
                           (paneVisibility (uniforms s))) s.

Definition mark_controlPoints (n : NeedsUpdate) : NeedsUpdate :=
  mkNeedsUpdate true true true (nu_instanceColor n) (nu_instanceScale n)
    (nu_instanceElevation n) (nu_instanceUVTransform n) true.
Definition mark_instanceColor (n : NeedsUpdate) : NeedsUpdate :=
  mkNeedsUpdate (nu_controlPointsPack1 n) (nu_controlPointsPack2 n)
    (nu_controlPointsPack3 n) true (nu_instanceScale n)
    (nu_instanceElevation n) (nu_instanceUVTransform n) (nu_animationParams n).
Definition mark_instanceScale (n : NeedsUpdate) : NeedsUpdate :=
  mkNeedsUpdate (nu_controlPointsPack1 n) (nu_controlPointsPack2 n)
    (nu_controlPointsPack3 n) (nu_instanceColor n) true
    (nu_instanceElevation n) (nu_instanceUVTransform n) (nu_animationParams n).
Definition mark_instanceElevation (n : NeedsUpdate) : NeedsUpdate :=
  mkNeedsUpdate (nu_controlPointsPack1 n) (nu_controlPointsPack2 n)
    (nu_controlPointsPack3 n) (nu_instanceColor n) (nu_instanceScale n)
    true (nu_instanceUVTransform n) (nu_animationParams n).
Definition mark_instanceUVTransform (n : NeedsUpdate) : NeedsUpdate :=
  mkNeedsUpdate (nu_controlPointsPack1 n) (nu_controlPointsPack2 n)
    (nu_controlPointsPack3 n) (nu_instanceColor n) (nu_instanceScale n)
    (nu_instanceElevation n) true (nu_animationParams n).
Definition mark_animationParams (n : NeedsUpdate) : NeedsUpdate :=
  mkNeedsUpdate (nu_controlPointsPack1 n) (nu_controlPointsPack2 n)
    (nu_controlPointsPack3 n) (nu_instanceColor n) (nu_instanceScale n)
    (nu_instanceElevation n) (nu_instanceUVTransform n) true.

Definition mark (f : NeedsUpdate -> NeedsUpdate) (s : t) : t :=
  set_needsUpdate (f (needsUpdate s)) s.

Definition warn (msg : string) (s : t) : t := set_warnings (msg :: warnings s) s.

(** The guard [index < 0 || index >= this.maxPanes] of every slot operation. *)
Definition outOfRange (index : Z) (s : t) : bool :=
  (index <? 0)%Z || (Z.of_nat (maxPanes s) <=? index)%Z.

Definition _getTimeUniform (s : t) : Q := time (uniforms s).

Definition _wrapProgress (value period : Q) : Q :=
  if JS.leb period 0 then 0
  else
    let result := JS.rem value period in
    if JS.ltb result 0 then result + period else result.

(** *** Construction *)

(** The per-instance initial values written by [initialize]; [rand] supplies
    the successive results of [Math.random()]. *)
Definition initial_animationParams (rand : nat -> Q) (n : nat) : list Q :=
  flat_map (fun i => [rand i; 0.1; 0; 0]) (seq 0 n).

Definition constructor (options : PlanesShaderOptions) (rand : nat -> Q) : t :=
  let maxPanes :=
    match opt_maxPanes options with
    | Some (S n) => S n
    | _ => 1000%nat
    end in
  let baseSize :=
    match opt_baseSize options with
    | Some v => if Qeq_bool v 0 then 100 else v
    | None => 100
    end in
  let returnModeEnabled := default false (opt_returnMode options) in
  let defaultElevation := default 0 (opt_baseElevation options) in
  {| maxPanes := maxPanes;
     baseSize := baseSize;
     returnModeEnabled := returnModeEnabled;
     defaultElevation := defaultElevation;
     controlPointsPack1 := repeat 0 (maxPanes * 4);
     controlPointsPack2 := repeat 0 (maxPanes * 4);
     controlPointsPack3 := repeat 0 (maxPanes * 4);
     instanceColors := repeat 1 (maxPanes * 3);
     instanceScales := repeat 0 maxPanes;
     instanceElevations := repeat defaultElevation maxPanes;
     instanceUvTransforms := flat_map (fun _ => [0; 0; 1; 1]) (seq 0 maxPanes);
     animationParams := initial_animationParams rand maxPanes;
     activePanes := 0;
     atlasInfo := None;
     planesVisible := true;
     returnModePreferred := returnModeEnabled;
     pendingReturnCompletion := repeat 0%Z maxPanes;
     uniforms := mkUniforms 0 0 (if returnModeEnabled then 1 else 0) 1;
     needsUpdate := mkNeedsUpdate true true true true true true true true;
     warnings := [] |}.

(** *** Slot operations *)

(** Set curve control points for a pane instance: the twelve coordinates are
    packed into three four-component attributes and the pane becomes visible. *)
Definition setCurveControlPoints (index : Z) (controlPoints : list (Vector3 Q))
    (s : t) : t :=
  if outOfRange index s then s
  else
    match controlPoints with
    | p0 :: p1 :: p2 :: p3 :: _ =>
        let i := Z.to_nat index in
        let pack1 := controlPointsPack1 s in
        let pack1 := aset pack1 (i * 4) (vx p0) in
        let pack1 := aset pack1 (i * 4 + 1) (vy p0) in
        let pack1 := aset pack1 (i * 4 + 2) (vz p0) in
        let pack1 := aset pack1 (i * 4 + 3) (vx p1) in
        let pack2 := controlPointsPack2 s in
        let pack2 := aset pack2 (i * 4) (vy p1) in
        let pack2 := aset pack2 (i * 4 + 1) (vz p1) in
        let pack2 := aset pack2 (i * 4 + 2) (vx p2) in
        let pack2 := aset pack2 (i * 4 + 3) (vy p2) in
        let pack3 := controlPointsPack3 s in
        let pack3 := aset pack3 (i * 4) (vz p2) in
        let pack3 := aset pack3 (i * 4 + 1) (vx p3) in
        let pack3 := aset pack3 (i * 4 + 2) (vy p3) in
        let pack3 := aset pack3 (i * 4 + 3) (vz p3) in
        let s := set_controlPointsPack1 pack1 s in
        let s := set_controlPointsPack2 pack2 s in
        let s := set_controlPointsPack3 pack3 s in
        (* mark pane as visible *)
        let s := set_animationParams (aset (animationParams s) (i * 4 + 3) 1) s in
        mark mark_controlPoints s
    | _ =>
        (* controlPoints.length < 4 *)
        warn "PlanesShader requires 4 control points" s
    end.

Definition setPaneColor (index : Z) (c : Color) (s : t) : t :=
  if outOfRange index s then s
  else
    let i := Z.to_nat index in
    let colors := instanceColors s in
    let colors := aset colors (i * 3) (r c) in
    let colors := aset colors (i * 3 + 1) (g c) in
    let colors := aset colors (i * 3 + 2) (b c) in
    mark mark_instanceColor (set_instanceColors colors s).

Definition setPaneSize (index : Z) (size : Q) (s : t) : t :=
  if outOfRange index s then s
  else
    let normalizedScale := size / baseSize s in
    mark mark_instanceScale
      (set_instanceScales (aset (instanceScales s) (Z.to_nat index) normalizedScale) s).

Definition setElevationOffset (index : Z) (offset : Q) (s : t) : t :=
  if outOfRange index s then s
  else
    mark mark_instanceElevation
      (set_instanceElevations (aset (instanceElevations s) (Z.to_nat index) offset) s).

(** Set animation speed for a specific pane.  The speed goes into the
    [Float32Array], which keeps [fround speed]; the new phase is derived from
    the argument [speed] itself, not from the number the array now holds, and
    is rounded in its turn when it is stored. *)
Definition setAnimationSpeed (index : Z) (speed : Q) (s : t) : t :=
  if outOfRange index s then s
  else
    let baseIndex := (Z.to_nat index * 4)%nat in
    let oldSpeed := aget 0 (animationParams s) (baseIndex + 1) in
    let oldPhase := aget 0 (animationParams s) baseIndex in
    let timeUniform := _getTimeUniform s in
    let period := if returnModeEnabled s then 2 else 1 in
    let currentProgress := _wrapProgress (timeUniform * oldSpeed + oldPhase) period in
    let params := aset (animationParams s) (baseIndex + 1) (JS.fround speed) in
    let newPhase := _wrapProgress (currentProgress - timeUniform * speed) period in
    let params := aset params baseIndex (JS.fround newPhase) in
    mark mark_animationParams (set_animationParams params s).

Definition setTiltMode (index : Z) (mode : TiltMode) (s : t) : t :=
  if outOfRange index s then s
  else
    let tiltModeValue := match mode with Tangent => 1 | Perpendicular => 0 end in
    mark mark_animationParams
      (set_animationParams
         (aset (animationParams s) (Z.to_nat index * 4 + 2) tiltModeValue) s).

(** Hide a specific pane: only the visible flag is cleared. *)
Definition hidePane (index : Z) (s : t) : t :=
  if outOfRange index s then s
  else
    mark mark_animationParams
      (set_animationParams (aset (animationParams s) (Z.to_nat index * 4 + 3) 0) s).

Definition setTexture (hasTexture : bool) (info : option AtlasInfo) (s : t) : t :=
  let s := set_useTexture (if hasTexture then 1 else 0) s in
  match hasTexture, info with
  | true, Some a =>
      set_atlasInfo
        (Some {| columns := atlas_columns a;
                 rows := atlas_rows a;
                 count := atlas_count a;
                 scaleX := match atlas_scale a with Some (x, _) => x | None => 1 end;
                 scaleY := match atlas_scale a with Some (_, y) => y | None => 1 end |})
        s
  | _, _ => set_atlasInfo None s
  end.

(** [v || d] on numbers: zero is falsy. *)
Definition orZ (v d : Z) : Z := if (v =? 0)%Z then d else v.
Definition orQ (v d : Q) : Q := if Qeq_bool v 0 then d else v.

Definition setTextureIndex (index : Z) (textureIndex : Z) (s : t) : t :=
  if outOfRange index s then s
  else
    let uvIndex := (Z.to_nat index * 4)%nat in
    let uv := instanceUvTransforms s in
    let uv :=
      match atlasInfo s with
      | Some a =>
          let columns := Z.max 1 (orZ (columns a) 1) in
          let rows := Z.max 1 (orZ (rows a) 1) in
          let totalSlots := (columns * rows)%Z in
          let count := Z.max 1 (orZ (count a) totalSlots) in
          let slot := Z.rem (Z.rem textureIndex count + count) count in
          let safeSlot := Z.rem slot totalSlots in
          let col := Z.rem safeSlot columns in
          let row := (safeSlot / columns)%Z in
          let scaleX := orQ (scaleX a) (1 / inject_Z columns) in
          let scaleY := orQ (scaleY a) (1 / inject_Z rows) in
          let offsetX := inject_Z col * scaleX in
          let offsetY := inject_Z row * scaleY in
          let uv := aset uv uvIndex offsetX in
          let uv := aset uv (uvIndex + 1) offsetY in
          let uv := aset uv (uvIndex + 2) scaleX in
          aset uv (uvIndex + 3) scaleY
      | None =>
          let uv := aset uv uvIndex 0 in
          let uv := aset uv (uvIndex + 1) 0 in
          let uv := aset uv (uvIndex + 2) 1 in
          aset uv (uvIndex + 3) 1
      end in
    mark mark_instanceUVTransform (set_instanceUvTransforms uv s).

(** Set the number of active panes; flags of deactivated panes are cleared. *)
Definition setActivePaneCount (count : Z) (s : t) : t :=
  let newCount := Z.min count (Z.of_nat (maxPanes s)) in
  let s :=
    if (newCount <? activePanes s)%Z
    then set_pendingReturnCompletion
           (fill_range (pendingReturnCompletion s) 0%Z newCount (activePanes s)) s
    else s in
  set_activePanes newCount s.

Definition setPlanesVisible (visible : bool) (s : t) : t :=
  set_paneVisibility (if visible then 1 else 0) (set_planesVisible visible s).

(** *** The return-mode state machine *)

Definition period : Q := 2.
Definition epsilon : Q := 0.0001. (* 1e-4 *)

(** [for (let i = 0; i < this.activePanes; i++)] *)
Definition activeIndices (s : t) : list nat := seq 0 (Z.to_nat (activePanes s)).

(** Truthiness of a [Uint8Array] element. *)
Definition truthy (v : Z) : bool := negb (v =? 0)%Z.

(** The variables the loop of [setReturnMode(false)] updates. *)
Record DisableLoop : Type := mkDisableLoop {
  dl_params : list Q;
  dl_pending : list Z;
  dl_needsUpdate : bool
}.

(** One iteration of the loop of [setReturnMode(false)]. *)
Definition disableStep (timeUniform : Q) (st : DisableLoop) (i : nat) : DisableLoop :=
  let baseIndex := (i * 4)%nat in
  if JS.ltb (aget 0 (dl_params st) (baseIndex + 3)) 0.5 then st
  else
    let speed := aget 0 (dl_params st) (baseIndex + 1) in
    let phase := aget 0 (dl_params st) baseIndex in
    let cycle := _wrapProgress (timeUniform * speed + phase) period in
    if JS.gtb cycle (1 + epsilon) then
      (* currently on return leg: allow it to finish *)
      mkDisableLoop (dl_params st) (aset (dl_pending st) i 1%Z) (dl_needsUpdate st)
    else
      let pending := aset (dl_pending st) i 0%Z in
      if JS.gtb cycle (1 - epsilon) then
        (* snap to start of forward leg to avoid entering return *)
        mkDisableLoop (aset (dl_params st) baseIndex (_wrapProgress (phase - 1) period))
                      pending true
      else mkDisableLoop (dl_params st) pending (dl_needsUpdate st).

(** Enable or disable return flight mode for all panes. *)
Definition setReturnMode (enabled : bool) (s : t) : t :=
  let s := set_returnModePreferred enabled s in
  if enabled then
    let s := set_pendingReturnCompletion (fill_all (pendingReturnCompletion s) 0%Z) s in
    if negb (returnModeEnabled s)
    then set_returnModeUniform 1 (set_returnModeEnabled true s)
    else s
  else
    let st := fold_left (disableStep (_getTimeUniform s)) (activeIndices s)
                (mkDisableLoop (animationParams s) (pendingReturnCompletion s) false) in
    let s := set_animationParams (dl_params st) s in
    let s := set_pendingReturnCompletion (dl_pending st) s in
    if dl_needsUpdate st then mark mark_animationParams s else s.

(** The variables the loop of [_reconcileReturnMode] updates. *)
Record ReconcileLoop : Type := mkReconcileLoop {
  rl_params : list Q;
  rl_pending : list Z;
  rl_anyPending : bool;
  rl_needsUpdate : bool
}.

(** One iteration of the loop of [_reconcileReturnMode]. *)
Definition reconcileStep (timeUniform : Q) (st : ReconcileLoop) (i : nat)
    : ReconcileLoop :=
  let baseIndex := (i * 4)%nat in
  if JS.ltb (aget 0 (rl_params st) (baseIndex + 3)) 0.5 then st
  else
    let speed := aget 0 (rl_params st) (baseIndex + 1) in
    let phase := aget 0 (rl_params st) baseIndex in
    let cycle := _wrapProgress (timeUniform * speed + phase) period in
    if truthy (aget 0%Z (rl_pending st) i) then
      if JS.leb cycle (1 - epsilon) then
        (* finished the return leg, restart forward motion *)
        mkReconcileLoop
          (aset (rl_params st) baseIndex (_wrapProgress (- timeUniform * speed) period))
          (aset (rl_pending st) i 0%Z)
          (rl_anyPending st) true
      else
        mkReconcileLoop (rl_params st) (rl_pending st) true (rl_needsUpdate st)
    else if JS.gtb cycle (1 + epsilon) then
      (* prevent new return legs from starting *)
      mkReconcileLoop
        (aset (rl_params st) baseIndex (_wrapProgress (phase - 1) period))
        (rl_pending st) (rl_anyPending st) true
    else st.

Definition reconcileLoop (s : t) : ReconcileLoop :=
  fold_left (reconcileStep (_getTimeUniform s)) (activeIndices s)
    (mkReconcileLoop (animationParams s) (pendingReturnCompletion s) false false).

Definition _reconcileReturnMode (s : t) : t :=
  if returnModePreferred s then
    if negb (returnModeEnabled s)
    then set_returnModeUniform 1 (set_returnModeEnabled true s)
    else s
  else if negb (returnModeEnabled s) then s
  else
    let st := reconcileLoop s in
    let s := set_animationParams (rl_params st) s in
    let s := set_pendingReturnCompletion (rl_pending st) s in
    let s := if rl_needsUpdate st then mark mark_animationParams s else s in
    if negb (rl_anyPending st)
    then set_returnModeUniform 0 (set_returnModeEnabled false s)
    else s.

(** Update time uniform, called once per frame. *)
Definition update (deltaTime : Q) (s : t) : t :=
  _reconcileReturnMode (set_time (time (uniforms s) + deltaTime) s).

(** *** Derived quantities *)

Definition phaseOf (s : t) (i : nat) : Q := aget 0 (animationParams s) (i * 4).
Definition speedOf (s : t) (i : nat) : Q := aget 0 (animationParams s) (i * 4 + 1).
Definition visibleOf (s : t) (i : nat) : bool :=
  negb (JS.ltb (aget 0 (animationParams s) (i * 4 + 3)) 0.5).
Definition pendingOf (s : t) (i : nat) : bool :=
  truthy (aget 0%Z (pendingReturnCompletion s) i).
Definition activeOf (s : t) (i : nat) : bool := (Z.of_nat i <? activePanes s)%Z.

(** Position of instance [i] in its round trip: the forward leg is [0, 1),
    the return leg is (1, 2). *)
Definition cycleOf (s : t) (i : nat) : Q :=
  _wrapProgress (_getTimeUniform s * speedOf s i + phaseOf s i) period.

(** The progress the shader evaluates for instance [i]. *)
Definition progressOf (s : t) (i : nat) : Q :=
  _wrapProgress (_getTimeUniform s * speedOf s i + phaseOf s i)
    (if returnModeEnabled s then 2 else 1).

(** The phase [setAnimationSpeed] derives for instance [i] before storing
    it, and the progress the shader evaluates once the rounded speed and the
    rounded phase are stored. *)
Definition rederivedPhase (s : t) (i : nat) (speed : Q) : Q :=
  _wrapProgress (progressOf s i - _getTimeUniform s * speed)
    (if returnModeEnabled s then 2 else 1).

Definition progressAfterSpeedChange (s : t) (i : nat) (speed : Q) : Q :=
  _wrapProgress
    (progressOf s i
     + _getTimeUniform s * (JS.fround speed - speed)
     + (JS.fround (rederivedPhase s i speed) - rederivedPhase s i speed))
    (if returnModeEnabled s then 2 else 1).

(** What the reconciliation loop reads of instance [i]. *)
Definition rlPhase (st : ReconcileLoop) (i : nat) : Q := aget 0 (rl_params st) (i * 4).
Definition rlSpeed (st : ReconcileLoop) (i : nat) : Q := aget 0 (rl_params st) (i * 4 + 1).
Definition rlVisible (st : ReconcileLoop) (i : nat) : bool :=
  negb (JS.ltb (aget 0 (rl_params st) (i * 4 + 3)) 0.5).
Definition rlPending (st : ReconcileLoop) (i : nat) : bool :=
  truthy (aget 0%Z (rl_pending st) i).
Definition rlCycle (T : Q) (st : ReconcileLoop) (i : nat) : Q :=
  _wrapProgress (T * rlSpeed st i + rlPhase st i) period.


(** The renderer right after the clock of a frame advanced, and the loop
    variables at the start of the reconciliation loop. *)
Definition advanced (dt : Q) (s : t) : t := set_time (time (uniforms s) + dt) s.

Definition loopStart (s : t) : ReconcileLoop :=
  mkReconcileLoop (animationParams s) (pendingReturnCompletion s) false false.

(** Buffer sizes fixed by the constructor. *)
Record wf (s : t) : Prop := mkWf {
  wf_params : length (animationParams s) = (maxPanes s * 4)%nat;
  wf_pending : length (pendingReturnCompletion s) = maxPanes s;
  wf_active : (activePanes s <= Z.of_nat (maxPanes s))%Z
}.

(** What the loop of [setReturnMode(false)] reads of instance [i]. *)
Definition dlPhase (st : DisableLoop) (i : nat) : Q := aget 0 (dl_params st) (i * 4).
Definition dlSpeed (st : DisableLoop) (i : nat) : Q := aget 0 (dl_params st) (i * 4 + 1).
Definition dlVisible (st : DisableLoop) (i : nat) : bool :=
  negb (JS.ltb (aget 0 (dl_params st) (i * 4 + 3)) 0.5).
Definition dlPending (st : DisableLoop) (i : nat) : bool :=
  truthy (aget 0%Z (dl_pending st) i).
Definition dlCycle (T : Q) (st : DisableLoop) (i : nat) : Q :=
  _wrapProgress (T * dlSpeed st i + dlPhase st i) period.

(** The phase [setReturnMode(false)] leaves an active visible instance with,
    and whether it flags it, from its cycle and phase before the call. *)
Definition disabledPhase (cycle phase : Q) : Q :=
  if JS.gtb cycle (1 + epsilon) then phase
  else if JS.gtb cycle (1 - epsilon) then _wrapProgress (phase - 1) period
  else phase.
Definition disabledPending (cycle : Q) : bool := JS.gtb cycle (1 + epsilon).

(** The progress of instance [i] as one-way motion evaluates it. *)
Definition oneWayProgressOf (s : t) (i : nat) : Q :=
  _wrapProgress (_getTimeUniform s * speedOf s i + phaseOf s i) 1.

(** The texture rectangle of instance [i]: (offsetX, offsetY, scaleX, scaleY). *)
Definition readUvTransform (s : t) (i : nat) : list Q :=
  [ aget 0 (instanceUvTransforms s) (i * 4); aget 0 (instanceUvTransforms s) (i * 4 + 1);
    aget 0 (instanceUvTransforms s) (i * 4 + 2); aget 0 (instanceUvTransforms s) (i * 4 + 3) ].

(** Pending flags are carried by active instances only. *)
Definition flagsWithinActive (s : t) : Prop :=
  forall i, pendingOf s i = true -> activeOf s i = true.

(** All the buffer sizes fixed by the constructor. *)
Record sized (s : t) : Prop := mkSized {
  sized_wf : wf s;
  sized_pack1 : length (controlPointsPack1 s) = (maxPanes s * 4)%nat;
  sized_pack2 : length (controlPointsPack2 s) = (maxPanes s * 4)%nat;
  sized_pack3 : length (controlPointsPack3 s) = (maxPanes s * 4)%nat;
  sized_colors : length (instanceColors s) = (maxPanes s * 3)%nat;
  sized_scales : length (instanceScales s) = maxPanes s;
  sized_elevations : length (instanceElevations s) = maxPanes s;
  sized_uv : length (instanceUvTransforms s) = (maxPanes s * 4)%nat;
  sized_positive : (0 < maxPanes s)%nat
}.

(** The four control points of instance [i], read back from the three packed
    attributes at the offsets the packing comments give. *)
Definition readControlPoints (s : t) (i : nat) : list (Vector3 Q) :=
  let p1 := controlPointsPack1 s in
  let p2 := controlPointsPack2 s in
  let p3 := controlPointsPack3 s in
  [ mkVector3 (aget 0 p1 (i * 4)) (aget 0 p1 (i * 4 + 1)) (aget 0 p1 (i * 4 + 2));
    mkVector3 (aget 0 p1 (i * 4 + 3)) (aget 0 p2 (i * 4)) (aget 0 p2 (i * 4 + 1));
    mkVector3 (aget 0 p2 (i * 4 + 2)) (aget 0 p2 (i * 4 + 3)) (aget 0 p3 (i * 4));
    mkVector3 (aget 0 p3 (i * 4 + 1)) (aget 0 p3 (i * 4 + 2)) (aget 0 p3 (i * 4 + 3)) ].

(** The animation parameters of instance [i]: (phase, speed, tiltMode, visible). *)
Definition readAnimationParams (s : t) (i : nat) : list Q :=
  [ aget 0 (animationParams s) (i * 4); aget 0 (animationParams s) (i * 4 + 1);
    aget 0 (animationParams s) (i * 4 + 2); aget 0 (animationParams s) (i * 4 + 3) ].

(** The uniforms mirror the flags they are set from. *)
Definition uniformsSynced (s : t) : Prop :=
  returnMode (uniforms s) = (if returnModeEnabled s then 1 else 0)
  /\ paneVisibility (uniforms s) = (if planesVisible s then 1 else 0).

(** *** Call sequences *)

Inductive Call : Type :=
| CallSetCurveControlPoints (index : Z) (controlPoints : list (Vector3 Q))
| CallSetReturnMode (enabled : bool)
| CallSetPaneColor (index : Z) (c : Color)
| CallSetPaneSize (index : Z) (size : Q)
| CallSetElevationOffset (index : Z) (offset : Q)
| CallSetAnimationSpeed (index : Z) (speed : Q)
| CallSetTiltMode (index : Z) (mode : TiltMode)
| CallHidePane (index : Z)
| CallUpdate (deltaTime : Q)
| CallSetActivePaneCount (count : Z)
| CallSetPlanesVisible (visible : bool)
| CallSetTexture (hasTexture : bool) (info : option AtlasInfo)
| CallSetTextureIndex (index : Z) (textureIndex : Z).

Definition call (s : t) (c : Call) : t :=
  match c with
  | CallSetCurveControlPoints i pts => setCurveControlPoints i pts s
  | CallSetReturnMode b => setReturnMode b s
  | CallSetPaneColor i c => setPaneColor i c s
  | CallSetPaneSize i v => setPaneSize i v s
  | CallSetElevationOffset i v => setElevationOffset i v s
  | CallSetAnimationSpeed i v => setAnimationSpeed i v s
  | CallSetTiltMode i m => setTiltMode i m s
  | CallHidePane i => hidePane i s
  | CallUpdate dt => update dt s
  | CallSetActivePaneCount n => setActivePaneCount n s
  | CallSetPlanesVisible b => setPlanesVisible b s
  | CallSetTexture b info => setTexture b info s
  | CallSetTextureIndex i k => setTextureIndex i k s
  end.

Definition run (calls : list Call) (s : t) : t := fold_left call calls s.

(** The states a caller can bring a renderer into. *)
Definition reachable (s : t) : Prop :=
  exists options rand calls, s = run calls (constructor options rand).

(** Successive frames. *)
Definition updates (deltas : list Q) (s : t) : t :=
  fold_left (fun s dt => update dt s) deltas s.

(** Call sequences that never pass a negative count to [setActivePaneCount]. *)
Definition countsNonNegative (calls : list Call) : Prop :=
  Forall (fun c => match c with
                   | CallSetActivePaneCount n => (0 <= n)%Z
                   | _ => True
                   end) calls.

End PlanesShader.

(** ** A flight: one curve slot and one pane slot ([src/flights/Flight.ts]) *)

Module Flight.

Open Scope Q_scope.

Record AnimationSpeedOptions : Type := mkSpeedOptions { immediate : bool }.

(** The fields of a flight that [update], [setAnimationSpeed] and
    [setReturnFlight] read or write.  [mergedPanes] tells whether the
    reference to the shared pane renderer is set; the renderer itself is the
    second component of a [World], since every flight of the scene holds the
    same object. *)
Record t : Type := mk {
  animationTime : Q;
  mergedPanes : bool;
  paneIndex : Z;
  animationSpeed : Q;
  animationSpeedTarget : Q;
  returnFlight : bool;
  _cachedCurve : bool;
  _isShaderBasedPanes : bool
}.

Definition World : Type := (t * PlanesShader.t)%type.

Definition set_animationTime (v : Q) (f : t) : t :=
  mk v (mergedPanes f) (paneIndex f) (animationSpeed f) (animationSpeedTarget f)
     (returnFlight f) (_cachedCurve f) (_isShaderBasedPanes f).
Definition set_animationSpeed (v : Q) (f : t) : t :=
  mk (animationTime f) (mergedPanes f) (paneIndex f) v (animationSpeedTarget f)
     (returnFlight f) (_cachedCurve f) (_isShaderBasedPanes f).
Definition set_animationSpeedTarget (v : Q) (f : t) : t :=
  mk (animationTime f) (mergedPanes f) (paneIndex f) (animationSpeed f) v
     (returnFlight f) (_cachedCurve f) (_isShaderBasedPanes f).
Definition set_returnFlight (v : bool) (f : t) : t :=
  mk (animationTime f) (mergedPanes f) (paneIndex f) (animationSpeed f)
     (animationSpeedTarget f) v (_cachedCurve f) (_isShaderBasedPanes f).

(** [this._isShaderBasedPanes && this.mergedPanes && this.paneIndex >= 0] *)
Definition drivesShader (f : t) : bool :=
  _isShaderBasedPanes f && mergedPanes f && (0 <=? paneIndex f)%Z.

(** Set animation speed. *)
Definition setAnimationSpeed (speed : Q) (options : AnimationSpeedOptions)
    (w : World) : World :=
  let '(f, panes) := w in
  let f := set_animationSpeedTarget speed f in
  let panes :=
    if drivesShader f
    then PlanesShader.setAnimationSpeed (paneIndex f) speed panes
    else panes in
  let f := if immediate options then set_animationSpeed speed f else f in
  (f, panes).

Definition _applyAnimationSpeedSmoothing (deltaTime : Q) (w : World) : World :=
  let '(f, panes) := w in
  let difference := animationSpeedTarget f - animationSpeed f in
  if JS.ltb (JS.abs difference) 0.00001 (* 1e-5 *) then
    let panes :=
      if negb (Qeq_bool (animationSpeed f) (animationSpeedTarget f)) && drivesShader f
      then PlanesShader.setAnimationSpeed (paneIndex f) (animationSpeedTarget f) panes
      else panes in
    (set_animationSpeed (animationSpeedTarget f) f, panes)
  else
    (* a zero deltaTime is falsy *)
    let factor := if Qeq_bool deltaTime 0 then 1 else JS.min 1 (deltaTime * 6) in
    let f := set_animationSpeed (animationSpeed f + difference * factor) f in
    let f :=
      if JS.ltb (JS.abs (animationSpeedTarget f - animationSpeed f)) 0.0001 (* 1e-4 *)
      then set_animationSpeed (animationSpeedTarget f) f
      else f in
    let panes :=
      if drivesShader f
      then PlanesShader.setAnimationSpeed (paneIndex f) (animationSpeed f) panes
      else panes in
    (f, panes).

(** Update animation for the pane on the curve.  The shared renderer of this
    repository is shader based and has no [updatePaneOnCurve]; on the other
    path only the flight's own clock advances. *)
Definition update (deltaTime : Q) (w : World) : World :=
  let '(f, panes) := _applyAnimationSpeedSmoothing deltaTime w in
  if _isShaderBasedPanes f then (f, panes)
  else if negb (_cachedCurve f) || negb (mergedPanes f) || (paneIndex f <? 0)%Z
  then (f, panes)
  else (set_animationTime (animationTime f + deltaTime * animationSpeed f) f, panes).

(** Enable or disable return flight behaviour. *)
Definition setReturnFlight (enabled : bool) (f : t) : t :=
  if Bool.eqb (returnFlight f) enabled then f
  else
    let f :=
      if enabled then set_animationTime (JS.rem (animationTime f) 1) f
      else
        let cycle := JS.rem (animationTime f) 2 in
        let t := if JS.gtb cycle 1 then 2 - cycle else cycle in
        set_animationTime t f in
    set_returnFlight enabled f.

(** The speed a frame is said to produce: the active speed moves toward the
    target by [fraction] of the remaining difference and snaps to the target
    once within 1e-4 of it. *)
Definition smoothedSpeed (speed target fraction : Q) : Q :=
  let moved := speed + (target - speed) * fraction in
  if JS.ltb (JS.abs (target - moved)) 0.0001 then target else moved.

(** The fraction of the remaining difference a frame covers. *)
Definition frameFraction (deltaTime : Q) : Q :=
  if Qeq_bool deltaTime 0 then 1 else JS.min 1 (deltaTime * 6).

(** The curve parameter [t] that [update] hands to the CPU-side pane
    renderer: the fraction of the animation time, folded back on the return
    leg of a return flight. *)
Definition pathParameter (f : t) : Q :=
  if returnFlight f then
    let cycle := JS.rem (animationTime f) 2 in
    if JS.gtb cycle 1 then 2 - cycle else cycle
  else JS.rem (animationTime f) 1.

End Flight.

(** ** JavaScript arithmetic on the reals, for the geometry *)

Module JSR.

Open Scope R_scope.

Definition ltb (a b : R) : bool := if Rlt_dec a b then true else false.
Definition leb (a b : R) : bool := if Rle_dec a b then true else false.
Definition gtb (a b : R) : bool := ltb b a.
Definition geb (a b : R) : bool := leb b a.
Definition eqb (a b : R) : bool := if Req_dec_T a b then true else false.

(** [v || d] on numbers: zero is falsy. *)
Definition or (v d : R) : R := if Req_dec_T v 0 then d else v.

(** [Math.trunc] and the [%] operator. *)
Definition trunc (x : R) : Z :=
  if Rle_dec 0 x then Int_part x else (- Int_part (- x))%Z.
Definition rem (a b : R) : R := a - b * IZR (trunc (a / b)).

(** [Math.pow] on a non-negative base and a positive exponent. *)
Definition pow (x y : R) : R := if Req_dec_T x 0 then 0 else Rpower x y.

(** [THREE.MathUtils.clamp]. *)
Definition clamp (value lo hi : R) : R := Rmax lo (Rmin hi value).

(** [THREE.MathUtils.lerp]. *)
Definition lerp (x y t : R) : R := (1 - t) * x + t * y.

(** [Math.floor]. *)
Definition floor (x : R) : Z := Int_part x.

(** [Math.atan2] on finite arguments (the sign of a zero is not modelled). *)
Definition atan2 (y x : R) : R :=
  if Rlt_dec 0 x then atan (y / x)
  else if Rlt_dec x 0 then
    if Rle_dec 0 y then atan (y / x) + PI else atan (y / x) - PI
  else if Rlt_dec 0 y then PI / 2
  else if Rlt_dec y 0 then - (PI / 2)
  else 0.

End JSR.

(** ** [THREE.Vector3] over the reals *)

Module V3.

Open Scope R_scope.

Definition Vec3 : Type := Vector3 R.

Definition zero : Vec3 := mkVector3 0 0 0.

Definition lengthSq (v : Vec3) : R := vx v * vx v + vy v * vy v + vz v * vz v.
Definition length (v : Vec3) : R := sqrt (lengthSq v).

Definition multiplyScalar (v : Vec3) (s : R) : Vec3 :=
  mkVector3 (vx v * s) (vy v * s) (vz v * s).
Definition divideScalar (v : Vec3) (s : R) : Vec3 := multiplyScalar v (1 / s).

(** [normalize() { return this.divideScalar(this.length() || 1) }] *)
Definition normalize (v : Vec3) : Vec3 := divideScalar v (JSR.or (length v) 1).

Definition setLength (v : Vec3) (l : R) : Vec3 := multiplyScalar (normalize v) l.

Definition add (a b : Vec3) : Vec3 :=
  mkVector3 (vx a + vx b) (vy a + vy b) (vz a + vz b).
Definition sub (a b : Vec3) : Vec3 :=
  mkVector3 (vx a - vx b) (vy a - vy b) (vz a - vz b).
Definition dot (a b : Vec3) : R := vx a * vx b + vy a * vy b + vz a * vz b.

Definition lerp (a b : Vec3) (alpha : R) : Vec3 :=
  mkVector3 (vx a + (vx b - vx a) * alpha)
            (vy a + (vy b - vy a) * alpha)
            (vz a + (vz b - vz a) * alpha).

Definition crossVectors (a b : Vec3) : Vec3 :=
  mkVector3 (vy a * vz b - vz a * vy b)
            (vz a * vx b - vx a * vz b)
            (vx a * vy b - vy a * vx b).

Definition distanceToSquared (a b : Vec3) : R := lengthSq (sub a b).
Definition distanceTo (a b : Vec3) : R := sqrt (distanceToSquared a b).

(** Rotation about the vertical (Y) axis, as [Object3D.rotation.y] applies it. *)
Definition rotateY (angle : R) (v : Vec3) : Vec3 :=
  mkVector3 (cos angle * vx v + sin angle * vz v)
            (vy v)
            (- sin angle * vx v + cos angle * vz v).

End V3.

(** The operations of the Three.js library that the repository calls and
    that are not part of it: the Catmull-Rom curve through a list of points
    and the colour conversions. *)
Record RGB : Type := mkRGB { red : R; green : R; blue : R }.

Class Three : Type := {
  (** [new THREE.CatmullRomCurve3(points).getPoint(t)] *)
  catmullRomGetPoint : list V3.Vec3 -> R -> V3.Vec3;
  (** [new THREE.CatmullRomCurve3(points).getPoints(divisions)],
      [divisions + 1] points *)
  catmullRomGetPoints : list V3.Vec3 -> nat -> list V3.Vec3;
  (** [new THREE.Color(hex)] *)
  colorFromHex : Z -> RGB;
  (** [new THREE.Color().setHSL(h, s, l)] *)
  colorSetHSL : R -> R -> R -> RGB
}.

(** ** Geographic projection ([src/common/Utils.ts]) *)

Module Utils.

Open Scope R_scope.

(** Standard spherical to cartesian conversion. *)
Definition sphericalToCartesian (radius phi theta : R) : V3.Vec3 :=
  mkVector3 (radius * sin phi * cos theta)
            (radius * cos phi)
            (radius * sin phi * sin theta).

(** Convert latitude/longitude coordinates to a 3D position. *)
Definition latLngToVector3 (lat lng radius : R) : V3.Vec3 :=
  let phi := ((90 - lat) * PI) / 180 in
  let theta := ((- lng + 180) * PI) / 180 in
  let x := radius * sin phi * cos theta in
  let y := radius * cos phi in
  let z := radius * sin phi * sin theta in
  let rotatedX := z in
  let rotatedY := y in
  let rotatedZ := - x in
  mkVector3 rotatedX rotatedY rotatedZ.

Definition degreesToRadians (degrees : R) : R := (degrees * PI) / 180.
Definition radiansToDegrees (radians : R) : R := (radians * 180) / PI.

(** Clamp a value between min and max. *)
Definition clamp (value min max : R) : R := Rmin (Rmax value min) max.

Record SunPosition : Type := mkSunPosition { sun_lat : R; sun_lng : R }.

(** [while (normalizedLongitude > 180) normalizedLongitude -= 360] and
    [while (normalizedLongitude < -180) normalizedLongitude += 360], each
    with a bound on the number of iterations. *)
Fixpoint wrapAbove (fuel : nat) (normalizedLongitude : R) : option R :=
  match fuel with
  | O => None
  | S fuel =>
      if JSR.gtb normalizedLongitude 180
      then wrapAbove fuel (normalizedLongitude - 360)
      else Some normalizedLongitude
  end.

Fixpoint wrapBelow (fuel : nat) (normalizedLongitude : R) : option R :=
  match fuel with
  | O => None
  | S fuel =>
      if JSR.ltb normalizedLongitude (- 180)
      then wrapBelow fuel (normalizedLongitude + 360)
      else Some normalizedLongitude
  end.

(** The subsolar point.  What the source reads from the clock is an
    argument here: the day of the year and the UTC time of day;
    [simulatedTimeHours] is [None] for [null]. *)
Definition getSunPosition (fuel : nat) (dayOfYear : Z) (hours minutes seconds : Z)
    (simulatedTimeHours : option R) : option SunPosition :=
  let declination :=
    23.45 * sin (degreesToRadians ((360 / 365.25) * (IZR dayOfYear - 81))) in
  let timeDecimal :=
    match simulatedTimeHours with
    | Some t => t
    | None => IZR hours + IZR minutes / 60 + IZR seconds / 3600
    end in
  let longitude := (12 - timeDecimal) * 15 in
  match wrapAbove fuel longitude with
  | None => None
  | Some normalizedLongitude =>
      match wrapBelow fuel normalizedLongitude with
      | None => None
      | Some normalizedLongitude => Some (mkSunPosition declination normalizedLongitude)
      end
  end.

(** Convert sun position to a 3D vector for the directional light. *)
Definition getSunVector3 (fuel : nat) (radius : R) (dayOfYear : Z)
    (hours minutes seconds : Z) (simulatedTimeHours : option R) : option V3.Vec3 :=
  match getSunPosition fuel dayOfYear hours minutes seconds simulatedTimeHours with
  | Some sunPos => Some (latLngToVector3 (sun_lat sunPos) (sun_lng sunPos) (radius * 3))
  | None => None
  end.

Record LatLng : Type := mkLatLng { ll_lat : R; ll_lng : R }.

(** Convert a 3D position back to latitude/longitude coordinates. *)
Definition vector3ToLatLng (position : V3.Vec3) (radius : R) : LatLng :=
  let x := - vz position in
  let y := vy position in
  let z := vx position in
  let normalizedPosition :=
    V3.multiplyScalar (V3.normalize (mkVector3 x y z)) radius in
  let phi := acos (clamp (vy normalizedPosition / radius) (- 1) 1) in
  let theta := JSR.atan2 (vz normalizedPosition) (vx normalizedPosition) in
  let lat := 90 - (phi * 180) / PI in
  let lng := JSR.rem ((theta * 180) / PI + 180) 360 - 180 in
  mkLatLng lat lng.

(** Clamp a percentage value between 0 and 100.  [value] is [Number(value)]
    when that is finite and [None] otherwise. *)
Definition clampPercentValue (value : option R) (fallbackPercent : R) : R :=
  match value with
  | None => fallbackPercent
  | Some numeric => JSR.clamp numeric 0 100
  end.

Definition resolveDayIntensityFromPercent (percentValue : option R)
    (fallbackPercent : R) : R :=
  let percent := clampPercentValue percentValue fallbackPercent / 100 in
  JSR.lerp 0.1 3.0 percent.

Definition resolveNightMixFromPercent (percentValue : option R)
    (fallbackPercent : R) : R :=
  clampPercentValue percentValue fallbackPercent / 100.

End Utils.

(** ** Control-point generation ([src/flights/FlightUtils.ts]) *)

Module FlightUtils.

Import V3.
Open Scope R_scope.

Record Geolocation : Type := mkGeolocation { lat : R; lng : R }.

Record ParabolicOptions : Type := mkParabolicOptions {
  radius : R;
  takeoffOffset : R;
  minCurveAltitude : R;
  minCruiseAltitude : R;
  maxCruiseAltitude : R
}.

(** Clone an array of control points. *)
Definition cloneControlPoints (points : list Vec3) : list Vec3 :=
  map (fun point => point) points.

(** Ensure all control points stay above a minimum altitude.  (The source
    also passes a missing entry through; the element type excludes it.) *)
Definition ensureMinimumCurveAltitude (points : list Vec3) (radius minAltitude : R)
    : list Vec3 :=
  let safeRadius := radius + minAltitude in
  map (fun point =>
         let adjusted := point in
         let length := V3.length adjusted in
         if JSR.gtb length 0 && JSR.ltb length safeRadius
         then multiplyScalar (normalize adjusted) safeRadius
         else adjusted)
      points.

(** What [ensureMinimumCurveAltitude] does to one point: the function it maps
    over the array. *)
Definition liftPoint (radius minAltitude : R) (point : Vec3) : Vec3 :=
  if JSR.gtb (V3.length point) 0 && JSR.ltb (V3.length point) (radius + minAltitude)
  then multiplyScalar (normalize point) (radius + minAltitude)
  else point.

Section WithThree.

Context {three : Three}.

(** Normalize raw control points into four evenly-sampled points. *)
Definition normalizeControlPoints (points : list Vec3) (radius minAltitude : R)
    : list Vec3 :=
  let sourcePoints :=
    match points with [] => [] | _ => cloneControlPoints points end in
  if (List.length sourcePoints =? 4)%nat then
    ensureMinimumCurveAltitude sourcePoints radius minAltitude
  else
    match sourcePoints with
    | [] => []
    | _ =>
        let sampledPoints :=
          [ catmullRomGetPoint sourcePoints 0.0;
            catmullRomGetPoint sourcePoints 0.333;
            catmullRomGetPoint sourcePoints 0.666;
            catmullRomGetPoint sourcePoints 1.0 ] in
        ensureMinimumCurveAltitude sampledPoints radius minAltitude
    end.

End WithThree.

(** The tangent direction at an end of the path: the path direction projected
    on the plane perpendicular to the surface normal, with fallback axes when
    the projection is degenerate.  [random] is the result of
    [randomDirection()], drawn when the two ends coincide. *)
Definition tangentAt (surface other random : Vec3) : Vec3 :=
  let normal := normalize surface in
  let pathDir := sub other surface in
  let pathDir := if JSR.ltb (lengthSq pathDir) 1e-6 then random else pathDir in
  let tangent := sub pathDir (multiplyScalar normal (dot pathDir normal)) in
  let tangent :=
    if JSR.ltb (lengthSq tangent) 1e-6 then
      let tangent := crossVectors normal (mkVector3 0 1 0) in
      if JSR.ltb (lengthSq tangent) 1e-6 then mkVector3 1 0 0 else tangent
    else tangent in
  normalize tangent.

(** Generate the nine control points of a parabolic path between two
    geolocations.  [random1] and [random2] are the random directions the
    source draws for the start and for the end when both coincide.
    (Over the reals the points interpolated between two exactly antipodal
    places can meet the origin, where the program, computing in doubles, has
    a vector of length about 1e-13 and normalises it; nothing below is
    stated about antipodal places.) *)
Definition generateParabolicControlPoints (departure arrival : Geolocation)
    (options : ParabolicOptions) (random1 random2 : Vec3) : list Vec3 :=
  let radius := radius options in
  let takeoffOffset := takeoffOffset options in
  let minCurveAltitude := minCurveAltitude options in
  let minCruiseAltitude := minCruiseAltitude options in
  let maxCruiseAltitude := maxCruiseAltitude options in
  let surfaceOffset := Rmax takeoffOffset minCurveAltitude in
  let cruiseMin := Rmax minCruiseAltitude (surfaceOffset + 5) in
  let origin := Utils.latLngToVector3 (lat departure) (lng departure) radius in
  let destination := Utils.latLngToVector3 (lat arrival) (lng arrival) radius in
  let startSurface := multiplyScalar (normalize origin) (radius + surfaceOffset) in
  let endSurface := multiplyScalar (normalize destination) (radius + surfaceOffset) in
  let distance := distanceTo startSurface endSurface in
  let maxDistance := radius * PI in
  let distanceRatio := Rmin (distance / (maxDistance * 0.3)) 1 in
  let cruiseAltitude :=
    cruiseMin + (maxCruiseAltitude - cruiseMin) * JSR.pow distanceRatio 0.7 in
  let climbPoint1 :=
    multiplyScalar (normalize (lerp startSurface endSurface 0.2))
                   (radius + cruiseAltitude * 0.4) in
  let climbPoint2 :=
    multiplyScalar (normalize (lerp startSurface endSurface 0.35))
                   (radius + cruiseAltitude * 0.75) in
  let cruisePeak :=
    multiplyScalar (normalize (lerp startSurface endSurface 0.5))
                   (radius + cruiseAltitude * 0.85) in
  let descentPoint1 :=
    multiplyScalar (normalize (lerp startSurface endSurface 0.65))
                   (radius + cruiseAltitude * 0.75) in
  let descentPoint2 :=
    multiplyScalar (normalize (lerp startSurface endSurface 0.8))
                   (radius + cruiseAltitude * 0.4) in
  let tangentStart := tangentAt startSurface endSurface random1 in
  let tangentDistance := radius * 0.08 in
  let surfaceLength := V3.length startSurface in
  let startTangentPoint :=
    multiplyScalar
      (normalize (add startSurface (multiplyScalar tangentStart tangentDistance)))
      surfaceLength in
  let tangentEnd := tangentAt endSurface startSurface random2 in
  let endSurfaceLength := V3.length endSurface in
  let endTangentPoint :=
    multiplyScalar
      (normalize (add endSurface (multiplyScalar tangentEnd tangentDistance)))
      endSurfaceLength in
  let controlPoints :=
    [ startSurface; startTangentPoint; climbPoint1; climbPoint2; cruisePeak;
      descentPoint1; descentPoint2; endTangentPoint; endSurface ] in
  ensureMinimumCurveAltitude controlPoints radius minCurveAltitude.

(** Generate a random point inside a sphere centered at the origin; [u], [v]
    and [w] are the three results of [Math.random()], in the order drawn. *)
Definition randomPointInSphere (radius : R) (draw : R * R * R) : Vec3 :=
  let '(u, v, w) := draw in
  let theta := 2 * PI * u in
  let phi := acos (2 * v - 1) in
  let r := radius * JSR.pow w (1 / 3) in
  let sinPhi := sin phi in
  mkVector3 (r * sinPhi * cos theta) (r * sinPhi * sin theta) (r * cos phi).

(** Clamp a vector to lie within a sphere. *)
Definition clampToSphere (vector : Vec3) (radius : R) (center : Vec3) : Vec3 :=
  let offset := sub vector center in
  let radiusSq := radius * radius in
  if JSR.gtb (lengthSq offset) radiusSq
  then add (setLength offset radius) center
  else vector.

Record Bounds : Type := mkBounds {
  minX : option R; maxX : option R;
  minY : option R; maxY : option R;
  minZ : option R; maxZ : option R
}.

(** Infer a sphere radius from legacy bounds configuration. *)
Definition inferRadiusFromBounds (bounds : option Bounds) : R :=
  match bounds with
  | None => 3000
  | Some bounds =>
      let maxX := Rmax (Rabs (default 0 (minX bounds))) (Rabs (default 0 (maxX bounds))) in
      let maxY := Rmax (Rabs (default 0 (minY bounds))) (Rabs (default 0 (maxY bounds))) in
      let maxZ := Rmax (Rabs (default 0 (minZ bounds))) (Rabs (default 0 (maxZ bounds))) in
      sqrt (maxX * maxX + maxY * maxY + maxZ * maxZ)
  end.

(** Infer the sphere center from legacy bounds configuration. *)
Definition inferCenterFromBounds (bounds : option Bounds) : Vec3 :=
  match bounds with
  | None => zero
  | Some bounds =>
      mkVector3 ((default 0 (minX bounds) + default 0 (maxX bounds)) * 0.5)
                ((default 0 (minY bounds) + default 0 (maxY bounds)) * 0.5)
                ((default 0 (minZ bounds) + default 0 (maxZ bounds)) * 0.5)
  end.

Record RandomCurveOptions : Type := mkRandomCurveOptions {
  rc_start : option Vec3;
  rc_end : option Vec3;
  rc_center : option Vec3;
  rc_radius : option R;
  rc_spread : option R;
  rc_bounds : option Bounds;
  rc_numControlPoints : option Z
}.

(** Generate random control points for a smooth curve inside a sphere.
    [random n] is the [n]-th triple of [Math.random()] results consumed by
    [randomPointInSphere]; [randFloat] is the result of
    [THREE.MathUtils.randFloat(2, 5)]. *)
Definition generateRandomCurve (options : RandomCurveOptions)
    (random : nat -> R * R * R) (randFloat : R) : list Vec3 :=
  let center :=
    match rc_center options with
    | Some c => c
    | None => inferCenterFromBounds (rc_bounds options)
    end in
  let radius :=
    match rc_radius options with
    | Some r => r
    | None => inferRadiusFromBounds (rc_bounds options)
    end in
  let spread :=
    Rmin (match rc_spread options with Some s => s | None => radius * 0.6 end) radius in
  let '(start, drawn) :=
    match rc_start options with
    | Some p => (p, 0%nat)
    | None => (add (randomPointInSphere radius (random 0%nat)) center, 1%nat)
    end in
  let start := clampToSphere start radius center in
  let '(end_, drawn) :=
    match rc_end options with
    | Some p => (p, drawn)
    | None => (add (randomPointInSphere radius (random drawn)) center, S drawn)
    end in
  let end_ := clampToSphere end_ radius center in
  let numControlPoints :=
    match rc_numControlPoints options with
    | Some n => n
    | None => JSR.floor randFloat
    end in
  let controlPoints :=
    map (fun i =>
           let t := INR i / (IZR numControlPoints + 1) in
           let basePoint := lerp start end_ t in
           let offset := randomPointInSphere spread (random (drawn + i - 1)%nat) in
           let controlPoint := add basePoint offset in
           clampToSphere controlPoint radius center)
        (seq 1 (Z.to_nat numControlPoints)) in
  [start] ++ controlPoints ++ [end_].

(** How [normalizeControlPoints] relates an input point to its output. *)
Definition floorEnforced (radius minAltitude : R) (p q : Vec3) : Prop :=
  (radius + minAltitude <= V3.length p -> q = p)
  /\ (V3.length p = 0 -> q = p)
  /\ (0 < V3.length p < radius + minAltitude ->
      q = multiplyScalar p ((radius + minAltitude) / V3.length p)
      /\ 0 < (radius + minAltitude) / V3.length p
      /\ V3.length q = radius + minAltitude).

End FlightUtils.

(** ** The batched curve renderer ([src/curves/Curves.ts]) *)

Module Curves.

Import V3.
Open Scope R_scope.

Record GradientColorConfig : Type := mkGradientColorConfig {
  departureLat : option R;
  departureLng : option R
}.

(** [number | THREE.Color | GradientColorConfig] *)
Inductive ColorInput : Type :=
| ColorNumber (hex : Z)
| ColorObject (c : RGB)
| ColorGradient (config : GradientColorConfig).

Record Departure : Type := mkDeparture { lat : option R; lng : option R }.
Record CurveMetadata : Type := mkCurveMetadata { departure : option Departure }.

Record CurveData : Type := mkCurveData {
  controlPoints : list Vec3;
  color : ColorInput;
  visible : bool;
  metadata : option CurveMetadata
}.

Record GradientParams : Type := mkGradientParams {
  hue : R;
  saturation : R;
  lightnessStart : R;
  lightnessEnd : R
}.

Record CurvesOptions : Type := mkOptions {
  opt_maxCurves : option nat;
  opt_segmentsPerCurve : option nat;
  opt_dashSize : option R;
  opt_gapSize : option R
}.

(** What the console received. *)
Inductive Warning : Type :=
| IndexOutOfBounds (curveIndex : Z)  (* `Curve index ${curveIndex} out of bounds` *)
| NeedTwoControlPoints.              (* "Need at least 2 control points for a curve" *)

(** The material in use. *)
Inductive Material : Type :=
| LineBasicMaterial
| LineDashedMaterial (dashSize gapSize : R).

(** The renderer object.  The geometry, the buffers and the material are
    created by the constructor and stay allocated, so the source's null
    checks on them always pass and are not repeated here. *)
Record t : Type := mk {
  maxCurves : nat;
  segmentsPerCurve : nat;
  dashSize : R;
  gapSize : R;
  material : Material;
  positions : list R;
  colors : list R;
  lineDistances : list R;
  currentCurveCount : Z;
  needsPositionUpdate : bool;
  needsColorUpdate : bool;
  needsLineDistanceUpdate : bool;
  curveData : list CurveData;
  drawRange : Z * Z;            (* geometry.drawRange: (start, count) *)
  uploadPosition : bool;        (* geometry.attributes.position.needsUpdate *)
  uploadColor : bool;
  uploadLineDistance : bool;
  warnings : list Warning       (* most recent first *)
}.

Definition verticesPerSegment : nat := 2.
Definition verticesPerCurve (s : t) : nat := (segmentsPerCurve s * verticesPerSegment)%nat.

Definition set_material (v : Material) (s : t) : t :=
  mk (maxCurves s) (segmentsPerCurve s) (dashSize s) (gapSize s) v (positions s)
     (colors s) (lineDistances s) (currentCurveCount s) (needsPositionUpdate s)
     (needsColorUpdate s) (needsLineDistanceUpdate s) (curveData s) (drawRange s)
     (uploadPosition s) (uploadColor s) (uploadLineDistance s) (warnings s).
Definition set_dash (d gp : R) (s : t) : t :=
  mk (maxCurves s) (segmentsPerCurve s) d gp (material s) (positions s)
     (colors s) (lineDistances s) (currentCurveCount s) (needsPositionUpdate s)
     (needsColorUpdate s) (needsLineDistanceUpdate s) (curveData s) (drawRange s)
     (uploadPosition s) (uploadColor s) (uploadLineDistance s) (warnings s).
Definition set_positions (v : list R) (s : t) : t :=
  mk (maxCurves s) (segmentsPerCurve s) (dashSize s) (gapSize s) (material s) v
     (colors s) (lineDistances s) (currentCurveCount s) (needsPositionUpdate s)
     (needsColorUpdate s) (needsLineDistanceUpdate s) (curveData s) (drawRange s)
     (uploadPosition s) (uploadColor s) (uploadLineDistance s) (warnings s).
Definition set_colors (v : list R) (s : t) : t :=
  mk (maxCurves s) (segmentsPerCurve s) (dashSize s) (gapSize s) (material s)
     (positions s) v (lineDistances s) (currentCurveCount s) (needsPositionUpdate s)
     (needsColorUpdate s) (needsLineDistanceUpdate s) (curveData s) (drawRange s)
     (uploadPosition s) (uploadColor s) (uploadLineDistance s) (warnings s).
Definition set_lineDistances (v : list R) (s : t) : t :=
  mk (maxCurves s) (segmentsPerCurve s) (dashSize s) (gapSize s) (material s)
     (positions s) (colors s) v (currentCurveCount s) (needsPositionUpdate s)
     (needsColorUpdate s) (needsLineDistanceUpdate s) (curveData s) (drawRange s)
     (uploadPosition s) (uploadColor s) (uploadLineDistance s) (warnings s).
Definition set_currentCurveCount (v : Z) (s : t) : t :=
  mk (maxCurves s) (segmentsPerCurve s) (dashSize s) (gapSize s) (material s)
     (positions s) (colors s) (lineDistances s) v (needsPositionUpdate s)
     (needsColorUpdate s) (needsLineDistanceUpdate s) (curveData s) (drawRange s)
     (uploadPosition s) (uploadColor s) (uploadLineDistance s) (warnings s).
Definition set_needsPositionUpdate (v : bool) (s : t) : t :=
  mk (maxCurves s) (segmentsPerCurve s) (dashSize s) (gapSize s) (material s)
     (positions s) (colors s) (lineDistances s) (currentCurveCount s) v
     (needsColorUpdate s) (needsLineDistanceUpdate s) (curveData s) (drawRange s)
     (uploadPosition s) (uploadColor s) (uploadLineDistance s) (warnings s).
Definition set_needsColorUpdate (v : bool) (s : t) : t :=
  mk (maxCurves s) (segmentsPerCurve s) (dashSize s) (gapSize s) (material s)
     (positions s) (colors s) (lineDistances s) (currentCurveCount s)
     (needsPositionUpdate s) v (needsLineDistanceUpdate s) (curveData s)
     (drawRange s) (uploadPosition s) (uploadColor s) (uploadLineDistance s)
     (warnings s).
Definition set_needsLineDistanceUpdate (v : bool) (s : t) : t :=
  mk (maxCurves s) (segmentsPerCurve s) (dashSize s) (gapSize s) (material s)
     (positions s) (colors s) (lineDistances s) (currentCurveCount s)
     (needsPositionUpdate s) (needsColorUpdate s) v (curveData s) (drawRange s)
     (uploadPosition s) (uploadColor s) (uploadLineDistance s) (warnings s).
Definition set_curveData (v : list CurveData) (s : t) : t :=
  mk (maxCurves s) (segmentsPerCurve s) (dashSize s) (gapSize s) (material s)
     (positions s) (colors s) (lineDistances s) (currentCurveCount s)
     (needsPositionUpdate s) (needsColorUpdate s) (needsLineDistanceUpdate s) v
     (drawRange s) (uploadPosition s) (uploadColor s) (uploadLineDistance s)
     (warnings s).
Definition set_drawRange (v : Z * Z) (s : t) : t :=
  mk (maxCurves s) (segmentsPerCurve s) (dashSize s) (gapSize s) (material s)
     (positions s) (colors s) (lineDistances s) (currentCurveCount s)
     (needsPositionUpdate s) (needsColorUpdate s) (needsLineDistanceUpdate s)
     (curveData s) v (uploadPosition s) (uploadColor s) (uploadLineDistance s)
     (warnings s).
Definition set_uploads (p c l : bool) (s : t) : t :=
  mk (maxCurves s) (segmentsPerCurve s) (dashSize s) (gapSize s) (material s)
     (positions s) (colors s) (lineDistances s) (currentCurveCount s)
     (needsPositionUpdate s) (needsColorUpdate s) (needsLineDistanceUpdate s)
     (curveData s) (drawRange s) p c l (warnings s).
Definition set_warnings (v : list Warning) (s : t) : t :=
  mk (maxCurves s) (segmentsPerCurve s) (dashSize s) (gapSize s) (material s)
     (positions s) (colors s) (lineDistances s) (currentCurveCount s)
     (needsPositionUpdate s) (needsColorUpdate s) (needsLineDistanceUpdate s)
     (curveData s) (drawRange s) (uploadPosition s) (uploadColor s)
     (uploadLineDistance s) v.

Definition warn (w : Warning) (s : t) : t := set_warnings (w :: warnings s) s.

(** The guard [curveIndex < 0 || curveIndex >= this.maxCurves]. *)
Definition outOfRange (curveIndex : Z) (s : t) : bool :=
  (curveIndex <? 0)%Z || (Z.of_nat (maxCurves s) <=? curveIndex)%Z.

Definition createMaterial (dashSize gapSize : R) : Material :=
  if JSR.gtb dashSize 0
  then LineDashedMaterial dashSize (Rmax gapSize 1e-4)
  else LineBasicMaterial.

Definition emptyCurveData : CurveData :=
  mkCurveData [] (ColorNumber 16777215) false None.

Definition constructor (options : CurvesOptions) : t :=
  let maxCurves :=
    match opt_maxCurves options with Some (S n) => S n | _ => 1000%nat end in
  let segmentsPerCurve :=
    match opt_segmentsPerCurve options with Some (S n) => S n | _ => 100%nat end in
  let dashSize := default 0 (opt_dashSize options) in
  let gapSize := default 0 (opt_gapSize options) in
  let totalVertices := (maxCurves * (segmentsPerCurve * verticesPerSegment))%nat in
  {| maxCurves := maxCurves;
     segmentsPerCurve := segmentsPerCurve;
     dashSize := dashSize;
     gapSize := gapSize;
     material := createMaterial dashSize gapSize;
     positions := repeat 0 (totalVertices * 3);
     colors := repeat 0 (totalVertices * 3);
     lineDistances := repeat 0 totalVertices;
     currentCurveCount := 0;
     needsPositionUpdate := false;
     needsColorUpdate := false;
     needsLineDistanceUpdate := false;
     curveData := repeat emptyCurveData maxCurves;
     drawRange := (0, 0)%Z;
     uploadPosition := false;
     uploadColor := false;
     uploadLineDistance := false;
     warnings := [] |}.

(** Update the draw range based on current curve count. *)
Definition updateDrawRange (s : t) : t :=
  let visibleVertices := (currentCurveCount s * Z.of_nat (verticesPerCurve s))%Z in
  set_drawRange (0%Z, visibleVertices) s.

(** Set the number of visible curves. *)
Definition setVisibleCurveCount (count : Z) (s : t) : t :=
  updateDrawRange (set_currentCurveCount (Z.min count (Z.of_nat (maxCurves s))) s).

Section WithThree.

Context {three : Three}.

Definition _computeGradientParams (color : ColorInput) (metadata : option CurveMetadata)
    : option GradientParams :=
  let source : option (R * R) :=
    match color with
    | ColorGradient config =>
        Some (default 0 (departureLat config), default 0 (departureLng config))
    | _ =>
        match metadata with
        | Some m =>
            match departure m with
            | Some d => Some (default 0 (lat d), default 0 (lng d))
            | None => None
            end
        | None => None
        end
    end in
  match source with
  | None => None
  | Some (lat, lng) =>
      let hue := JSR.rem (lng + 180) 360 / 360 in
      let latFactor := Rmin (Rabs lat / 90) 1 in
      let saturation := JSR.clamp (0.6 + 0.3 * (1 - latFactor)) 0 1 in
      Some (mkGradientParams hue saturation 0.35 0.75)
  end.

Definition _resolveSolidColor (color : ColorInput) : RGB :=
  match color with
  | ColorObject c => c
  | ColorNumber hex => colorFromHex hex
  | ColorGradient _ => colorFromHex 4491519 (* 0x4488ff *)
  end.

Definition _getColorForProgress (params : GradientParams) (progress : R) : RGB :=
  let clampedProgress := JSR.clamp progress 0 1 in
  let lightness :=
    JSR.clamp (lightnessStart params
               + (lightnessEnd params - lightnessStart params) * clampedProgress) 0 1 in
  colorSetHSL (hue params) (saturation params) lightness.

(** Write the colours of both vertices of one segment. *)
Definition writeSegmentColors (buf : list R) (bufferIndex : nat) (c0 c1 : RGB) : list R :=
  let buf := aset buf bufferIndex (red c0) in
  let buf := aset buf (bufferIndex + 1) (green c0) in
  let buf := aset buf (bufferIndex + 2) (blue c0) in
  let buf := aset buf (bufferIndex + 3) (red c1) in
  let buf := aset buf (bufferIndex + 4) (green c1) in
  aset buf (bufferIndex + 5) (blue c1).

Definition _applyColorToCurve (curveIndex : Z) (s : t) : t :=
  if outOfRange curveIndex s then s
  else
    let i := Z.to_nat curveIndex in
    let curveData := aget emptyCurveData (curveData s) i in
    if negb (visible curveData) then s
    else
      let gradientParams := _computeGradientParams (color curveData) (metadata curveData) in
      let vertexOffset := (i * verticesPerCurve s)%nat in
      let colors :=
        fold_left
          (fun buf segmentIndex =>
             let vertexIndex := (vertexOffset + segmentIndex * verticesPerSegment)%nat in
             let bufferIndex := (vertexIndex * 3)%nat in
             match gradientParams with
             | Some params =>
                 let startProgress := INR segmentIndex / INR (segmentsPerCurve s) in
                 let endProgress := INR (segmentIndex + 1) / INR (segmentsPerCurve s) in
                 writeSegmentColors buf bufferIndex
                   (_getColorForProgress params startProgress)
                   (_getColorForProgress params endProgress)
             | None =>
                 let solidColor := _resolveSolidColor (color curveData) in
                 writeSegmentColors buf bufferIndex solidColor solidColor
             end)
          (seq 0 (segmentsPerCurve s)) (colors s) in
      set_needsColorUpdate true (set_colors colors s).

(** The variables the sampling loop of [setCurve] updates. *)
Record SampleLoop : Type := mkSampleLoop {
  sl_positions : list R;
  sl_lineDistances : list R;
  sl_distance : R
}.

Definition sampleStep (points : list Vec3) (vertexOffset : nat) (st : SampleLoop)
    (segmentIndex : nat) : SampleLoop :=
  let startPoint := aget V3.zero points segmentIndex in
  let endPoint := aget V3.zero points (segmentIndex + 1) in
  let vertexIndex := (vertexOffset + segmentIndex * verticesPerSegment)%nat in
  let bufferIndex := (vertexIndex * 3)%nat in
  let positions := sl_positions st in
  let positions := aset positions bufferIndex (vx startPoint) in
  let positions := aset positions (bufferIndex + 1) (vy startPoint) in
  let positions := aset positions (bufferIndex + 2) (vz startPoint) in
  let positions := aset positions (bufferIndex + 3) (vx endPoint) in
  let positions := aset positions (bufferIndex + 4) (vy endPoint) in
  let positions := aset positions (bufferIndex + 5) (vz endPoint) in
  let distance := sl_distance st in
  let lineDistances := aset (sl_lineDistances st) vertexIndex distance in
  let distance := distance + distanceTo startPoint endPoint in
  let lineDistances := aset lineDistances (vertexIndex + 1) distance in
  mkSampleLoop positions lineDistances distance.

(** Add or update a curve at a specific index. *)
Definition setCurve (curveIndex : Z) (controlPoints : list Vec3) (color : ColorInput)
    (metadata : option CurveMetadata) (s : t) : t :=
  if outOfRange curveIndex s then warn (IndexOutOfBounds curveIndex) s
  else if (List.length controlPoints <? 2)%nat then warn NeedTwoControlPoints s
  else
    let i := Z.to_nat curveIndex in
    (* store curve data *)
    let s := set_curveData
               (aset (curveData s) i (mkCurveData controlPoints color true metadata)) s in
    (* create the curve *)
    let points := catmullRomGetPoints controlPoints (segmentsPerCurve s) in
    let vertexOffset := (i * verticesPerCurve s)%nat in
    let st := fold_left (sampleStep points vertexOffset) (seq 0 (segmentsPerCurve s))
                (mkSampleLoop (positions s) (lineDistances s) 0) in
    let s := set_lineDistances (sl_lineDistances st) (set_positions (sl_positions st) s) in
    let s := _applyColorToCurve curveIndex s in
    (* mark for update *)
    let s := set_needsLineDistanceUpdate true (set_needsPositionUpdate true s) in
    (* update curve count if needed *)
    if (currentCurveCount s <=? curveIndex)%Z
    then updateDrawRange (set_currentCurveCount (curveIndex + 1)%Z s)
    else s.

(** Update the color of a specific curve; [metadata] is [None] when the
    argument is omitted. *)
Definition setCurveColor (curveIndex : Z) (color : ColorInput)
    (metadata : option (option CurveMetadata)) (s : t) : t :=
  if outOfRange curveIndex s then s
  else
    let i := Z.to_nat curveIndex in
    let cd := aget emptyCurveData (curveData s) i in
    if negb (visible cd) then s
    else
      let cd := mkCurveData (Curves.controlPoints cd) color (visible cd)
                  (match metadata with Some m => m | None => Curves.metadata cd end) in
      _applyColorToCurve curveIndex (set_curveData (aset (curveData s) i cd) s).

End WithThree.

(** Hide a specific curve: its positions and line distances are zeroed, the
    draw range is left as it is. *)
Definition hideCurve (curveIndex : Z) (s : t) : t :=
  if outOfRange curveIndex s then s
  else
    let i := Z.to_nat curveIndex in
    let cd := aget emptyCurveData (curveData s) i in
    let s := set_curveData
               (aset (curveData s) i
                  (mkCurveData (controlPoints cd) (color cd) false (metadata cd))) s in
    let vertexOffset := (i * verticesPerCurve s * 3)%nat in
    let totalVertices := (verticesPerCurve s * 3)%nat in
    let positions :=
      fold_left (fun buf k => aset buf (vertexOffset + k) 0)
                (seq 0 totalVertices) (positions s) in
    let distanceOffset := (i * verticesPerCurve s)%nat in
    let lineDistances :=
      fold_left (fun buf k => aset buf (distanceOffset + k) 0)
                (seq 0 (verticesPerCurve s)) (lineDistances s) in
    set_needsLineDistanceUpdate true
      (set_needsPositionUpdate true
         (set_lineDistances lineDistances (set_positions positions s))).

(** Apply batched updates to geometry attributes. *)
Definition applyUpdates (s : t) : t :=
  let s :=
    if needsPositionUpdate s
    then set_needsPositionUpdate false
           (set_uploads true (uploadColor s) (uploadLineDistance s) s)
    else s in
  let s :=
    if needsColorUpdate s
    then set_needsColorUpdate false
           (set_uploads (uploadPosition s) true (uploadLineDistance s) s)
    else s in
  if JSR.gtb (dashSize s) 0 && needsLineDistanceUpdate s then
    set_needsLineDistanceUpdate false
      (set_uploads (uploadPosition s) (uploadColor s) true s)
  else if JSR.eqb (dashSize s) 0 then set_needsLineDistanceUpdate false s
  else s.

(** Check if a curve exists and is visible. *)
Definition isCurveVisible (curveIndex : Z) (s : t) : bool :=
  if outOfRange curveIndex s then false
  else visible (aget emptyCurveData (curveData s) (Z.to_nat curveIndex)).

Definition getCurrentCurveCount (s : t) : Z := currentCurveCount s.

Definition updateMaterial (s : t) : t :=
  let s := set_material (createMaterial (dashSize s) (gapSize s)) s in
  if JSR.gtb (dashSize s) 0 then set_needsLineDistanceUpdate true s else s.

(** Update dash pattern for all curves. *)
Definition setDashPattern (dashSize gapSize : R) (s : t) : t :=
  let nextDash := Rmax 0 dashSize in
  let nextGap := Rmax 0 gapSize in
  if JSR.eqb (Curves.dashSize s) nextDash && JSR.eqb (Curves.gapSize s) nextGap then s
  else updateMaterial (set_dash nextDash nextGap s).

(** The calls of a caller, for stating properties of call sequences. *)
Inductive Call : Type :=
| CallSetCurve (curveIndex : Z) (controlPoints : list Vec3) (color : ColorInput)
               (metadata : option CurveMetadata)
| CallHideCurve (curveIndex : Z)
| CallSetVisibleCurveCount (count : Z).

Definition call {three : Three} (s : t) (c : Call) : t :=
  match c with
  | CallSetCurve i pts col md => setCurve i pts col md s
  | CallHideCurve i => hideCurve i s
  | CallSetVisibleCurveCount n => setVisibleCurveCount n s
  end.

Definition run {three : Three} (calls : list Call) (s : t) : t :=
  fold_left call calls s.

(** The buffer sizes fixed by the constructor. *)
Record sized (s : t) : Prop := mkSized {
  sized_positions : List.length (positions s) = (maxCurves s * verticesPerCurve s * 3)%nat;
  sized_colors : List.length (colors s) = (maxCurves s * verticesPerCurve s * 3)%nat;
  sized_lineDistances : List.length (lineDistances s) = (maxCurves s * verticesPerCurve s)%nat;
  sized_curveData : List.length (curveData s) = maxCurves s;
  sized_maxCurves : (0 < maxCurves s)%nat;
  sized_segments : (0 < segmentsPerCurve s)%nat
}.

(** The position of vertex [v] (counted over the whole buffer) and its line
    distance. *)
Definition bufferVertex (buf : list R) (v : nat) : Vec3 :=
  mkVector3 (aget 0 buf (v * 3)) (aget 0 buf (v * 3 + 1)) (aget 0 buf (v * 3 + 2)).
Definition vertexPosition (s : t) (v : nat) : Vec3 := bufferVertex (positions s) v.
Definition vertexDistance (s : t) (v : nat) : R := aget 0 (lineDistances s) v.

(** The colour of vertex [v]. *)
Definition bufferColor (buf : list R) (v : nat) : RGB :=
  mkRGB (aget 0 buf (v * 3)) (aget 0 buf (v * 3 + 1)) (aget 0 buf (v * 3 + 2)).
Definition vertexColor (s : t) (v : nat) : RGB := bufferColor (colors s) v.

(** The arc length of the first [k] segments of a sampled curve. *)
Fixpoint arcLength (points : list Vec3) (k : nat) : R :=
  match k with
  | O => 0
  | S j => arcLength points j
           + distanceTo (aget V3.zero points j) (aget V3.zero points (j + 1))
  end.

(** The draw range covers the first [currentCurveCount] curves and stays
    within the buffer. *)
Definition drawRangeInv (s : t) : Prop :=
  drawRange s = (0, currentCurveCount s * Z.of_nat (verticesPerCurve s))%Z
  /\ (currentCurveCount s <= Z.of_nat (maxCurves s))%Z.

End Curves.

(** ** Concrete scenes used by the examples below *)

Module Scenes.

Import PlanesShader.
Open Scope Q_scope.

Definition fourPoints : list (Vector3 Q) :=
  [mkVector3 0 0 0; mkVector3 1 0 0; mkVector3 2 0 0; mkVector3 3 0 0].

(** A renderer of one slot that has been running for 10000 seconds: its
    instance has phase 0.25 and was given the speed 0.1 at time 0; round-trip
    mode is off. *)
Definition longRunning : t :=
  update 10000
    (setAnimationSpeed 0 0.1
       (setCurveControlPoints 0 fourPoints
          (constructor (mkOptions (Some 1%nat) None None None) (fun _ => 0.25)))).

(** The drain scenario: a single active visible instance with speed 0.1 and
    phase 0, round-trip mode on, at global time 15. *)
Definition drain_scenario : t :=
  update 15
    (setActivePaneCount 1
       (setCurveControlPoints 0 fourPoints
          (constructor (mkOptions (Some 1%nat) None (Some true) None) (fun _ => 0)))).

(** The drain scenario after the disable request, at global time [T]: the
    instance is flagged, [returnModePreferred] is off, [returnModeEnabled] is
    still on. *)
Definition draining (T : Q) : t :=
  {| maxPanes := 1;
     baseSize := 100;
     returnModeEnabled := true;
     defaultElevation := 0;
     controlPointsPack1 := [0; 0; 0; 1];
     controlPointsPack2 := [0; 0; 2; 0];
     controlPointsPack3 := [0; 3; 0; 0];
     instanceColors := [1; 1; 1];
     instanceScales := [0];
     instanceElevations := [0];
     instanceUvTransforms := [0; 0; 1; 1];
     animationParams := [0; 0.1; 0; 1];
     activePanes := 1;
     atlasInfo := None;
     planesVisible := true;
     returnModePreferred := false;
     pendingReturnCompletion := [1%Z];
     uniforms := mkUniforms T 0 1 1;
     needsUpdate := mkNeedsUpdate true true true true true true true true;
     warnings := [] |}.

(** A flight created on slot 0 of a one-slot shader renderer, cruising at
    speed 0.1. *)
Definition cruising : Flight.World :=
  ({| Flight.animationTime := 0;
      Flight.mergedPanes := true;
      Flight.paneIndex := 0;
      Flight.animationSpeed := 0.1;
      Flight.animationSpeedTarget := 0.1;
      Flight.returnFlight := false;
      Flight._cachedCurve := true;
      Flight._isShaderBasedPanes := true |},
   setActivePaneCount 1
     (setCurveControlPoints 0 fourPoints
        (constructor (mkOptions (Some 1%nat) None None None) (fun _ => 0)))).

(** A flight on slot 0 of a shader renderer, at speed 0.1 and asked for 0.2. *)
Definition accelerating : Flight.t :=
  {| Flight.animationTime := 0;
     Flight.mergedPanes := true;
     Flight.paneIndex := 0;
     Flight.animationSpeed := 0.1;
     Flight.animationSpeedTarget := 0.2;
     Flight.returnFlight := false;
     Flight._cachedCurve := true;
     Flight._isShaderBasedPanes := true |}.

End Scenes.

(** The path generation scenario of the specification: from (37.6, -122.4)
    to (40.6, -73.8) on a globe of radius 3000. *)
Module PathScenes.

Import FlightUtils.
Open Scope R_scope.

Definition departure : Geolocation := mkGeolocation 37.6 (- 122.4).
Definition arrival : Geolocation := mkGeolocation 40.6 (- 73.8).
Definition options : ParabolicOptions := mkParabolicOptions 3000 18 20 30 220.

End PathScenes.

(** An implementation of the library interface for the examples whose
    outcome does not depend on the library: every curve is sampled at its
    first control point, every colour is a grey. *)
#[export] Instance sampleThree : Three := {
  catmullRomGetPoint := fun points _ => hd V3.zero points;
  catmullRomGetPoints := fun points divisions => repeat (hd V3.zero points) (S divisions);
  colorFromHex := fun _ => mkRGB 1 1 1;
  colorSetHSL := fun _ _ l => mkRGB l l l
}.

(** * Properties *)

(** ** Facts about the arithmetic *)

Module JSFacts.

Import JS.
Open Scope Q_scope.

Lemma ltb_lt a b : ltb a b = true <-> a < b.
Proof.
  unfold ltb. rewrite negb_true_iff, <- not_true_iff_false, Qle_bool_iff.
  split; [apply Qnot_le_lt | apply Qlt_not_le].
Qed.

Lemma ltb_ge a b : ltb a b = false <-> b <= a.
Proof. unfold ltb. rewrite negb_false_iff. apply Qle_bool_iff. Qed.

Lemma leb_le a b : leb a b = true <-> a <= b.
Proof. apply Qle_bool_iff. Qed.

Lemma leb_gt a b : leb a b = false <-> b < a.
Proof.
  unfold leb. rewrite <- not_true_iff_false, Qle_bool_iff.
  split; [apply Qnot_le_lt | apply Qlt_not_le].
Qed.

Lemma gtb_gt a b : gtb a b = true <-> b < a.
Proof. apply ltb_lt. Qed.

Lemma gtb_le a b : gtb a b = false <-> a <= b.
Proof. apply ltb_ge. Qed.

Lemma trunc_nonneg x : 0 <= x -> trunc x = Qfloor x.
Proof. intros H. unfold trunc. apply Qle_bool_iff in H. now rewrite H. Qed.

Lemma trunc_neg x : x < 0 -> trunc x = Qceiling x.
Proof.
  intros H. unfold trunc.
  destruct (Qle_bool 0 x) eqn:E; [|reflexivity].
  apply Qle_bool_iff in E. lra.
Qed.

(** For a positive divisor the remainder has the dividend's sign and is
    smaller than the divisor in absolute value. *)
Lemma rem_nonneg a b : 0 < b -> 0 <= a -> 0 <= rem a b /\ rem a b < b.
Proof.
  intros Hb Ha. unfold rem.
  assert (Hq : 0 <= a / b) by (apply Qle_shift_div_l; lra).
  rewrite (trunc_nonneg _ Hq).
  pose proof (Qfloor_le (a / b)) as Hlo.
  pose proof (Qlt_floor (a / b)) as Hhi.
  set (k := inject_Z (Qfloor (a / b))) in *.
  assert (Hk1 : inject_Z (Qfloor (a / b) + 1) == k + 1).
  { subst k. rewrite inject_Z_plus. reflexivity. }
  rewrite Hk1 in Hhi.
  assert (Hab : a == (a / b) * b) by (field; lra).
  split.
  - assert (k * b <= (a / b) * b) by (apply Qmult_le_compat_r; lra). lra.
  - assert ((a / b) * b < (k + 1) * b) by (apply Qmult_lt_compat_r; lra). lra.
Qed.

Lemma rem_neg a b : 0 < b -> a < 0 -> - b < rem a b /\ rem a b <= 0.
Proof.
  intros Hb Ha. unfold rem.
  assert (Hq : a / b < 0).
  { apply Qlt_shift_div_r; lra. }
  rewrite (trunc_neg _ Hq). unfold Qceiling.
  pose proof (Qfloor_le (- (a / b))) as Hlo.
  pose proof (Qlt_floor (- (a / b))) as Hhi.
  rewrite inject_Z_opp.
  set (k := inject_Z (Qfloor (- (a / b)))) in *.
  assert (Hk1 : inject_Z (Qfloor (- (a / b)) + 1) == k + 1).
  { subst k. rewrite inject_Z_plus. reflexivity. }
  rewrite Hk1 in Hhi.
  assert (Hab : - a == (- (a / b)) * b) by (field; lra).
  split.
  - assert ((- (a / b)) * b < (k + 1) * b) by (apply Qmult_lt_compat_r; lra). lra.
  - assert (k * b <= (- (a / b)) * b) by (apply Qmult_le_compat_r; lra). lra.
Qed.

(** [fround] on some values: 0.1 and 0.3 are rounded up, 0.25 is kept, an
    odd integer above [2 ^ 24] goes to its even neighbour, the sign is
    kept, and the result is not rounded again. *)
Lemma fround_examples :
  fround 0.1 == 13421773 # 134217728
  /\ fround 0.3 == 5033165 # 16777216
  /\ fround 0.25 == 0.25
  /\ fround 16777217 == 16777216
  /\ fround (- 0.3) == - fround 0.3
  /\ fround (fround 0.3) == fround 0.3.
Proof. repeat split; vm_compute; reflexivity. Qed.

End JSFacts.

(** ** Facts about typed arrays *)

Lemma aget_aset_eq {A} (d : A) a i v :
  (i < length a)%nat -> aget d (aset a i v) i = v.
Proof. intros H. unfold aget, aset. now rewrite list_lookup_insert_eq. Qed.

Lemma aget_aset_ne {A} (d : A) a i j v :
  i <> j -> aget d (aset a i v) j = aget d a j.
Proof. intros H. unfold aget, aset. now rewrite list_lookup_insert_ne. Qed.

Lemma aset_length {A} (a : list A) i v : length (aset a i v) = length a.
Proof. apply length_insert. Qed.


(** ** The instanced plane animator *)

Module PlanesShaderFacts.

Import JS JSFacts PlanesShader Scenes.
Open Scope Q_scope.

(** *** [_wrapProgress] is the remainder in [0, period) *)

Lemma wrapProgress_range v p :
  0 < p -> 0 <= _wrapProgress v p /\ _wrapProgress v p < p.
Proof.
  intros Hp. unfold _wrapProgress.
  destruct (leb p 0) eqn:E; [apply leb_le in E; lra|].
  destruct (Qlt_le_dec v 0) as [Hv|Hv].
  - destruct (rem_neg v p Hp Hv) as [H1 H2].
    destruct (ltb (rem v p) 0) eqn:E2.
    + apply ltb_lt in E2. lra.
    + apply ltb_ge in E2. lra.
  - destruct (rem_nonneg v p Hp Hv) as [H1 H2].
    destruct (ltb (rem v p) 0) eqn:E2.
    + apply ltb_lt in E2. lra.
    + lra.
Qed.

Lemma wrapProgress_congr v p :
  0 < p -> exists k : Z, _wrapProgress v p == v + inject_Z k * p.
Proof.
  intros Hp. unfold _wrapProgress.
  destruct (leb p 0) eqn:E; [apply leb_le in E; lra|].
  unfold rem.
  destruct (ltb _ 0).
  - exists (- trunc (v / p) + 1)%Z. rewrite inject_Z_plus, inject_Z_opp. ring.
  - exists (- trunc (v / p))%Z. rewrite inject_Z_opp. ring.
Qed.

Lemma multiple_small (k : Z) (p : Q) :
  0 < p -> - p < inject_Z k * p -> inject_Z k * p < p -> k = 0%Z.
Proof.
  intros Hp Hlo Hhi.
  assert (H1 : inject_Z k < 1).
  { destruct (Qlt_le_dec (inject_Z k) 1) as [H|H]; [exact H|].
    assert (1 * p <= inject_Z k * p) by (apply Qmult_le_compat_r; lra). lra. }
  assert (H2 : -1 < inject_Z k).
  { destruct (Qlt_le_dec (-1) (inject_Z k)) as [H|H]; [exact H|].
    assert (inject_Z k * p <= (-1) * p) by (apply Qmult_le_compat_r; lra). lra. }
  change 1 with (inject_Z 1) in H1. change (-1) with (inject_Z (-1)) in H2.
  rewrite <- Zlt_Qlt in H1, H2. lia.
Qed.

Lemma wrapProgress_unique v p x (k : Z) :
  0 < p -> 0 <= x -> x < p -> x == v + inject_Z k * p -> _wrapProgress v p == x.
Proof.
  intros Hp Hx0 Hx1 Hx.
  destruct (wrapProgress_range v p Hp) as [Hw0 Hw1].
  destruct (wrapProgress_congr v p Hp) as [k' Hk'].
  assert (Hd : x - _wrapProgress v p == inject_Z (k - k') * p).
  { unfold Zminus. rewrite inject_Z_plus, inject_Z_opp, Hx, Hk'. ring. }
  assert (Hz : (k - k')%Z = 0%Z).
  { apply (multiple_small _ p Hp); rewrite <- Hd; lra. }
  rewrite Hz in Hd. change (inject_Z 0) with 0 in Hd. lra.
Qed.

Lemma wrapProgress_id v p : 0 <= v -> v < p -> _wrapProgress v p == v.
Proof.
  intros H0 H1. apply (wrapProgress_unique v p v 0); try lra.
  change (inject_Z 0) with 0. ring.
Qed.

#[export] Instance wrapProgress_proper : Proper (Qeq ==> Qeq ==> Qeq) _wrapProgress.
Proof.
  intros v v' Hv p p' Hp'.
  destruct (Qlt_le_dec 0 p) as [Hp|Hp].
  - destruct (wrapProgress_range v p Hp) as [H0 H1].
    destruct (wrapProgress_congr v p Hp) as [k Hk].
    symmetry. apply (wrapProgress_unique v' p' _ k); try lra.
    rewrite Hk, Hv, Hp'. reflexivity.
  - unfold _wrapProgress.
    assert (E : leb p 0 = true) by (apply leb_le; exact Hp).
    assert (E' : leb p' 0 = true) by (apply leb_le; lra).
    rewrite E, E'. reflexivity.
Qed.

Lemma outOfRange_false index s :
  outOfRange index s = false ->
  (0 <= index)%Z /\ (Z.to_nat index < maxPanes s)%nat.
Proof.
  unfold outOfRange. rewrite orb_false_iff, Z.ltb_ge, Z.leb_gt. lia.
Qed.

Lemma outOfRange_true index s :
  outOfRange index s = true <-> (index < 0)%Z \/ (Z.of_nat (maxPanes s) <= index)%Z.
Proof. unfold outOfRange. rewrite orb_true_iff, Z.ltb_lt, Z.leb_le. tauto. Qed.

(** *** Changing the speed of an instance *)

Lemma wrapProgress_shift v p (k : Z) :
  0 < p -> _wrapProgress (v + inject_Z k * p) p == _wrapProgress v p.
Proof.
  intros Hp.
  destruct (wrapProgress_range v p Hp) as [H0 H1].
  destruct (wrapProgress_congr v p Hp) as [k' Hk'].
  apply (wrapProgress_unique _ p _ (k' - k)); try assumption.
  rewrite Hk'. unfold Zminus. rewrite inject_Z_plus, inject_Z_opp. ring.
Qed.

(** What [setAnimationSpeed] does to an in-range slot of a renderer with
    buffers of the constructed size: the array holds the rounded speed and
    the rounded phase, and the progress is displaced by what the two
    roundings add, the first one multiplied by the time. *)
Lemma setAnimationSpeed_displacement (s : t) (index : Z) (speed : Q) :
  wf s ->
  outOfRange index s = false ->
  let i := Z.to_nat index in
  let s' := setAnimationSpeed index speed s in
  wf s' /\ maxPanes s' = maxPanes s
  /\ speedOf s' i = fround speed
  /\ phaseOf s' i = fround (rederivedPhase s i speed)
  /\ progressOf s' i == progressAfterSpeedChange s i speed
  /\ (fround speed == speed ->
      fround (rederivedPhase s i speed) == rederivedPhase s i speed ->
      progressOf s' i == progressOf s i).
Proof.
  intros Hwf Hin i s'.
  destruct (outOfRange_false _ _ Hin) as [_ Hi]. fold i in Hi.
  pose proof (wf_params s Hwf) as Hlen.
  set (p := if returnModeEnabled s then 2 else 1).
  assert (Hp : 0 < p) by (unfold p; destruct (returnModeEnabled s); reflexivity).
  assert (Hspeed : speedOf s' i = fround speed).
  { unfold s', speedOf, setAnimationSpeed. rewrite Hin. cbn -[fround].
    rewrite aget_aset_ne by lia.
    apply aget_aset_eq. fold i. lia. }
  assert (Hphase : phaseOf s' i = fround (rederivedPhase s i speed)).
  { unfold s', phaseOf, setAnimationSpeed. rewrite Hin. cbn -[fround].
    rewrite aget_aset_eq by (rewrite aset_length; fold i; lia).
    reflexivity. }
  assert (Hprog : progressOf s' i == progressAfterSpeedChange s i speed).
  { unfold progressOf at 1. rewrite Hspeed, Hphase.
    replace (returnModeEnabled s') with (returnModeEnabled s)
      by (unfold s', setAnimationSpeed; rewrite Hin; reflexivity).
    replace (_getTimeUniform s') with (_getTimeUniform s)
      by (unfold s', setAnimationSpeed; rewrite Hin; reflexivity).
    unfold progressAfterSpeedChange. fold p.
    destruct (wrapProgress_congr (progressOf s i - _getTimeUniform s * speed) p Hp)
      as [k Hk].
    fold p in Hk. change (_wrapProgress _ p) with (rederivedPhase s i speed) in Hk.
    set (phi := rederivedPhase s i speed) in *.
    set (fphi := fround phi). set (fv := fround speed).
    set (T := _getTimeUniform s) in *. set (g := progressOf s i) in *.
    clearbody fphi fv phi T g.
    transitivity (_wrapProgress (g + T * (fv - speed) + (fphi - phi) + inject_Z k * p) p).
    - apply wrapProgress_proper; [|reflexivity]. rewrite Hk. ring.
    - now apply wrapProgress_shift. }
  split; [|split; [|split; [|split; [|split]]]]; try assumption.
  - unfold s', setAnimationSpeed. rewrite Hin.
    destruct Hwf as [W1 W2 W3]. split; cbn -[fround]; rewrite ?aset_length; assumption.
  - unfold s', setAnimationSpeed. now rewrite Hin.
  - intros Ev Ephi. rewrite Hprog. unfold progressAfterSpeedChange. fold p.
    destruct (wrapProgress_range
                (_getTimeUniform s * speedOf s i + phaseOf s i) p Hp) as [H0 H1].
    transitivity (_wrapProgress (progressOf s i) p).
    + apply wrapProgress_proper; [|reflexivity]. rewrite Ev, Ephi. ring.
    + apply wrapProgress_id; assumption.
Qed.

(** C2, a defect of the code.  [setAnimationSpeed] does not keep the
    progress within 1e-4 at every time.  In a renderer that has run for
    10000 seconds, whose instance has phase 0.25 and was given the speed 0.1
    at time 0, the call [setAnimationSpeed(0, 0.3)] puts 0.3 into the
    [Float32Array], which keeps 5033165/16777216, and derives the phase from
    0.3 itself: the progress, 2097277/8388608 before the call, is larger by
    125/1048576 (about 1.19e-4) after it, which is not within 1e-4. *)
Theorem setAnimationSpeed_drift :
  let s' := setAnimationSpeed 0 0.3 longRunning in
  _getTimeUniform longRunning == 10000
  /\ speedOf s' 0 == 5033165 # 16777216
  /\ phaseOf s' 0 == rederivedPhase longRunning 0 0.3
  /\ progressOf longRunning 0 == 2097277 # 8388608
  /\ progressOf s' 0 - progressOf longRunning 0 == 125 # 1048576
  /\ ~ Qabs (progressOf s' 0 - progressOf longRunning 0) < 0.0001.
Proof.
  cbn zeta. repeat split; try (vm_compute; reflexivity).
  vm_compute. discriminate.
Qed.

(** *** The reconciliation loop, one instance at a time *)

Lemma reconcileStep_cases T st i :
  let st' := reconcileStep T st i in
  (rlVisible st i = false /\ st' = st)
  \/ (rlVisible st i = true /\ rlPending st i = true
      /\ leb (rlCycle T st i) (1 - epsilon) = true
      /\ st' = mkReconcileLoop
                 (aset (rl_params st) (i * 4) (_wrapProgress (- T * rlSpeed st i) period))
                 (aset (rl_pending st) i 0%Z) (rl_anyPending st) true)
  \/ (rlVisible st i = true /\ rlPending st i = true
      /\ leb (rlCycle T st i) (1 - epsilon) = false
      /\ st' = mkReconcileLoop (rl_params st) (rl_pending st) true (rl_needsUpdate st))
  \/ (rlVisible st i = true /\ rlPending st i = false
      /\ gtb (rlCycle T st i) (1 + epsilon) = true
      /\ st' = mkReconcileLoop
                 (aset (rl_params st) (i * 4)
                    (_wrapProgress (rlPhase st i - 1) period))
                 (rl_pending st) (rl_anyPending st) true)
  \/ (rlVisible st i = true /\ rlPending st i = false
      /\ gtb (rlCycle T st i) (1 + epsilon) = false /\ st' = st).
Proof.
  unfold reconcileStep, rlVisible, rlPending, rlCycle, rlSpeed, rlPhase.
  destruct (ltb (aget 0 (rl_params st) (i * 4 + 3)) 0.5); cbn [negb]; [now left|].
  right.
  destruct (truthy (aget 0%Z (rl_pending st) i)).
  - destruct (leb _ (1 - epsilon)); [left | right; left]; auto.
  - right; right.
    destruct (gtb _ (1 + epsilon)); [left | right]; auto.
Qed.

Lemma reconcileStep_params_other T st i idx :
  idx <> (i * 4)%nat ->
  aget 0 (rl_params (reconcileStep T st i)) idx = aget 0 (rl_params st) idx.
Proof.
  intros Hne.
  destruct (reconcileStep_cases T st i)
    as [[_ ->]|[(_ & _ & _ & ->)|[(_ & _ & _ & ->)|[(_ & _ & _ & ->)|(_ & _ & _ & ->)]]]];
    cbn [rl_params]; try reflexivity; apply aget_aset_ne; congruence.
Qed.

Lemma reconcileStep_pending_other T st i j :
  j <> i ->
  aget 0%Z (rl_pending (reconcileStep T st i)) j = aget 0%Z (rl_pending st) j.
Proof.
  intros Hne.
  destruct (reconcileStep_cases T st i)
    as [[_ ->]|[(_ & _ & _ & ->)|[(_ & _ & _ & ->)|[(_ & _ & _ & ->)|(_ & _ & _ & ->)]]]];
    cbn [rl_pending]; try reflexivity; apply aget_aset_ne; congruence.
Qed.

Lemma reconcileStep_anyPending_mono T st i :
  rl_anyPending st = true -> rl_anyPending (reconcileStep T st i) = true.
Proof.
  intros H.
  destruct (reconcileStep_cases T st i)
    as [[_ ->]|[(_ & _ & _ & ->)|[(_ & _ & _ & ->)|[(_ & _ & _ & ->)|(_ & _ & _ & ->)]]]];
    cbn [rl_anyPending]; auto.
Qed.

Lemma reconcileStep_lengths T st i :
  length (rl_params (reconcileStep T st i)) = length (rl_params st)
  /\ length (rl_pending (reconcileStep T st i)) = length (rl_pending st).
Proof.
  destruct (reconcileStep_cases T st i)
    as [[_ ->]|[(_ & _ & _ & ->)|[(_ & _ & _ & ->)|[(_ & _ & _ & ->)|(_ & _ & _ & ->)]]]];
    cbn [rl_params rl_pending]; rewrite ?aset_length; auto.
Qed.

Lemma reconcileStep_slot_other T st i j :
  j <> i ->
  rlPhase (reconcileStep T st i) j = rlPhase st j
  /\ rlPending (reconcileStep T st i) j = rlPending st j.
Proof.
  intros Hne. unfold rlPhase, rlPending. split.
  - apply reconcileStep_params_other. lia.
  - f_equal. now apply reconcileStep_pending_other.
Qed.

Lemma reconcileStep_slot_fixed T st i j :
  rlSpeed (reconcileStep T st i) j = rlSpeed st j
  /\ rlVisible (reconcileStep T st i) j = rlVisible st j.
Proof.
  unfold rlSpeed, rlVisible.
  rewrite !reconcileStep_params_other by lia. auto.
Qed.

(** The same facts for a whole run of the loop. *)
Lemma reconcileFold_slot_fixed T l st j :
  let st' := fold_left (reconcileStep T) l st in
  rlSpeed st' j = rlSpeed st j /\ rlVisible st' j = rlVisible st j.
Proof.
  revert st. induction l as [|a l IH]; intros st; cbn; [auto|].
  destruct (IH (reconcileStep T st a)) as [-> ->].
  apply reconcileStep_slot_fixed.
Qed.

Lemma reconcileFold_slot_other T l st j :
  j ∉ l ->
  let st' := fold_left (reconcileStep T) l st in
  rlPhase st' j = rlPhase st j /\ rlPending st' j = rlPending st j.
Proof.
  revert st. induction l as [|a l IH]; intros st Hj; cbn; [auto|].
  apply not_elem_of_cons in Hj as [Hne Hj].
  destruct (IH (reconcileStep T st a)) as [-> ->]; [assumption|].
  now apply reconcileStep_slot_other.
Qed.

Lemma reconcileFold_anyPending_mono T l st :
  rl_anyPending st = true ->
  rl_anyPending (fold_left (reconcileStep T) l st) = true.
Proof.
  revert st. induction l as [|a l IH]; intros st H; cbn; [auto|].
  apply IH. now apply reconcileStep_anyPending_mono.
Qed.

Lemma reconcileFold_lengths T l st :
  let st' := fold_left (reconcileStep T) l st in
  length (rl_params st') = length (rl_params st)
  /\ length (rl_pending st') = length (rl_pending st).
Proof.
  revert st. induction l as [|a l IH]; intros st; cbn; [auto|].
  destruct (IH (reconcileStep T st a)) as [-> ->].
  apply reconcileStep_lengths.
Qed.

Lemma rlCycle_ext T st st' i :
  rlSpeed st' i = rlSpeed st i -> rlPhase st' i = rlPhase st i ->
  rlCycle T st' i = rlCycle T st i.
Proof. unfold rlCycle. now intros -> ->. Qed.

Lemma rlPending_true_lt st i : rlPending st i = true -> (i < length (rl_pending st))%nat.
Proof.
  unfold rlPending, aget. intros H.
  destruct (rl_pending st !! i) eqn:E.
  - now apply lookup_lt_Some in E.
  - discriminate.
Qed.

(** An instance the loop visits that is visible and still flagged afterwards
    has raised [anyPending]. *)
Lemma reconcileFold_still_pending T l st i :
  NoDup l -> i ∈ l ->
  let st' := fold_left (reconcileStep T) l st in
  rlVisible st i = true -> rlPending st' i = true -> rl_anyPending st' = true.
Proof.
  revert st. induction l as [|a l IH]; intros st Hnd Hin; cbn; [now apply elem_of_nil in Hin|].
  intros Hvis Hpend.
  apply NoDup_cons in Hnd as [Ha Hnd].
  destruct (Nat.eq_dec i a) as [->|Hne].
  - clear IH Hin.
    destruct (reconcileFold_slot_other T l (reconcileStep T st a) a Ha) as [_ Hp].
    rewrite Hp in Hpend.
    apply reconcileFold_anyPending_mono.
    destruct (reconcileStep_cases T st a)
      as [[Hv _]|[(_ & Hp0 & _ & E)|[(_ & _ & _ & E)|[(_ & Hp0 & _ & E)|(_ & Hp0 & _ & E)]]]].
    + congruence.
    + exfalso. rewrite E in Hpend. unfold rlPending in Hpend. cbn [rl_pending] in Hpend.
      rewrite aget_aset_eq in Hpend by (now apply rlPending_true_lt). discriminate.
    + now rewrite E.
    + exfalso. rewrite E in Hpend. unfold rlPending in *. cbn [rl_pending] in Hpend. congruence.
    + exfalso. rewrite E in Hpend. congruence.
  - apply IH; auto.
    + apply elem_of_cons in Hin as [?|?]; [congruence|auto].
    + destruct (reconcileStep_slot_fixed T st a i) as [_ ->]. exact Hvis.
Qed.

(** A flag the loop clears belonged to a visited, visible instance whose
    cycle was back in the forward leg; its phase is restarted. *)
Lemma reconcileFold_cleared T l st i :
  NoDup l ->
  (forall j, j ∈ l -> (j * 4 < length (rl_params st))%nat) ->
  let st' := fold_left (reconcileStep T) l st in
  rlPending st i = true -> rlPending st' i = false ->
  i ∈ l /\ rlVisible st i = true
  /\ rlCycle T st i <= 1 - epsilon
  /\ rlPhase st' i = _wrapProgress (- T * rlSpeed st i) period.
Proof.
  revert st. induction l as [|a l IH]; intros st Hnd Hlen; cbn; intros Hp Hp'.
  { congruence. }
  apply NoDup_cons in Hnd as [Ha Hnd].
  destruct (Nat.eq_dec i a) as [->|Hne].
  - clear IH.
    destruct (reconcileFold_slot_other T l (reconcileStep T st a) a Ha) as [Hph Hpd].
    rewrite Hpd in Hp'. rewrite Hph.
    destruct (reconcileStep_cases T st a)
      as [[Hv E]|[(Hv & Hp0 & Hc & E)|[(_ & _ & _ & E)|[(_ & Hp0 & _ & E)|(_ & Hp0 & _ & E)]]]].
    + rewrite E in Hp'. congruence.
    + repeat split; auto.
      * apply elem_of_cons. now left.
      * now apply leb_le.
      * rewrite E. unfold rlPhase. cbn [rl_params].
        apply aget_aset_eq. apply Hlen. apply elem_of_cons. now left.
    + rewrite E in Hp'. unfold rlPending in *. cbn [rl_pending] in Hp'. congruence.
    + congruence.
    + congruence.
  - destruct (reconcileStep_slot_other T st a i Hne) as [Hph Hpd].
    destruct (reconcileStep_slot_fixed T st a i) as [Hsp Hvi].
    destruct (IH (reconcileStep T st a)) as (Hin & Hv & Hc & Hphase); auto.
    + intros j Hj. destruct (reconcileStep_lengths T st a) as [-> _]. apply Hlen.
      apply elem_of_cons. now right.
    + congruence.
    + rewrite Hvi in Hv. rewrite (rlCycle_ext T st _ i Hsp Hph) in Hc.
      rewrite Hsp in Hphase. repeat split; auto. apply elem_of_cons. now right.
Qed.

(** A flagged instance inside its return leg keeps its phase. *)
Lemma reconcileFold_not_rewound T l st i :
  NoDup l ->
  let st' := fold_left (reconcileStep T) l st in
  rlPending st i = true -> 1 < rlCycle T st i ->
  rlPhase st' i = rlPhase st i.
Proof.
  revert st. induction l as [|a l IH]; intros st Hnd; cbn; intros Hp Hc; [reflexivity|].
  apply NoDup_cons in Hnd as [Ha Hnd].
  destruct (Nat.eq_dec i a) as [->|Hne].
  - clear IH.
    destruct (reconcileFold_slot_other T l (reconcileStep T st a) a Ha) as [-> _].
    destruct (reconcileStep_cases T st a)
      as [[Hv E]|[(Hv & Hp0 & Hc' & E)|[(_ & _ & _ & E)|[(_ & Hp0 & _ & E)|(_ & Hp0 & _ & E)]]]];
      try (rewrite E; reflexivity); try congruence.
    apply leb_le in Hc'. unfold epsilon in Hc'. lra.
  - destruct (reconcileStep_slot_other T st a i Hne) as [Hph Hpd].
    destruct (reconcileStep_slot_fixed T st a i) as [Hsp Hvi].
    rewrite IH; auto.
    + congruence.
    + now rewrite (rlCycle_ext T st _ i Hsp Hph).
Qed.

Lemma reconcileFold_pending_mono T l st i :
  let st' := fold_left (reconcileStep T) l st in
  rlPending st' i = true -> rlPending st i = true.
Proof.
  revert st. induction l as [|a l IH]; intros st; cbn; [auto|].
  intros H. apply IH in H.
  destruct (reconcileStep_cases T st a)
    as [[_ E]|[(_ & Hp0 & _ & E)|[(_ & _ & _ & E)|[(_ & _ & _ & E)|(_ & _ & _ & E)]]]];
    rewrite E in H; try exact H.
  unfold rlPending in *. cbn [rl_pending] in H.
  destruct (Nat.eq_dec i a) as [->|Hne]; [exact Hp0|].
  now rewrite aget_aset_ne in H by congruence.
Qed.

(** *** One frame *)


Lemma update_cases dt s :
  let s' := update dt s in
  (returnModePreferred s = true
   /\ animationParams s' = animationParams s
   /\ pendingReturnCompletion s' = pendingReturnCompletion s
   /\ returnModeEnabled s' = true)
  \/ (returnModePreferred s = false /\ returnModeEnabled s = false
      /\ s' = advanced dt s)
  \/ (returnModePreferred s = false /\ returnModeEnabled s = true
      /\ animationParams s' = rl_params (reconcileLoop (advanced dt s))
      /\ pendingReturnCompletion s' = rl_pending (reconcileLoop (advanced dt s))
      /\ returnModeEnabled s' = rl_anyPending (reconcileLoop (advanced dt s))).
Proof.
  unfold update. fold (advanced dt s). unfold _reconcileReturnMode.
  change (returnModePreferred (advanced dt s)) with (returnModePreferred s).
  change (returnModeEnabled (advanced dt s)) with (returnModeEnabled s).
  destruct (returnModePreferred s) eqn:Hp.
  - left. destruct (returnModeEnabled s) eqn:He; cbn; auto.
  - right. destruct (returnModeEnabled s) eqn:He; cbn [negb].
    + right. repeat split.
      * destruct (rl_needsUpdate _), (rl_anyPending _); reflexivity.
      * destruct (rl_needsUpdate _), (rl_anyPending _); reflexivity.
      * destruct (rl_needsUpdate _), (rl_anyPending _); cbn; congruence.
    + left. auto.
Qed.

Lemma update_frame dt s :
  maxPanes (update dt s) = maxPanes s
  /\ activePanes (update dt s) = activePanes s
  /\ returnModePreferred (update dt s) = returnModePreferred s
  /\ _getTimeUniform (update dt s) = _getTimeUniform s + dt.
Proof.
  unfold update. fold (advanced dt s). unfold _reconcileReturnMode.
  destruct (returnModePreferred (advanced dt s)) eqn:Hp.
  - destruct (returnModeEnabled (advanced dt s)); cbn; auto.
  - destruct (returnModeEnabled (advanced dt s)); cbn [negb]; [|cbn; auto].
    destruct (rl_needsUpdate _), (rl_anyPending _); cbn; auto.
Qed.

Lemma elem_of_activeIndices s i : i ∈ activeIndices s <-> activeOf s i = true.
Proof.
  unfold activeIndices, activeOf. rewrite elem_of_seq, Z.ltb_lt. lia.
Qed.

Lemma NoDup_activeIndices s : NoDup (activeIndices s).
Proof. apply NoDup_seq. Qed.

Lemma visibleOf_update dt s i : visibleOf (update dt s) i = visibleOf s i.
Proof.
  destruct (update_cases dt s) as [(_ & E & _)|[(_ & _ & E)|(_ & _ & E & _)]];
    unfold visibleOf; rewrite E; try reflexivity.
  apply (reconcileFold_slot_fixed (_getTimeUniform (advanced dt s))
           (activeIndices (advanced dt s)) (loopStart (advanced dt s)) i).
Qed.

Lemma speedOf_update dt s i : speedOf (update dt s) i = speedOf s i.
Proof.
  destruct (update_cases dt s) as [(_ & E & _)|[(_ & _ & E)|(_ & _ & E & _)]];
    unfold speedOf; rewrite E; try reflexivity.
  apply (reconcileFold_slot_fixed (_getTimeUniform (advanced dt s))
           (activeIndices (advanced dt s)) (loopStart (advanced dt s)) i).
Qed.

Lemma activeOf_update dt s i : activeOf (update dt s) i = activeOf s i.
Proof.
  unfold activeOf. destruct (update_frame dt s) as (_ & -> & _). reflexivity.
Qed.

(** A frame never sets a flag. *)
Lemma pendingOf_update_mono dt s i :
  pendingOf (update dt s) i = true -> pendingOf s i = true.
Proof.
  destruct (update_cases dt s) as [(_ & _ & E & _)|[(_ & _ & E)|(_ & _ & _ & E & _)]];
    unfold pendingOf; rewrite E; try (intros H; exact H).
  apply (reconcileFold_pending_mono (_getTimeUniform (advanced dt s))
           (activeIndices (advanced dt s)) (loopStart (advanced dt s)) i).
Qed.

(** The flag [returnModeEnabled] survives a frame after which an active,
    visible instance is still flagged. *)
Lemma enabled_update dt s i :
  returnModeEnabled s = true ->
  activeOf s i = true -> visibleOf s i = true ->
  pendingOf (update dt s) i = true ->
  returnModeEnabled (update dt s) = true.
Proof.
  intros He Ha Hv.
  destruct (update_cases dt s)
    as [(_ & _ & _ & E)|[(_ & He' & _)|(_ & _ & _ & Ep & Ee)]].
  - intros _. exact E.
  - congruence.
  - unfold pendingOf. rewrite Ep, Ee. intros Hp.
    apply (reconcileFold_still_pending (_getTimeUniform (advanced dt s))
             (activeIndices (advanced dt s)) (loopStart (advanced dt s)) i).
    + apply NoDup_activeIndices.
    + apply elem_of_activeIndices. exact Ha.
    + exact Hv.
    + exact Hp.
Qed.

Lemma updates_cons dt dts s : updates (dt :: dts) s = updates dts (update dt s).
Proof. reflexivity. Qed.

Lemma updates_frame dts s i :
  visibleOf (updates dts s) i = visibleOf s i
  /\ activeOf (updates dts s) i = activeOf s i
  /\ (pendingOf (updates dts s) i = true -> pendingOf s i = true).
Proof.
  revert s. induction dts as [|dt dts IH]; intros s; [cbn; auto|].
  rewrite updates_cons.
  destruct (IH (update dt s)) as (-> & -> & H).
  rewrite visibleOf_update, activeOf_update.
  repeat split; auto. intros Hp. now apply pendingOf_update_mono with dt, H.
Qed.

Lemma enabled_updates dts s i :
  returnModeEnabled s = true ->
  activeOf (updates dts s) i = true -> visibleOf (updates dts s) i = true ->
  pendingOf (updates dts s) i = true ->
  returnModeEnabled (updates dts s) = true.
Proof.
  revert s. induction dts as [|dt dts IH]; intros s He; [cbn; auto|].
  rewrite updates_cons.
  intros Ha Hv Hp. apply IH; auto.
  destruct (updates_frame dts (update dt s) i) as (Ev & Ea & Hm).
  apply (enabled_update dt s i He).
  - rewrite <- (activeOf_update dt). congruence.
  - rewrite <- (visibleOf_update dt). congruence.
  - auto.
Qed.

Lemma cleared_update dt s i :
  wf s ->
  pendingOf s i = true -> pendingOf (update dt s) i = false ->
  activeOf s i = true /\ visibleOf s i = true
  /\ cycleOf (advanced dt s) i <= 1 - epsilon
  /\ phaseOf (update dt s) i
     = _wrapProgress (- (_getTimeUniform s + dt) * speedOf s i) period.
Proof.
  intros Hwf.
  destruct (update_cases dt s)
    as [(_ & _ & E & _)|[(_ & _ & E)|(_ & _ & Ea & Ep & _)]].
  - unfold pendingOf. rewrite E. congruence.
  - unfold pendingOf. rewrite E. cbn. congruence.
  - unfold pendingOf, phaseOf. rewrite Ep, Ea. intros Hp Hp'.
    destruct (reconcileFold_cleared (_getTimeUniform (advanced dt s))
                (activeIndices (advanced dt s)) (loopStart (advanced dt s)) i)
      as (Hin & Hv & Hc & Hph); auto.
    + apply NoDup_activeIndices.
    + intros j Hj. apply elem_of_activeIndices in Hj.
      unfold activeOf in Hj. apply Z.ltb_lt in Hj. cbn in Hj |- *.
      rewrite (wf_params s Hwf). pose proof (wf_active s Hwf). lia.
    + apply elem_of_activeIndices in Hin. auto.
Qed.

Lemma not_rewound_update dt s i :
  pendingOf s i = true -> 1 < cycleOf (advanced dt s) i ->
  phaseOf (update dt s) i = phaseOf s i.
Proof.
  destruct (update_cases dt s)
    as [(_ & E & _)|[(_ & _ & E)|(_ & _ & Ea & _)]].
  - unfold phaseOf. now rewrite E.
  - unfold phaseOf. now rewrite E.
  - unfold phaseOf. rewrite Ea. intros Hp Hc.
    apply (reconcileFold_not_rewound (_getTimeUniform (advanced dt s))
             (activeIndices (advanced dt s)) (loopStart (advanced dt s)) i); auto.
    apply NoDup_activeIndices.
Qed.

(** *** Instances the loop skips *)

Lemma reconcileFold_slot_hidden T l st j :
  rlVisible st j = false ->
  rlPhase (fold_left (reconcileStep T) l st) j = rlPhase st j
  /\ rlPending (fold_left (reconcileStep T) l st) j = rlPending st j.
Proof.
  revert st. induction l as [|a l IH]; intros st Hv; cbn; [auto|].
  destruct (IH (reconcileStep T st a)) as [-> ->].
  { destruct (reconcileStep_slot_fixed T st a j) as [_ ->]. exact Hv. }
  destruct (Nat.eq_dec j a) as [->|Hne].
  - destruct (reconcileStep_cases T st a)
      as [[_ ->]|[(Hv' & _)|[(Hv' & _)|[(Hv' & _)|(Hv' & _)]]]];
      [auto|congruence..].
  - now apply reconcileStep_slot_other.
Qed.

(** When the loop ends with [anyPending] raised, a visible instance it
    visited is still flagged. *)
Lemma reconcileFold_anyPending_source T l st :
  NoDup l ->
  rl_anyPending (fold_left (reconcileStep T) l st) = true ->
  rl_anyPending st = true
  \/ exists i, i ∈ l /\ rlVisible st i = true
               /\ rlPending (fold_left (reconcileStep T) l st) i = true.
Proof.
  revert st. induction l as [|a l IH]; intros st Hnd; cbn; [auto|].
  apply NoDup_cons in Hnd as [Ha Hnd]. intros H.
  destruct (IH (reconcileStep T st a) Hnd H) as [Hany|(i & Hi & Hv & Hp)].
  - destruct (reconcileStep_cases T st a)
      as [[_ E]|[(_ & _ & _ & E)|[(Hv & Hp & _ & E)|[(_ & _ & _ & E)|(_ & _ & _ & E)]]]];
      try (rewrite E in Hany; left; exact Hany).
    right. exists a. split; [apply elem_of_cons; now left|]. split; [exact Hv|].
    destruct (reconcileFold_slot_other T l (reconcileStep T st a) a Ha) as [_ ->].
    rewrite E. exact Hp.
  - right. exists i. split; [apply elem_of_cons; now right|]. split; [|exact Hp].
    destruct (reconcileStep_slot_fixed T st a i) as [_ <-]. exact Hv.
Qed.

(** A frame of a renderer that no longer prefers round-trip mode drops
    [returnModeEnabled] as soon as no active visible instance is flagged
    after it: the flags of hidden and of inactive instances do not count. *)
Lemma mode_dropped_update dt s :
  returnModePreferred s = false ->
  (forall i, activeOf s i = true -> visibleOf s i = true ->
             pendingOf (update dt s) i = false) ->
  returnModeEnabled (update dt s) = false.
Proof.
  intros Hpref Hnone.
  destruct (update_cases dt s)
    as [(Hp & _)|[(_ & He & E)|(_ & _ & _ & Ep & Ee)]].
  - congruence.
  - rewrite E. exact He.
  - rewrite Ee. destruct (rl_anyPending (reconcileLoop (advanced dt s))) eqn:Hany;
      [|reflexivity].
    destruct (reconcileFold_anyPending_source (_getTimeUniform (advanced dt s))
                (activeIndices (advanced dt s)) (loopStart (advanced dt s))
                (NoDup_activeIndices _) Hany) as [Habs|(i & Hi & Hv & Hp)].
    + discriminate.
    + apply elem_of_activeIndices in Hi.
      assert (Hfalse : pendingOf (update dt s) i = false) by (apply Hnone; assumption).
      unfold pendingOf in Hfalse. rewrite Ep in Hfalse.
      change (rlPending (reconcileLoop (advanced dt s)) i = true) in Hp.
      unfold rlPending in Hp. congruence.
Qed.

(** A frame changes neither the flag nor the phase of an instance that is
    hidden or not active. *)
Lemma skipped_update dt s i :
  activeOf s i = false \/ visibleOf s i = false ->
  pendingOf (update dt s) i = pendingOf s i /\ phaseOf (update dt s) i = phaseOf s i.
Proof.
  intros Hskip.
  destruct (update_cases dt s)
    as [(_ & Ea & Ep & _)|[(_ & _ & E)|(_ & _ & Ea & Ep & _)]].
  - unfold pendingOf, phaseOf. now rewrite Ea, Ep.
  - rewrite E. split; reflexivity.
  - unfold pendingOf, phaseOf. rewrite Ea, Ep.
    destruct Hskip as [Hina|Hhid].
    + assert (Hnot : i ∉ activeIndices (advanced dt s)).
      { rewrite elem_of_activeIndices. change (activeOf (advanced dt s) i) with (activeOf s i).
        congruence. }
      destruct (reconcileFold_slot_other (_getTimeUniform (advanced dt s))
                  (activeIndices (advanced dt s)) (loopStart (advanced dt s)) i Hnot)
        as [H1 H2].
      split; [exact H2|exact H1].
    + destruct (reconcileFold_slot_hidden (_getTimeUniform (advanced dt s))
                  (activeIndices (advanced dt s)) (loopStart (advanced dt s)) i Hhid)
        as [H1 H2].
      split; [exact H2|exact H1].
Qed.

(** C1, as amended.  Return-mode drain invariant: starting from a renderer
    with buffers of the constructed size and [returnModeEnabled] set,
    (1) after any number of frames, [returnModeEnabled] is still set whenever
        some active and visible instance still has its pending flag set;
    (2) a frame clears the pending flag of an instance only if that instance
        is active and visible and its cycle, at the new time, has fallen back
        into [0, 1), being at most 1 - 1e-4; its phase is then restarted
        to [(- time * speed) mod 2];
    (3) a frame leaves the phase of an instance untouched when its pending
        flag is set and its cycle is inside the return leg (cycle > 1);
    (4) the flags of hidden or inactive instances do not hold the mode: once
        round-trip mode is no longer preferred, a frame after which no
        active visible instance is flagged drops [returnModeEnabled];
    (5) the reconciliation skips hidden and inactive instances: a frame
        changes neither their flag nor their phase. *)
Theorem return_mode_drain (s : t) :
  wf s ->
  returnModeEnabled s = true ->
  (forall dts i,
      activeOf (updates dts s) i = true ->
      visibleOf (updates dts s) i = true ->
      pendingOf (updates dts s) i = true ->
      returnModeEnabled (updates dts s) = true)
  /\ (forall dt i,
         pendingOf s i = true -> pendingOf (update dt s) i = false ->
         activeOf s i = true /\ visibleOf s i = true
         /\ 0 <= cycleOf (advanced dt s) i
         /\ cycleOf (advanced dt s) i <= 1 - epsilon
         /\ phaseOf (update dt s) i
            = _wrapProgress (- (_getTimeUniform s + dt) * speedOf s i) period)
  /\ (forall dt i,
         pendingOf s i = true -> 1 < cycleOf (advanced dt s) i ->
         phaseOf (update dt s) i = phaseOf s i)
  /\ (forall dt,
         returnModePreferred s = false ->
         (forall i, activeOf s i = true -> visibleOf s i = true ->
                    pendingOf (update dt s) i = false) ->
         returnModeEnabled (update dt s) = false)
  /\ (forall dt i,
         activeOf s i = false \/ visibleOf s i = false ->
         pendingOf (update dt s) i = pendingOf s i
         /\ phaseOf (update dt s) i = phaseOf s i).
Proof.
  intros Hwf He. split; [|split; [|split; [|split]]].
  - intros dts i. now apply enabled_updates.
  - intros dt i Hp Hp'.
    destruct (cleared_update dt s i Hwf Hp Hp') as (Ha & Hv & Hc & Hph).
    repeat split; auto.
    apply wrapProgress_range. reflexivity.
  - intros dt i. apply not_rewound_update.
  - intros dt. apply mode_dropped_update.
  - intros dt i. apply skipped_update.
Qed.

Lemma drain_start_wf : wf (setReturnMode false drain_scenario).
Proof. split; vm_compute; congruence. Qed.

Lemma return_mode_drain_witness :
  returnModeEnabled (updates [1; 2] (setReturnMode false drain_scenario)) = true.
Proof.
  apply (proj1 (return_mode_drain (setReturnMode false drain_scenario)
                  drain_start_wf eq_refl) [1; 2] 0%nat);
    reflexivity.
Defined.

(** C1, as stated, fails: the single instance is flagged by the disable
    request and then hidden; the next frame drops [returnModeEnabled] although
    the instance's pending flag is still set. *)
Lemma return_mode_drain_counterexample :
  let s := hidePane 0 (setReturnMode false drain_scenario) in
  reachable s
  /\ pendingOf s 0 = true /\ returnModeEnabled s = true
  /\ returnModeEnabled (update 1 s) = false
  /\ pendingOf (update 1 s) 0 = true.
Proof.
  split; [|repeat split; reflexivity].
  exists (mkOptions (Some 1%nat) None (Some true) None), (fun _ => 0),
    [CallSetCurveControlPoints 0 fourPoints; CallSetActivePaneCount 1;
     CallUpdate 15; CallSetReturnMode false; CallHidePane 0].
  vm_compute. reflexivity.
Qed.

(** *** The concrete drain trace *)

Lemma draining_start : setReturnMode false drain_scenario = draining 15.
Proof. vm_compute. reflexivity. Qed.

Lemma draining_cycle T : 0 <= T -> T < 20 -> cycleOf (draining T) 0 == T * 0.1.
Proof.
  intros H0 H1. unfold cycleOf. 
  change (_getTimeUniform (draining T)) with T.
  change (speedOf (draining T) 0) with 0.1.
  change (phaseOf (draining T) 0) with 0.
  rewrite wrapProgress_id; unfold period; lra.
Qed.

Lemma update_draining T dt :
  15 <= T + dt -> T + dt < 20 -> update dt (draining T) = draining (T + dt).
Proof.
  intros H0 H1.
  unfold update. fold (advanced dt (draining T)).
  unfold _reconcileReturnMode.
  change (returnModePreferred (advanced dt (draining T))) with false.
  change (returnModeEnabled (advanced dt (draining T))) with true.
  cbn [negb].
  unfold reconcileLoop.
  change (activeIndices (advanced dt (draining T))) with [0%nat].
  cbn [fold_left].
  pose proof (draining_cycle (T + dt)) as Hc.
  destruct (reconcileStep_cases (_getTimeUniform (advanced dt (draining T)))
             (loopStart (advanced dt (draining T))) 0)
    as [[Hv _]|[(_ & _ & Hl & _)|[(_ & _ & _ & E)|[(_ & Hp & _)|(_ & Hp & _)]]]].
  - discriminate Hv.
  - exfalso. apply leb_le in Hl. 
    change (rlCycle _ _ _) with (cycleOf (draining (T + dt)) 0) in Hl.
    rewrite Hc in Hl by lra. unfold epsilon in Hl. lra.
  - change (mkReconcileLoop (animationParams (advanced dt (draining T)))
             (pendingReturnCompletion (advanced dt (draining T))) false false)
      with (loopStart (advanced dt (draining T))).
    rewrite E. reflexivity.
  - discriminate Hp.
  - discriminate Hp.
Qed.

Lemma finish_draining T dt :
  20 <= T + dt -> T + dt <= 29.999 ->
  let s' := update dt (draining T) in
  pendingOf s' 0 = false /\ returnModeEnabled s' = false
  /\ phaseOf s' 0 = _wrapProgress (- _getTimeUniform s' * speedOf s' 0) 2.
Proof.
  intros H0 H1.
  assert (Hc : _wrapProgress ((T + dt) * 0.1 + 0) period == (T + dt) * 0.1 - 2).
  { apply (wrapProgress_unique _ _ _ (-1)); unfold period; try lra.
    change (inject_Z (-1)) with (-1). ring. }
  unfold update. fold (advanced dt (draining T)).
  unfold _reconcileReturnMode.
  change (returnModePreferred (advanced dt (draining T))) with false.
  change (returnModeEnabled (advanced dt (draining T))) with true.
  cbn [negb].
  unfold reconcileLoop.
  change (activeIndices (advanced dt (draining T))) with [0%nat].
  cbn [fold_left].
  change (mkReconcileLoop (animationParams (advanced dt (draining T)))
            (pendingReturnCompletion (advanced dt (draining T))) false false)
    with (loopStart (advanced dt (draining T))).
  destruct (reconcileStep_cases (_getTimeUniform (advanced dt (draining T)))
             (loopStart (advanced dt (draining T))) 0)
    as [[Hv _]|[(_ & _ & _ & E)|[(_ & _ & Hl & _)|[(_ & Hp & _)|(_ & Hp & _)]]]].
  - discriminate Hv.
  - rewrite E. cbn. repeat split; reflexivity.
  - exfalso. apply leb_gt in Hl.
    change (rlCycle _ _ _) with (_wrapProgress ((T + dt) * 0.1 + 0) period) in Hl.
    rewrite Hc in Hl. unfold epsilon in Hl. lra.
  - discriminate Hp.
  - discriminate Hp.
Qed.

Lemma time_updates dts s :
  _getTimeUniform (updates dts s) = fold_left Qplus dts (_getTimeUniform s).
Proof.
  revert s. induction dts as [|dt dts IH]; intros s; [reflexivity|].
  rewrite updates_cons, IH. cbn [fold_left].
  now destruct (update_frame dt s) as (_ & _ & _ & ->).
Qed.

Lemma fold_Qplus_le dts T :
  Forall (fun dt => 0 <= dt) dts -> T <= fold_left Qplus dts T.
Proof.
  intros H. revert T. induction H as [|dt dts Hdt _ IH]; intros T; cbn; [lra|].
  specialize (IH (T + dt)). lra.
Qed.

Lemma updates_draining dts T :
  Forall (fun dt => 0 <= dt) dts ->
  15 <= T -> fold_left Qplus dts T < 20 ->
  updates dts (draining T) = draining (fold_left Qplus dts T).
Proof.
  intros H. revert T. induction H as [|dt dts Hdt Hdts IH]; intros T HT Hend.
  - reflexivity.
  - rewrite updates_cons. cbn [fold_left] in Hend |- *.
    pose proof (fold_Qplus_le dts (T + dt) Hdts).
    rewrite update_draining by lra.
    apply IH; [lra | exact Hend].
Qed.

(** C3.  The concrete drain trace: a single active visible instance with
    speed 0.1 and phase 0 in round-trip mode, at global time 15, is at cycle
    1.5; the disable request sets its pending flag and leaves
    [returnModeEnabled] set; as long as the successive frames keep the global
    time below 20 the flag stays set and [returnModeEnabled] stays true; the
    frame that takes the global time to 20 (or past it, while the cycle is at
    most 1 - 1e-4) clears the flag, drops [returnModeEnabled], and restarts
    the phase to [(- time * speed) mod 2]. *)
Theorem return_mode_drain_trace :
  let s0 := drain_scenario in
  let s1 := setReturnMode false s0 in
  (activePanes s0 = 1%Z /\ visibleOf s0 0 = true
   /\ speedOf s0 0 == 0.1 /\ phaseOf s0 0 == 0
   /\ returnModeEnabled s0 = true
   /\ _getTimeUniform s0 == 15 /\ cycleOf s0 0 == 1.5)
  /\ (pendingOf s1 0 = true /\ returnModeEnabled s1 = true)
  /\ (forall dts,
         Forall (fun dt => 0 <= dt) dts ->
         _getTimeUniform (updates dts s1) < 20 ->
         pendingOf (updates dts s1) 0 = true
         /\ returnModeEnabled (updates dts s1) = true)
  /\ (forall dts dt,
         Forall (fun dt => 0 <= dt) dts ->
         _getTimeUniform (updates dts s1) < 20 ->
         20 <= _getTimeUniform (updates dts s1) + dt ->
         _getTimeUniform (updates dts s1) + dt <= 29.999 ->
         let s' := update dt (updates dts s1) in
         pendingOf s' 0 = false /\ returnModeEnabled s' = false
         /\ phaseOf s' 0 = _wrapProgress (- _getTimeUniform s' * speedOf s' 0) 2).
Proof.
  intros s0 s1.
  split; [repeat split; reflexivity|].
  split; [split; reflexivity|].
  assert (Hrun : forall dts,
             Forall (fun dt => 0 <= dt) dts ->
             _getTimeUniform (updates dts s1) < 20 ->
             updates dts s1 = draining (fold_left Qplus dts 15)
             /\ fold_left Qplus dts 15 < 20).
  { intros dts Hdts Ht. rewrite time_updates in Ht.
    change (_getTimeUniform s1) with 15 in Ht.
    split; [|exact Ht].
    unfold s1, s0. rewrite draining_start. apply updates_draining; auto. lra. }
  split.
  - intros dts Hdts Ht. destruct (Hrun dts Hdts Ht) as [-> _].
    split; reflexivity.
  - intros dts dt Hdts Ht. destruct (Hrun dts Hdts Ht) as [-> _].
    change (_getTimeUniform (draining (fold_left Qplus dts 15)))
      with (fold_left Qplus dts 15).
    intros H20 H30. now apply finish_draining.
Qed.

Lemma return_mode_drain_trace_witness :
  let s1 := setReturnMode false drain_scenario in
  (pendingOf (updates [1; 2; 1.5] s1) 0 = true
   /\ returnModeEnabled (updates [1; 2; 1.5] s1) = true)
  /\ (pendingOf (update 0.5 (updates [1; 2; 1.5] s1)) 0 = false
      /\ returnModeEnabled (update 0.5 (updates [1; 2; 1.5] s1)) = false).
Proof.
  pose proof return_mode_drain_trace as (_ & _ & Hbefore & Hat).
  split.
  - apply Hbefore.
    + repeat constructor; discriminate.
    + vm_compute. reflexivity.
  - destruct (Hat [1; 2; 1.5] 0.5) as (Hp & He & _).
    + repeat constructor; discriminate.
    + vm_compute. reflexivity.
    + vm_compute. discriminate.
    + vm_compute. discriminate.
    + split; assumption.
Defined.

End PlanesShaderFacts.

(** ** Flight speed smoothing *)

Module FlightFacts.

Import JS JSFacts Flight Scenes.
Open Scope Q_scope.

Lemma abs_lt x c : ltb (abs x) c = true <-> - c < x /\ x < c.
Proof.
  rewrite ltb_lt. unfold abs.
  destruct (Qle_bool 0 x) eqn:E.
  - apply Qle_bool_iff in E. split; intros; lra.
  - assert (x < 0).
    { destruct (Qlt_le_dec x 0); [assumption|].
      apply Qle_bool_iff in q. congruence. }
    split; intros; lra.
Qed.

Lemma abs_ge x c : ltb (abs x) c = false <-> x <= - c \/ c <= x.
Proof.
  rewrite ltb_ge. unfold abs.
  destruct (Qle_bool 0 x) eqn:E.
  - apply Qle_bool_iff in E. split; intros H; [right; exact H|]. destruct H; lra.
  - assert (x < 0).
    { destruct (Qlt_le_dec x 0); [assumption|].
      apply Qle_bool_iff in q. congruence. }
    split; intros H0; [left; lra|]. destruct H0; lra.
Qed.

Lemma min_spec a b : (a <= b /\ min a b = a) \/ (b < a /\ min a b = b).
Proof.
  unfold min. destruct (Qle_bool a b) eqn:E.
  - left. split; [now apply Qle_bool_iff|reflexivity].
  - right. split; [|reflexivity].
    destruct (Qlt_le_dec b a); [assumption|].
    apply Qle_bool_iff in q. congruence.
Qed.

Lemma frameFraction_range dt : 0 <= dt -> 0 <= frameFraction dt /\ frameFraction dt <= 1.
Proof.
  intros H. unfold frameFraction.
  destruct (Qeq_bool dt 0); [lra|].
  destruct (min_spec 1 (dt * 6)) as [[? ->]|[? ->]]; lra.
Qed.

Lemma smoothing_speed dt (w : World) :
  0 <= dt ->
  let f := fst w in
  let f' := fst (_applyAnimationSpeedSmoothing dt w) in
  animationSpeedTarget f' = animationSpeedTarget f
  /\ animationSpeed f'
     == smoothedSpeed (animationSpeed f) (animationSpeedTarget f) (frameFraction dt).
Proof.
  intros Hdt. destruct w as [f panes]. cbn [fst].
  unfold _applyAnimationSpeedSmoothing.
  pose proof (frameFraction_range dt Hdt) as [Hf0 Hf1].
  fold (frameFraction dt).
  destruct (ltb (abs (animationSpeedTarget f - animationSpeed f)) 0.00001) eqn:E.
  - cbn [fst animationSpeedTarget animationSpeed set_animationSpeed].
    split; [reflexivity|].
    apply abs_lt in E. unfold smoothedSpeed.
    set (fr := frameFraction dt) in *.
    set (sp := animationSpeed f) in *. set (tg := animationSpeedTarget f) in *.
    assert (Hsnap : ltb (abs (tg - (sp + (tg - sp) * fr))) 0.0001 = true).
    { apply abs_lt.
      destruct (Qlt_le_dec (tg - sp) 0) as [Hneg|Hpos].
      - assert ((tg - sp) * fr <= 0) by nra.
        assert (tg - sp <= (tg - sp) * fr) by nra. lra.
      - assert (0 <= (tg - sp) * fr) by nra.
        assert ((tg - sp) * fr <= tg - sp) by nra. lra. }
    rewrite Hsnap. reflexivity.
  - unfold smoothedSpeed.
    cbn [animationSpeedTarget animationSpeed set_animationSpeed].
    destruct (ltb _ 0.0001);
      cbn [animationSpeedTarget animationSpeed set_animationSpeed];
      destruct (drivesShader _); cbn [fst animationSpeedTarget animationSpeed];
      split; reflexivity.
Qed.

Lemma update_speed dt (w : World) :
  animationSpeed (fst (update dt w))
  = animationSpeed (fst (_applyAnimationSpeedSmoothing dt w))
  /\ animationSpeedTarget (fst (update dt w))
     = animationSpeedTarget (fst (_applyAnimationSpeedSmoothing dt w)).
Proof.
  unfold update. destruct (_applyAnimationSpeedSmoothing dt w) as [f panes].
  destruct (_isShaderBasedPanes f); [auto|].
  destruct (_ || _); auto.
Qed.

(** C9, as amended.  Flight speed smoothing: [setAnimationSpeed] without the
    immediate option records the target and keeps the active speed; each
    following [update(deltaTime)] with a positive [deltaTime] moves the active
    speed toward the target by the fraction [min(1, deltaTime * 6)] of the
    remaining difference and snaps it to the target once within 1e-4 of it,
    while an [update] with [deltaTime = 0] moves it by the whole difference;
    with the immediate option the active speed is the target in the same
    call. *)
Theorem speed_smoothing (w : World) (target dt : Q) :
  0 <= dt ->
  (let f1 := fst (setAnimationSpeed target (mkSpeedOptions false) w) in
   animationSpeedTarget f1 = target /\ animationSpeed f1 = animationSpeed (fst w))
  /\ (let f := fst w in
      let f' := fst (update dt w) in
      animationSpeedTarget f' = animationSpeedTarget f
      /\ animationSpeed f'
         == smoothedSpeed (animationSpeed f) (animationSpeedTarget f)
              (if Qeq_bool dt 0 then 1 else min 1 (dt * 6)))
  /\ (let f1 := fst (setAnimationSpeed target (mkSpeedOptions true) w) in
      animationSpeedTarget f1 = target /\ animationSpeed f1 = target).
Proof.
  intros Hdt. split; [|split].
  - destruct w as [f panes]. cbn. auto.
  - cbn zeta. destruct (update_speed dt w) as [-> ->].
    apply (smoothing_speed dt w Hdt).
  - destruct w as [f panes]. cbn. auto.
Qed.

Lemma speed_smoothing_witness :
  animationSpeed
    (fst (update 0.05 (setAnimationSpeed 0.2 (mkSpeedOptions false) cruising)))
  == 0.13.
Proof.
  destruct (speed_smoothing
              (setAnimationSpeed 0.2 (mkSpeedOptions false) cruising) 0.2 0.05)
    as (_ & (_ & H) & _).
  - discriminate.
  - rewrite H. reflexivity.
Defined.

(** C9, as stated, fails for a frame with [deltaTime = 0]: the claimed
    fraction [min(1, 0 * 6)] is 0 and would keep the active speed at 0.1,
    the code moves it to the target 0.2. *)
Lemma speed_smoothing_counterexample :
  let w := setAnimationSpeed 0.2 (mkSpeedOptions false) cruising in
  animationSpeed (fst w) = 0.1 /\ animationSpeedTarget (fst w) = 0.2
  /\ smoothedSpeed 0.1 0.2 (min 1 (0 * 6)) == 0.1
  /\ animationSpeed (fst (update 0 w)) = 0.2
  /\ ~ animationSpeed (fst (update 0 w)) == smoothedSpeed 0.1 0.2 (min 1 (0 * 6)).
Proof.
  repeat split; try reflexivity.
  vm_compute. discriminate.
Qed.
End FlightFacts.

(** ** Geometry *)

Module GeometryFacts.

Import V3 FlightUtils.
Open Scope R_scope.

Lemma Rltb_lt a b : JSR.ltb a b = true <-> a < b.
Proof. unfold JSR.ltb. destruct (Rlt_dec a b); split; intros; auto; discriminate. Qed.

Lemma Rltb_ge a b : JSR.ltb a b = false <-> b <= a.
Proof.
  unfold JSR.ltb. destruct (Rlt_dec a b); split; intros; auto; try discriminate; lra.
Qed.

Lemma Rgtb_gt a b : JSR.gtb a b = true <-> b < a.
Proof. apply Rltb_lt. Qed.

Lemma Rgtb_le a b : JSR.gtb a b = false <-> a <= b.
Proof. apply Rltb_ge. Qed.

Lemma or_nonzero v d : v <> 0 -> JSR.or v d = v.
Proof. intros H. unfold JSR.or. destruct (Req_dec_T v 0); [contradiction|reflexivity]. Qed.

Lemma or_zero d : JSR.or 0 d = d.
Proof. unfold JSR.or. destruct (Req_dec_T 0 0); [reflexivity|contradiction]. Qed.

Lemma lengthSq_nonneg v : 0 <= lengthSq v.
Proof. unfold lengthSq. nra. Qed.

Lemma length_nonneg v : 0 <= V3.length v.
Proof. apply sqrt_pos. Qed.

Lemma length_zero : V3.length zero = 0.
Proof.
  unfold V3.length, lengthSq, zero. cbn.
  replace (0 * 0 + 0 * 0 + 0 * 0) with 0 by ring. apply sqrt_0.
Qed.

Lemma length_multiplyScalar v k :
  V3.length (multiplyScalar v k) = Rabs k * V3.length v.
Proof.
  unfold V3.length, lengthSq, multiplyScalar. cbn.
  replace (vx v * k * (vx v * k) + vy v * k * (vy v * k) + vz v * k * (vz v * k))
    with (k * k * (vx v * vx v + vy v * vy v + vz v * vz v)) by ring.
  rewrite sqrt_mult_alt by nra.
  fold (Rsqr k). now rewrite sqrt_Rsqr_abs.
Qed.

Lemma multiplyScalar_multiplyScalar v a b :
  multiplyScalar (multiplyScalar v a) b = multiplyScalar v (a * b).
Proof. unfold multiplyScalar. cbn. f_equal; ring. Qed.

(** Pushing a point that is off the origin out to distance [d]. *)
Lemma push_radially v d :
  0 < V3.length v ->
  multiplyScalar (normalize v) d = multiplyScalar v (d / V3.length v).
Proof.
  intros H. unfold normalize, divideScalar.
  rewrite or_nonzero by lra.
  rewrite multiplyScalar_multiplyScalar. f_equal. field. lra.
Qed.

Lemma length_push v d :
  0 < V3.length v -> 0 <= d -> V3.length (multiplyScalar (normalize v) d) = d.
Proof.
  intros H Hd. rewrite push_radially by assumption.
  rewrite length_multiplyScalar.
  rewrite Rabs_right.
  - field. lra.
  - apply Rle_ge. apply Rmult_le_pos; [assumption|].
    left. now apply Rinv_0_lt_compat.
Qed.

Lemma ensureMinimumCurveAltitude_map points radius minAltitude :
  ensureMinimumCurveAltitude points radius minAltitude
  = map (liftPoint radius minAltitude) points.
Proof. reflexivity. Qed.

Lemma liftPoint_above radius minAltitude p :
  radius + minAltitude <= V3.length p -> liftPoint radius minAltitude p = p.
Proof.
  intros H. unfold liftPoint.
  apply Rltb_ge in H. rewrite H, andb_false_r. reflexivity.
Qed.

Lemma liftPoint_origin radius minAltitude p :
  V3.length p = 0 -> liftPoint radius minAltitude p = p.
Proof.
  intros H. unfold liftPoint.
  assert (E : JSR.gtb (V3.length p) 0 = false) by (apply Rgtb_le; lra).
  rewrite E. reflexivity.
Qed.

Lemma liftPoint_below radius minAltitude p :
  0 < V3.length p -> V3.length p < radius + minAltitude ->
  liftPoint radius minAltitude p
  = multiplyScalar p ((radius + minAltitude) / V3.length p)
  /\ 0 < (radius + minAltitude) / V3.length p
  /\ V3.length (liftPoint radius minAltitude p) = radius + minAltitude.
Proof.
  intros H0 H1. unfold liftPoint.
  assert (E0 : JSR.gtb (V3.length p) 0 = true) by (now apply Rgtb_gt).
  assert (E1 : JSR.ltb (V3.length p) (radius + minAltitude) = true) by (now apply Rltb_lt).
  rewrite E0, E1. cbn [andb].
  repeat split.
  - now apply push_radially.
  - apply Rdiv_lt_0_compat; lra.
  - apply length_push; lra.
Qed.

Lemma liftPoint_changed radius minAltitude p :
  liftPoint radius minAltitude p <> p ->
  0 < V3.length p /\ V3.length p < radius + minAltitude.
Proof.
  unfold liftPoint. intros H.
  destruct (JSR.gtb (V3.length p) 0) eqn:E0; [|contradiction].
  destruct (JSR.ltb (V3.length p) (radius + minAltitude)) eqn:E1; [|contradiction].
  split; [now apply Rgtb_gt | now apply Rltb_lt].
Qed.


(** *** The altitude floor *)

Lemma liftPoint_floorEnforced radius minAltitude p :
  floorEnforced radius minAltitude p (liftPoint radius minAltitude p).
Proof.
  repeat split.
  - apply liftPoint_above; assumption.
  - apply liftPoint_origin; assumption.
  - apply liftPoint_below; tauto.
  - apply liftPoint_below; tauto.
  - apply liftPoint_below; tauto.
Qed.

Lemma normalizeControlPoints_four {three : Three} points radius minAltitude :
  List.length points = 4%nat ->
  normalizeControlPoints points radius minAltitude
  = map (liftPoint radius minAltitude) points.
Proof.
  intros H. unfold normalizeControlPoints.
  destruct points as [|p0 points]; [discriminate|].
  unfold cloneControlPoints. rewrite map_id, H. reflexivity.
Qed.

(** C7, as amended.  On an input of exactly four points
    [normalizeControlPoints] returns four points in the same order: a point
    at distance at least [radius + minAltitude] from the origin is returned
    unchanged; a point below that floor and off the origin is scaled by the
    positive factor [(radius + minAltitude) / distance], so it keeps its
    direction and lands at distance exactly [radius + minAltitude]; a point
    at the origin is returned unchanged. *)
Theorem normalizeControlPoints_four_points {three : Three}
    (points : list Vec3) (radius minAltitude : R) :
  List.length points = 4%nat ->
  List.length (normalizeControlPoints points radius minAltitude) = 4%nat
  /\ Forall2 (floorEnforced radius minAltitude)
       points (normalizeControlPoints points radius minAltitude).
Proof.
  intros H. rewrite normalizeControlPoints_four by assumption.
  split; [now rewrite length_map|].
  clear H. induction points as [|p points IH]; cbn; constructor; auto.
  apply liftPoint_floorEnforced.
Qed.

(** *** The origin passes the altitude floor *)

(** C10.  The altitude floor skips the origin: [ensureMinimumCurveAltitude]
    changes a point only when its distance from the origin is strictly
    between 0 and [radius + minAltitude]; a point of length zero is returned
    as it is, also through [normalizeControlPoints] on four points;
    [generateParabolicControlPoints] returns what
    [ensureMinimumCurveAltitude] makes of its nine raw points, so it has no
    other floor; for a positive floor an input holding the origin yields an
    output with a point below the floor. *)
Theorem altitude_floor_skips_origin {three : Three}
    (points : list Vec3) (radius minAltitude : R) :
  Forall2 (fun p q => (V3.length p = 0 -> q = p)
                      /\ (q <> p -> 0 < V3.length p < radius + minAltitude))
    points (ensureMinimumCurveAltitude points radius minAltitude)
  /\ ensureMinimumCurveAltitude (zero :: points) radius minAltitude
     = zero :: ensureMinimumCurveAltitude points radius minAltitude
  /\ (forall a b c,
         normalizeControlPoints [zero; a; b; c] radius minAltitude
         = zero :: ensureMinimumCurveAltitude [a; b; c] radius minAltitude)
  /\ (forall departure arrival options random1 random2,
         exists raw,
           List.length raw = 9%nat
           /\ generateParabolicControlPoints departure arrival options random1 random2
              = ensureMinimumCurveAltitude raw (FlightUtils.radius options)
                  (minCurveAltitude options))
  /\ (0 < radius + minAltitude ->
      Exists (fun q => V3.length q < radius + minAltitude)
        (ensureMinimumCurveAltitude (zero :: points) radius minAltitude)).
Proof.
  assert (Hz : liftPoint radius minAltitude zero = zero)
    by (apply liftPoint_origin, length_zero).
  repeat split.
  - rewrite ensureMinimumCurveAltitude_map.
    induction points as [|p points IH]; cbn; constructor; auto.
    split.
    + apply liftPoint_origin.
    + apply liftPoint_changed.
  - rewrite !ensureMinimumCurveAltitude_map. cbn [map]. now rewrite Hz.
  - intros a b c. rewrite normalizeControlPoints_four by reflexivity.
    rewrite ensureMinimumCurveAltitude_map. cbn [map]. now rewrite Hz.
  - intros departure arrival options random1 random2.
    eexists. split; cycle 1.
    + unfold generateParabolicControlPoints. reflexivity.
    + reflexivity.
  - intros Hpos. rewrite ensureMinimumCurveAltitude_map. cbn [map].
    rewrite Hz. constructor. rewrite length_zero. exact Hpos.
Qed.

Lemma normalizeControlPoints_four_points_witness :
  Forall2 (floorEnforced 3000 20)
    [mkVector3 4000 0 0; mkVector3 0 3000 0; mkVector3 0 0 5000; mkVector3 0 0 0]
    (normalizeControlPoints
       [mkVector3 4000 0 0; mkVector3 0 3000 0; mkVector3 0 0 5000; mkVector3 0 0 0]
       3000 20).
Proof.
  apply (normalizeControlPoints_four_points
           [mkVector3 4000 0 0; mkVector3 0 3000 0; mkVector3 0 0 5000; mkVector3 0 0 0]
           3000 20).
  reflexivity.
Defined.

Lemma altitude_floor_skips_origin_witness :
  Exists (fun q => V3.length q < 3000 + 20)
    (ensureMinimumCurveAltitude [zero; mkVector3 4000 0 0] 3000 20).
Proof.
  apply (altitude_floor_skips_origin [mkVector3 4000 0 0] 3000 20).
  lra.
Defined.

(** C7, as stated, fails at the origin: with radius 3000 and minimum
    altitude 20 the first of the four points lies below the floor, and it is
    returned at distance 0 instead of 3020. *)
Lemma normalizeControlPoints_four_points_counterexample :
  let points :=
    [zero; mkVector3 4000 0 0; mkVector3 0 4000 0; mkVector3 0 0 4000] in
  let out := normalizeControlPoints points 3000 20 in
  V3.length (nth 0 points zero) < 3000 + 20
  /\ nth 0 out zero = zero
  /\ V3.length (nth 0 out zero) <> 3000 + 20.
Proof.
  cbn zeta.
  rewrite normalizeControlPoints_four by reflexivity.
  cbn [map nth].
  rewrite liftPoint_origin by apply length_zero.
  rewrite length_zero. repeat split; lra.
Qed.


(** *** Geographic projection *)

(** C8.  [latLngToVector3] takes the polar angle [phi = (90 - lat) * PI / 180]
    and the azimuth [theta = (180 - lng) * PI / 180], forms the spherical
    point [(r sin phi cos theta, r cos phi, r sin phi sin theta)] and returns
    it with the axes remapped to [(z, y, -x)]; this is the rotation by +90
    degrees about the vertical axis, which the globe's rotation by -90
    degrees undoes. *)
Theorem latLngToVector3_projection (lat lng radius : R) :
  let phi := (90 - lat) * PI / 180 in
  let theta := (180 - lng) * PI / 180 in
  let p := Utils.sphericalToCartesian radius phi theta in
  p = mkVector3 (radius * sin phi * cos theta)
                (radius * cos phi)
                (radius * sin phi * sin theta)
  /\ Utils.latLngToVector3 lat lng radius = mkVector3 (vz p) (vy p) (- vx p)
  /\ Utils.latLngToVector3 lat lng radius = rotateY (PI / 2) p
  /\ rotateY (- (PI / 2)) (Utils.latLngToVector3 lat lng radius) = p.
Proof.
  intros phi theta p.
  assert (E : Utils.latLngToVector3 lat lng radius = mkVector3 (vz p) (vy p) (- vx p)).
  { unfold Utils.latLngToVector3, p, Utils.sphericalToCartesian. cbn.
    replace (- lng + 180) with (180 - lng) by ring. reflexivity. }
  repeat split.
  - exact E.
  - rewrite E. unfold rotateY. rewrite sin_PI2, cos_PI2. cbn. f_equal; ring.
  - rewrite E. unfold rotateY. rewrite sin_neg, cos_neg, sin_PI2, cos_PI2.
    unfold p, Utils.sphericalToCartesian. cbn. f_equal; ring.
Qed.

End GeometryFacts.

(** ** The batched curve renderer *)

Module CurvesFacts.

Import V3 Curves.

Section WithThree.

Context {three : Three}.

Lemma applyColorToCurve_cases curveIndex s :
  _applyColorToCurve curveIndex s = s
  \/ exists c, _applyColorToCurve curveIndex s = set_needsColorUpdate true (set_colors c s).
Proof.
  unfold _applyColorToCurve.
  destruct (outOfRange curveIndex s); [now left|].
  destruct (negb _); [now left|].
  right. eexists. reflexivity.
Qed.

Lemma drawRangeInv_constructor options : drawRangeInv (constructor options).
Proof.
  split; cbn.
  - reflexivity.
  - lia.
Qed.

Lemma drawRangeInv_setVisibleCurveCount count s :
  drawRangeInv (setVisibleCurveCount count s).
Proof. split; cbn; [reflexivity | lia]. Qed.

Lemma drawRangeInv_hideCurve curveIndex s :
  drawRangeInv s -> drawRangeInv (hideCurve curveIndex s).
Proof.
  intros H. unfold hideCurve. destruct (outOfRange curveIndex s); exact H.
Qed.

Lemma curveIndex_inRange curveIndex s :
  outOfRange curveIndex s = false ->
  (0 <= curveIndex)%Z /\ (curveIndex < Z.of_nat (maxCurves s))%Z.
Proof. unfold outOfRange. rewrite orb_false_iff, Z.ltb_ge, Z.leb_gt. tauto. Qed.

Lemma curveIndex_outOfRange curveIndex s :
  (curveIndex < 0)%Z \/ (Z.of_nat (maxCurves s) <= curveIndex)%Z ->
  outOfRange curveIndex s = true.
Proof. unfold outOfRange. rewrite orb_true_iff, Z.ltb_lt, Z.leb_le. tauto. Qed.

Lemma drawRangeInv_setCurve curveIndex controlPoints color metadata s :
  drawRangeInv s -> drawRangeInv (setCurve curveIndex controlPoints color metadata s).
Proof.
  intros [Hd Hc]. unfold setCurve.
  destruct (outOfRange curveIndex s) eqn:Hr; [split; assumption|].
  destruct (_ <? 2)%nat; [split; assumption|].
  apply curveIndex_inRange in Hr.
  match goal with |- context [_applyColorToCurve ?i ?x] =>
    destruct (applyColorToCurve_cases i x) as [->|[c ->]] end;
    cbn; destruct (currentCurveCount s <=? curveIndex)%Z; split; cbn; auto; lia.
Qed.

Lemma drawRangeInv_run calls s : drawRangeInv s -> drawRangeInv (run calls s).
Proof.
  revert s. induction calls as [|c calls IH]; intros s H; [exact H|].
  cbn. apply IH. destruct c; cbn.
  - now apply drawRangeInv_setCurve.
  - now apply drawRangeInv_hideCurve.
  - apply drawRangeInv_setVisibleCurveCount.
Qed.

(** C4.  Draw-range invariant: after any sequence of [setCurve], [hideCurve]
    and [setVisibleCurveCount] calls on a constructed renderer the draw range
    starts at vertex 0 and counts [currentCurveCount * verticesPerCurve]
    vertices, which is at most [maxCurves * verticesPerCurve]; and
    [setVisibleCurveCount count] sets the count of visible curves to
    [min count maxCurves]. *)
Theorem draw_range_invariant (options : CurvesOptions) (calls : list Call) :
  let s := run calls (constructor options) in
  drawRange s = (0, currentCurveCount s * Z.of_nat (verticesPerCurve s))%Z
  /\ (snd (drawRange s) <= Z.of_nat (maxCurves s) * Z.of_nat (verticesPerCurve s))%Z
  /\ (forall count,
         currentCurveCount (setVisibleCurveCount count s)
         = Z.min count (Z.of_nat (maxCurves s))
         /\ drawRange (setVisibleCurveCount count s)
            = (0, Z.min count (Z.of_nat (maxCurves s)) * Z.of_nat (verticesPerCurve s))%Z).
Proof.
  intros s.
  destruct (drawRangeInv_run calls (constructor options)
              (drawRangeInv_constructor options)) as [Hd Hc].
  fold s in Hd, Hc.
  repeat split.
  - exact Hd.
  - rewrite Hd. cbn [snd]. nia.
Qed.

End WithThree.

End CurvesFacts.

(** ** Error handling of the slot operations *)

Module ErrorHandling.

Import Scenes.

Section WithThree.

Context {three : Three}.

(** C6, as amended.  For every slot operation of the two renderers an
    out-of-range slot index, and for the two control-point setters a list that
    is too short, is not fatal and changes none of the buffers, slot records,
    counts and flags: [Curves.setCurve] logs a warning in both cases and
    changes nothing else, [PlanesShader.setCurveControlPoints] logs a warning
    for a short list at an in-range index and changes nothing else, and every
    other rejected call, [Curves.hideCurve] and
    [PlanesShader.setCurveControlPoints] on an out-of-range index among them,
    returns the renderer as it was, without a warning. *)
Theorem rejected_calls_change_nothing (cs : Curves.t) (ps : PlanesShader.t) (index : Z) :
  ((index < 0 \/ Z.of_nat (Curves.maxCurves cs) <= index)%Z ->
   (forall points color metadata,
       Curves.setCurve index points color metadata cs
       = Curves.set_warnings (Curves.IndexOutOfBounds index :: Curves.warnings cs) cs)
   /\ (forall color metadata, Curves.setCurveColor index color metadata cs = cs)
   /\ Curves.hideCurve index cs = cs
   /\ Curves.isCurveVisible index cs = false)
  /\ ((0 <= index < Z.of_nat (Curves.maxCurves cs))%Z ->
      forall points color metadata,
        (List.length points < 2)%nat ->
        Curves.setCurve index points color metadata cs
        = Curves.set_warnings (Curves.NeedTwoControlPoints :: Curves.warnings cs) cs)
  /\ ((index < 0 \/ Z.of_nat (PlanesShader.maxPanes ps) <= index)%Z ->
      (forall points, PlanesShader.setCurveControlPoints index points ps = ps)
      /\ (forall c, PlanesShader.setPaneColor index c ps = ps)
      /\ (forall size, PlanesShader.setPaneSize index size ps = ps)
      /\ (forall offset, PlanesShader.setElevationOffset index offset ps = ps)
      /\ (forall speed, PlanesShader.setAnimationSpeed index speed ps = ps)
      /\ (forall mode, PlanesShader.setTiltMode index mode ps = ps)
      /\ PlanesShader.hidePane index ps = ps
      /\ (forall textureIndex, PlanesShader.setTextureIndex index textureIndex ps = ps))
  /\ ((0 <= index < Z.of_nat (PlanesShader.maxPanes ps))%Z ->
      forall points,
        (List.length points < 4)%nat ->
        PlanesShader.setCurveControlPoints index points ps
        = PlanesShader.set_warnings
            ("PlanesShader requires 4 control points"%string :: PlanesShader.warnings ps)
            ps).
Proof.
  split; [|split; [|split]].
  - intros Hr. apply CurvesFacts.curveIndex_outOfRange in Hr.
    unfold Curves.setCurve, Curves.setCurveColor, Curves.hideCurve,
      Curves.isCurveVisible. rewrite Hr. auto.
  - intros Hr points color metadata Hlen.
    unfold Curves.setCurve.
    assert (E : Curves.outOfRange index cs = false).
    { unfold Curves.outOfRange. rewrite orb_false_iff, Z.ltb_ge, Z.leb_gt. lia. }
    rewrite E. apply Nat.ltb_lt in Hlen. rewrite Hlen. reflexivity.
  - intros Hr. apply PlanesShaderFacts.outOfRange_true in Hr.
    unfold PlanesShader.setCurveControlPoints, PlanesShader.setPaneColor,
      PlanesShader.setPaneSize, PlanesShader.setElevationOffset,
      PlanesShader.setAnimationSpeed, PlanesShader.setTiltMode,
      PlanesShader.hidePane, PlanesShader.setTextureIndex.
    rewrite Hr. repeat split.
  - intros Hr points Hlen.
    unfold PlanesShader.setCurveControlPoints.
    assert (E : PlanesShader.outOfRange index ps = false).
    { unfold PlanesShader.outOfRange. rewrite orb_false_iff, Z.ltb_ge, Z.leb_gt. lia. }
    rewrite E.
    destruct points as [|p0 [|p1 [|p2 [|p3 points]]]]; try reflexivity.
    cbn in Hlen. lia.
Qed.

End WithThree.

Lemma rejected_calls_change_nothing_witness :
  let cs := Curves.constructor (Curves.mkOptions (Some 2%nat) (Some 4%nat) None None) in
  let ps := draining 15 in
  Curves.hideCurve 7 cs = cs
  /\ PlanesShader.hidePane (-1) ps = ps
  /\ Curves.setCurve 0 [V3.zero] (Curves.ColorNumber 255) None cs
     = Curves.set_warnings (Curves.NeedTwoControlPoints :: Curves.warnings cs) cs
  /\ PlanesShader.setCurveControlPoints 0 [mkVector3 0 0 0] ps
     = PlanesShader.set_warnings
         ("PlanesShader requires 4 control points"%string :: PlanesShader.warnings ps) ps.
Proof.
  intros cs ps.
  destruct (rejected_calls_change_nothing cs ps 7) as (Hc & _ & _ & _).
  destruct (rejected_calls_change_nothing cs ps (-1)) as (_ & _ & Hp & _).
  destruct (rejected_calls_change_nothing cs ps 0) as (_ & Hc2 & _ & Hp2).
  destruct Hc as (_ & _ & Hc & _); [right; cbn; lia|].
  destruct Hp as (_ & _ & _ & _ & _ & _ & Hp & _); [left; lia|].
  split; [exact Hc|]. split; [exact Hp|]. split.
  - apply Hc2; cbn; lia.
  - apply Hp2; cbn; lia.
Defined.

(** C6, as stated, fails: [Curves.hideCurve] and
    [PlanesShader.setCurveControlPoints] reject an out-of-range index without
    logging anything. *)
Lemma rejected_calls_counterexample :
  let cs := Curves.constructor (Curves.mkOptions (Some 2%nat) (Some 4%nat) None None) in
  let ps := draining 15 in
  Curves.outOfRange (-1) cs = true
  /\ Curves.warnings (Curves.hideCurve (-1) cs) = Curves.warnings cs
  /\ PlanesShader.outOfRange 5 ps = true
  /\ PlanesShader.warnings (PlanesShader.setCurveControlPoints 5 fourPoints ps)
     = PlanesShader.warnings ps.
Proof. repeat split. Qed.

End ErrorHandling.

(** ** More on the instanced plane animator *)

Module PlanesShaderMore.

Import JS JSFacts PlanesShader Scenes PlanesShaderFacts.
Open Scope Q_scope.

(** *** Buffer sizes are kept by every call *)

Lemma length_flat_map_const {A B} (f : A -> list B) (l : list A) n :
  (forall a, length (f a) = n) -> length (flat_map f l) = (length l * n)%nat.
Proof.
  intros H. induction l as [|a l IH]; cbn; [reflexivity|].
  rewrite length_app, H, IH. lia.
Qed.

Lemma sized_constructor options rand : sized (constructor options rand).
Proof.
  unfold constructor.
  set (n := match opt_maxPanes options with Some (S n) => S n | _ => 1000%nat end).
  assert (Hn : (0 < n)%nat) by (subst n; destruct (opt_maxPanes options) as [[|k]|]; lia).
  split; [split|..]; cbn;
    rewrite ?repeat_length; try reflexivity; try lia.
  - unfold initial_animationParams.
    rewrite (length_flat_map_const _ _ 4%nat) by reflexivity.
    now rewrite length_seq.
  - rewrite (length_flat_map_const _ _ 4%nat) by reflexivity.
    now rewrite length_seq.
Qed.

Lemma fill_range_length {A} (a : list A) v s e : length (fill_range a v s e) = length a.
Proof. unfold fill_range. apply length_imap. Qed.

Lemma fill_all_length {A} (a : list A) v : length (fill_all a v) = length a.
Proof. unfold fill_all. apply length_map. Qed.

Lemma disableStep_lengths T st i :
  length (dl_params (disableStep T st i)) = length (dl_params st)
  /\ length (dl_pending (disableStep T st i)) = length (dl_pending st).
Proof.
  unfold disableStep.
  destruct (ltb _ 0.5); [auto|].
  destruct (gtb _ (1 + epsilon)); cbn; rewrite ?aset_length; [auto|].
  destruct (gtb _ (1 - epsilon)); cbn; rewrite ?aset_length; auto.
Qed.

Lemma disableFold_lengths T l st :
  length (dl_params (fold_left (disableStep T) l st)) = length (dl_params st)
  /\ length (dl_pending (fold_left (disableStep T) l st)) = length (dl_pending st).
Proof.
  revert st. induction l as [|a l IH]; intros st; cbn; [auto|].
  destruct (IH (disableStep T st a)) as [-> ->]. apply disableStep_lengths.
Qed.

Ltac sized_frame H :=
  destruct H as [[Hp Hq Ha] H1 H2 H3 H4 H5 H6 H7 H8];
  (split; [split|..]); cbn;
  rewrite ?aset_length, ?length_map, ?length_imap; solve [assumption | lia].

Lemma sized_update dt s : sized s -> sized (update dt s).
Proof.
  intros [[Hp Hq Ha] H1 H2 H3 H4 H5 H6 H7 H8].
  unfold update. fold (advanced dt s). unfold _reconcileReturnMode.
  change (returnModePreferred (advanced dt s)) with (returnModePreferred s).
  change (returnModeEnabled (advanced dt s)) with (returnModeEnabled s).
  destruct (returnModePreferred s).
  { destruct (returnModeEnabled s); cbn [negb]; (split; [split|..]); cbn; assumption. }
  destruct (returnModeEnabled s); cbn [negb].
  2:{ (split; [split|..]); cbn; assumption. }
  destruct (reconcileFold_lengths (_getTimeUniform (advanced dt s))
              (activeIndices (advanced dt s)) (loopStart (advanced dt s))) as [E1 E2].
  change (fold_left _ _ _) with (reconcileLoop (advanced dt s)) in E1, E2.
  cbn [loopStart rl_params rl_pending] in E1, E2.
  change (animationParams (advanced dt s)) with (animationParams s) in E1.
  change (pendingReturnCompletion (advanced dt s)) with (pendingReturnCompletion s) in E2.
  destruct (rl_needsUpdate _), (rl_anyPending _); cbn [negb];
    (split; [split|..]); cbn; rewrite ?E1, ?E2; assumption.
Qed.

Lemma sized_call s c : sized s -> sized (call s c).
Proof.
  intros H. destruct c; cbn [call].
  - unfold setCurveControlPoints. destruct (outOfRange index s); [exact H|].
    destruct controlPoints as [|p0 [|p1 [|p2 [|p3 ?]]]]; sized_frame H.
  - unfold setReturnMode. destruct enabled.
    + change (returnModeEnabled (set_pendingReturnCompletion _ _))
        with (returnModeEnabled s).
      destruct (returnModeEnabled s); sized_frame H.
    + destruct H as [[Hp Hq Ha] H1 H2 H3 H4 H5 H6 H7 H8].
      match goal with |- context [fold_left (disableStep ?T) ?l ?st] =>
        destruct (disableFold_lengths T l st) as [E1 E2];
        destruct (dl_needsUpdate (fold_left (disableStep T) l st)) end;
        (split; [split|..]); cbn; cbn in E1, E2; rewrite ?E1, ?E2; assumption.
  - unfold setPaneColor. destruct (outOfRange index s); [exact H|]. sized_frame H.
  - unfold setPaneSize. destruct (outOfRange index s); [exact H|]. sized_frame H.
  - unfold setElevationOffset. destruct (outOfRange index s); [exact H|]. sized_frame H.
  - unfold setAnimationSpeed. destruct (outOfRange index s); [exact H|]. sized_frame H.
  - unfold setTiltMode. destruct (outOfRange index s); [exact H|]. sized_frame H.
  - unfold hidePane. destruct (outOfRange index s); [exact H|]. sized_frame H.
  - now apply sized_update.
  - unfold setActivePaneCount.
    destruct H as [[Hp Hq Ha] H1 H2 H3 H4 H5 H6 H7 H8].
    destruct (_ <? _)%Z; (split; [split|..]); cbn -[Z.min];
      rewrite ?fill_range_length; solve [assumption | lia].
  - sized_frame H.
  - unfold setTexture. destruct hasTexture, info; sized_frame H.
  - unfold setTextureIndex. destruct (outOfRange index s); [exact H|].
    destruct (atlasInfo s); sized_frame H.
Qed.

(** Every state a caller can reach has buffers of the constructed sizes, a
    positive capacity, and an active count within the capacity. *)
Theorem reachable_sized (s : t) : reachable s -> sized s.
Proof.
  intros (options & rand & calls & ->).
  generalize (sized_constructor options rand).
  generalize (constructor options rand). clear.
  induction calls as [|c calls IH]; intros s H; [exact H|].
  apply (IH (call s c)). now apply sized_call.
Qed.


Lemma reachable_sized_witness :
  sized (run [CallSetCurveControlPoints 0 fourPoints; CallSetActivePaneCount 1;
              CallUpdate 15; CallSetReturnMode false]
           (constructor (mkOptions (Some 1%nat) None (Some true) None) (fun _ => 0))).
Proof.
  apply reachable_sized.
  exists (mkOptions (Some 1%nat) None (Some true) None), (fun _ => 0),
    [CallSetCurveControlPoints 0 fourPoints; CallSetActivePaneCount 1;
     CallUpdate 15; CallSetReturnMode false].
  reflexivity.
Defined.

(** *** Writing and reading back control points *)

Ltac aget_aset :=
  repeat first
    [ rewrite aget_aset_eq by (rewrite ?aset_length; lia)
    | rewrite aget_aset_ne by lia ].

(** For an in-range slot and at least four points, [setCurveControlPoints]
    stores the first four points so that they read back exactly, marks the
    pane visible, and leaves the control points and animation parameters of
    every other slot, and the phase, speed and tilt mode of this one, as they
    were. *)
Theorem setCurveControlPoints_readback (s : t) (index : Z)
    (p0 p1 p2 p3 : Vector3 Q) (rest : list (Vector3 Q)) :
  sized s ->
  (0 <= index < Z.of_nat (maxPanes s))%Z ->
  let i := Z.to_nat index in
  let s' := setCurveControlPoints index (p0 :: p1 :: p2 :: p3 :: rest) s in
  readControlPoints s' i = [p0; p1; p2; p3]
  /\ readAnimationParams s' i = [phaseOf s i; speedOf s i; aget 0 (animationParams s) (i * 4 + 2); 1]
  /\ visibleOf s' i = true
  /\ (forall j, j <> i ->
         readControlPoints s' j = readControlPoints s j
         /\ readAnimationParams s' j = readAnimationParams s j).
Proof.
  intros [[Hp Hq Ha] H1 H2 H3 H4 H5 H6 H7 H8] Hr i s'.
  assert (Hi : (i < maxPanes s)%nat) by (unfold i; lia).
  assert (E : outOfRange index s = false).
  { unfold outOfRange. rewrite orb_false_iff, Z.ltb_ge, Z.leb_gt. lia. }
  unfold s', setCurveControlPoints. rewrite E. fold i.
  assert (Hv : forall v : Vector3 Q, mkVector3 (vx v) (vy v) (vz v) = v)
    by (now intros []).
  repeat split.
  - unfold readControlPoints. cbn. aget_aset. now rewrite !Hv.
  - unfold readAnimationParams, phaseOf, speedOf. cbn. aget_aset. reflexivity.
  - unfold visibleOf. cbn. aget_aset. reflexivity.
  - unfold readControlPoints. cbn. aget_aset. reflexivity.
  - unfold readAnimationParams. cbn. aget_aset. reflexivity.
Qed.

Lemma draining_sized T : sized (draining T).
Proof. (split; [split|..]); cbn; solve [reflexivity | lia]. Qed.

Lemma setCurveControlPoints_readback_witness :
  readControlPoints (setCurveControlPoints 0 fourPoints (draining 15)) 0 = fourPoints.
Proof.
  assert (Hr : (0 <= 0 < Z.of_nat (maxPanes (draining 15)))%Z) by (cbn; lia).
  exact (proj1 (setCurveControlPoints_readback (draining 15) 0
                  (mkVector3 0 0 0) (mkVector3 1 0 0) (mkVector3 2 0 0) (mkVector3 3 0 0)
                  [] (draining_sized 15) Hr)).
Defined.


(** *** The uniforms follow the flags *)

Lemma uniformsSynced_call s c : uniformsSynced s -> uniformsSynced (call s c).
Proof.
  intros [Hr Hv]. destruct c; cbn [call].
  - unfold setCurveControlPoints. destruct (outOfRange index s); [now split|].
    destruct controlPoints as [|p0 [|p1 [|p2 [|p3 ?]]]]; now split.
  - unfold setReturnMode. destruct enabled.
    + change (returnModeEnabled (set_pendingReturnCompletion _ _))
        with (returnModeEnabled s).
      destruct (returnModeEnabled s) eqn:E; split; cbn; rewrite ?E; auto.
    + match goal with |- context [dl_needsUpdate ?x] => destruct (dl_needsUpdate x) end;
        now split.
  - unfold setPaneColor. destruct (outOfRange index s); now split.
  - unfold setPaneSize. destruct (outOfRange index s); now split.
  - unfold setElevationOffset. destruct (outOfRange index s); now split.
  - unfold setAnimationSpeed. destruct (outOfRange index s); now split.
  - unfold setTiltMode. destruct (outOfRange index s); now split.
  - unfold hidePane. destruct (outOfRange index s); now split.
  - unfold update. fold (advanced deltaTime s). unfold _reconcileReturnMode.
    change (returnModePreferred (advanced deltaTime s)) with (returnModePreferred s).
    change (returnModeEnabled (advanced deltaTime s)) with (returnModeEnabled s).
    destruct (returnModePreferred s).
    { destruct (returnModeEnabled s) eqn:E; split; cbn; rewrite ?E; auto. }
    destruct (returnModeEnabled s) eqn:E; cbn [negb].
    2:{ split; cbn; rewrite ?E; auto. }
    destruct (rl_needsUpdate _), (rl_anyPending _); cbn [negb];
      split; cbn; rewrite ?E; auto.
  - unfold setActivePaneCount. destruct (_ <? _)%Z; now split.
  - split; cbn; auto.
  - unfold setTexture. destruct hasTexture, info; now split.
  - unfold setTextureIndex. destruct (outOfRange index s); [now split|].
    destruct (atlasInfo s); now split.
Qed.

(** In every state a caller can reach, the [returnMode] uniform the shader
    reads is 1 exactly when [returnModeEnabled] is set, and the
    [paneVisibility] uniform is 1 exactly when the planes are visible. *)
Theorem reachable_uniformsSynced (s : t) : reachable s -> uniformsSynced s.
Proof.
  intros (options & rand & calls & ->).
  assert (H0 : uniformsSynced (constructor options rand)) by (split; reflexivity).
  revert H0. generalize (constructor options rand).
  induction calls as [|c calls IH]; intros s H; [exact H|].
  apply (IH (call s c)). now apply uniformsSynced_call.
Qed.

Lemma reachable_uniformsSynced_witness :
  uniformsSynced
    (run [CallSetCurveControlPoints 0 fourPoints; CallSetActivePaneCount 1;
          CallUpdate 15; CallSetReturnMode false; CallHidePane 0; CallUpdate 1]
       (constructor (mkOptions (Some 1%nat) None (Some true) None) (fun _ => 0))).
Proof.
  apply reachable_uniformsSynced.
  exists (mkOptions (Some 1%nat) None (Some true) None), (fun _ => 0),
    [CallSetCurveControlPoints 0 fourPoints; CallSetActivePaneCount 1;
     CallUpdate 15; CallSetReturnMode false; CallHidePane 0; CallUpdate 1].
  reflexivity.
Defined.

(** *** Entering round-trip mode *)

Lemma pendingOf_setReturnMode_true s i : pendingOf (setReturnMode true s) i = false.
Proof.
  assert (Hpend : pendingReturnCompletion (setReturnMode true s)
                  = fill_all (pendingReturnCompletion s) 0%Z).
  { unfold setReturnMode.
    change (returnModeEnabled (set_pendingReturnCompletion _ _)) with (returnModeEnabled s).
    now destruct (returnModeEnabled s). }
  unfold pendingOf. rewrite Hpend. unfold fill_all, aget.
  rewrite list_lookup_fmap. now destruct (pendingReturnCompletion s !! i).
Qed.

(** [setReturnMode(true)] takes effect at once: all pending flags are cleared,
    both mode flags are set, no animation parameter changes, and the frames
    that follow only advance the clock. *)
Theorem setReturnMode_true_immediate (s : t) (dts : list Q) :
  let s' := setReturnMode true s in
  returnModePreferred s' = true /\ returnModeEnabled s' = true
  /\ returnMode (uniforms s') = (if returnModeEnabled s then returnMode (uniforms s) else 1)
  /\ (forall i, pendingOf s' i = false)
  /\ animationParams s' = animationParams s
  /\ updates dts s' = set_time (fold_left Qplus dts (_getTimeUniform s)) s'.
Proof.
  intros s'.
  assert (Hp : returnModePreferred s' = true).
  { unfold s', setReturnMode.
    change (returnModeEnabled (set_pendingReturnCompletion _ _)) with (returnModeEnabled s).
    now destruct (returnModeEnabled s). }
  assert (He : returnModeEnabled s' = true).
  { unfold s', setReturnMode.
    change (returnModeEnabled (set_pendingReturnCompletion _ _)) with (returnModeEnabled s).
    now destruct (returnModeEnabled s) eqn:E. }
  assert (Hpend : pendingReturnCompletion s' = fill_all (pendingReturnCompletion s) 0%Z).
  { unfold s', setReturnMode.
    change (returnModeEnabled (set_pendingReturnCompletion _ _)) with (returnModeEnabled s).
    now destruct (returnModeEnabled s). }
  repeat split; try assumption.
  - unfold s', setReturnMode.
    change (returnModeEnabled (set_pendingReturnCompletion _ _)) with (returnModeEnabled s).
    now destruct (returnModeEnabled s).
  - intros i. unfold pendingOf. rewrite Hpend. unfold fill_all, aget.
    rewrite list_lookup_fmap. now destruct (pendingReturnCompletion s !! i).
  - unfold s', setReturnMode.
    change (returnModeEnabled (set_pendingReturnCompletion _ _)) with (returnModeEnabled s).
    now destruct (returnModeEnabled s).
  - assert (Ht : _getTimeUniform s = _getTimeUniform s').
    { unfold s', setReturnMode.
      change (returnModeEnabled (set_pendingReturnCompletion _ _)) with (returnModeEnabled s).
      now destruct (returnModeEnabled s). }
    rewrite Ht. clear Ht Hpend. revert Hp He. generalize s'. clear.
    induction dts as [|dt dts IH]; intros s Hp He.
    + cbn. now destruct s as [? ? ? ? ? ? ? ? ? ? ? ? ? ? ? ? ? [] ? ?].
    + rewrite updates_cons. cbn [fold_left].
      assert (E : update dt s = set_time (_getTimeUniform s + dt) s).
      { unfold update, _reconcileReturnMode. fold (advanced dt s).
        change (returnModePreferred (advanced dt s)) with (returnModePreferred s).
        change (returnModeEnabled (advanced dt s)) with (returnModeEnabled s).
        now rewrite Hp, He. }
      rewrite E, IH by (rewrite ?E; assumption).
      reflexivity.
Qed.


(** *** Leaving round-trip mode: the disable request *)

Lemma disableStep_cases T st i :
  let st' := disableStep T st i in
  (dlVisible st i = false /\ st' = st)
  \/ (dlVisible st i = true
      /\ st' = mkDisableLoop
                 (if negb (gtb (dlCycle T st i) (1 + epsilon)) && gtb (dlCycle T st i) (1 - epsilon)
                  then aset (dl_params st) (i * 4) (_wrapProgress (dlPhase st i - 1) period)
                  else dl_params st)
                 (aset (dl_pending st) i
                    (if gtb (dlCycle T st i) (1 + epsilon) then 1%Z else 0%Z))
                 (if negb (gtb (dlCycle T st i) (1 + epsilon)) && gtb (dlCycle T st i) (1 - epsilon)
                  then true else dl_needsUpdate st)).
Proof.
  unfold disableStep, dlVisible, dlCycle, dlSpeed, dlPhase.
  destruct (ltb (aget 0 (dl_params st) (i * 4 + 3)) 0.5); cbn [negb]; [now left|].
  right. split; [reflexivity|].
  destruct (gtb _ (1 + epsilon)); cbn [negb andb]; [reflexivity|].
  destruct (gtb _ (1 - epsilon)); reflexivity.
Qed.

Lemma disableStep_params_other T st i idx :
  idx <> (i * 4)%nat ->
  aget 0 (dl_params (disableStep T st i)) idx = aget 0 (dl_params st) idx.
Proof.
  intros Hne.
  destruct (disableStep_cases T st i) as [[_ ->]|[_ ->]]; [reflexivity|].
  cbn [dl_params]. destruct (_ && _); [|reflexivity].
  apply aget_aset_ne. congruence.
Qed.

Lemma disableStep_pending_other T st i j :
  j <> i ->
  aget 0%Z (dl_pending (disableStep T st i)) j = aget 0%Z (dl_pending st) j.
Proof.
  intros Hne.
  destruct (disableStep_cases T st i) as [[_ ->]|[_ ->]]; [reflexivity|].
  cbn [dl_pending]. apply aget_aset_ne. congruence.
Qed.

Lemma disableStep_slot_fixed T st i j :
  dlSpeed (disableStep T st i) j = dlSpeed st j
  /\ dlVisible (disableStep T st i) j = dlVisible st j.
Proof.
  unfold dlSpeed, dlVisible. rewrite !disableStep_params_other by lia. auto.
Qed.

Lemma disableStep_slot_other T st i j :
  j <> i ->
  dlPhase (disableStep T st i) j = dlPhase st j
  /\ dlPending (disableStep T st i) j = dlPending st j.
Proof.
  intros Hne. unfold dlPhase, dlPending. split.
  - apply disableStep_params_other. lia.
  - f_equal. now apply disableStep_pending_other.
Qed.

Lemma disableFold_slot_fixed T l st j :
  dlSpeed (fold_left (disableStep T) l st) j = dlSpeed st j
  /\ dlVisible (fold_left (disableStep T) l st) j = dlVisible st j.
Proof.
  revert st. induction l as [|a l IH]; intros st; cbn; [auto|].
  destruct (IH (disableStep T st a)) as [-> ->]. apply disableStep_slot_fixed.
Qed.

Lemma disableFold_slot_other T l st j :
  j ∉ l ->
  dlPhase (fold_left (disableStep T) l st) j = dlPhase st j
  /\ dlPending (fold_left (disableStep T) l st) j = dlPending st j.
Proof.
  revert st. induction l as [|a l IH]; intros st Hj; cbn; [auto|].
  apply not_elem_of_cons in Hj as [Hne Hj].
  destruct (IH (disableStep T st a)) as [-> ->]; [assumption|].
  now apply disableStep_slot_other.
Qed.

Lemma disableFold_slot_hidden T l st j :
  dlVisible st j = false ->
  dlPhase (fold_left (disableStep T) l st) j = dlPhase st j
  /\ dlPending (fold_left (disableStep T) l st) j = dlPending st j.
Proof.
  revert st. induction l as [|a l IH]; intros st Hv; cbn; [auto|].
  destruct (IH (disableStep T st a)) as [-> ->].
  { destruct (disableStep_slot_fixed T st a j) as [_ ->]. exact Hv. }
  destruct (Nat.eq_dec j a) as [->|Hne].
  - destruct (disableStep_cases T st a) as [[_ ->]|[Hv' _]]; [auto|congruence].
  - now apply disableStep_slot_other.
Qed.

Lemma disableFold_slot_visited T l st i :
  NoDup l -> i ∈ l ->
  (i * 4 < length (dl_params st))%nat -> (i < length (dl_pending st))%nat ->
  dlVisible st i = true ->
  dlPhase (fold_left (disableStep T) l st) i
  = disabledPhase (dlCycle T st i) (dlPhase st i)
  /\ dlPending (fold_left (disableStep T) l st) i = disabledPending (dlCycle T st i).
Proof.
  revert st. induction l as [|a l IH]; intros st Hnd Hin Hl1 Hl2 Hv; cbn.
  { now apply elem_of_nil in Hin. }
  apply NoDup_cons in Hnd as [Ha Hnd].
  destruct (Nat.eq_dec i a) as [->|Hne].
  - clear IH.
    destruct (disableFold_slot_other T l (disableStep T st a) a Ha) as [-> ->].
    destruct (disableStep_cases T st a) as [[Hv' _]|[_ ->]]; [congruence|].
    unfold dlPhase at 1, dlPending at 1, disabledPhase, disabledPending.
    cbn [dl_params dl_pending].
    rewrite aget_aset_eq by assumption.
    destruct (gtb (dlCycle T st a) (1 + epsilon)); cbn [negb andb].
    + split; reflexivity.
    + destruct (gtb (dlCycle T st a) (1 - epsilon)).
      * rewrite aget_aset_eq by assumption. split; reflexivity.
      * split; reflexivity.
  - apply elem_of_cons in Hin as [?|Hin]; [congruence|].
    destruct (disableStep_slot_other T st a i Hne) as [Hph Hpd].
    destruct (disableStep_slot_fixed T st a i) as [Hsp Hvi].
    destruct (disableStep_lengths T st a) as [E1 E2].
    destruct (IH (disableStep T st a)) as [-> ->]; auto; try congruence.
    unfold dlCycle. rewrite Hsp, Hph. auto.
Qed.

(** The disable request [setReturnMode(false)], instance by instance: an
    active visible instance is flagged exactly when its cycle exceeds
    1 + 1e-4; one within 1e-4 of the turning point is rewound by one unit
    instead; every other instance keeps its flag and its phase; no speed or
    visibility changes, and [returnModeEnabled] is left as it was. *)
Theorem setReturnMode_false_classifies (s : t) :
  wf s ->
  let s' := setReturnMode false s in
  returnModePreferred s' = false
  /\ returnModeEnabled s' = returnModeEnabled s
  /\ forall i,
      speedOf s' i = speedOf s i /\ visibleOf s' i = visibleOf s i
      /\ (activeOf s i = true -> visibleOf s i = true ->
          pendingOf s' i = disabledPending (cycleOf s i)
          /\ phaseOf s' i = disabledPhase (cycleOf s i) (phaseOf s i))
      /\ (activeOf s i = false \/ visibleOf s i = false ->
          pendingOf s' i = pendingOf s i /\ phaseOf s' i = phaseOf s i).
Proof.
  intros [Hp Hq Ha] s'.
  set (st0 := mkDisableLoop (animationParams s) (pendingReturnCompletion s) false).
  set (st := fold_left (disableStep (_getTimeUniform s)) (activeIndices s) st0).
  assert (Eparams : animationParams s' = dl_params st).
  { unfold s', setReturnMode. change (fold_left _ _ _) with st.
    now destruct (dl_needsUpdate st). }
  assert (Epend : pendingReturnCompletion s' = dl_pending st).
  { unfold s', setReturnMode. change (fold_left _ _ _) with st.
    now destruct (dl_needsUpdate st). }
  split; [|split].
  - unfold s', setReturnMode. change (fold_left _ _ _) with st.
    now destruct (dl_needsUpdate st).
  - unfold s', setReturnMode. change (fold_left _ _ _) with st.
    now destruct (dl_needsUpdate st).
  - intros i.
    destruct (disableFold_slot_fixed (_getTimeUniform s) (activeIndices s) st0 i)
      as [Hsp Hvi].
    fold st in Hsp, Hvi.
    unfold speedOf, visibleOf, pendingOf, phaseOf. rewrite Eparams, Epend.
    split; [exact Hsp|]. split; [exact Hvi|]. split.
    + intros Hact Hvis.
      apply elem_of_activeIndices in Hact.
      assert (Hi : (i < maxPanes s)%nat).
      { apply elem_of_activeIndices in Hact. unfold activeOf in Hact.
        apply Z.ltb_lt in Hact. lia. }
      destruct (disableFold_slot_visited (_getTimeUniform s) (activeIndices s) st0 i)
        as [H1 H2];
        [apply NoDup_activeIndices | exact Hact | cbn; lia | cbn; lia | exact Hvis |].
      split; [exact H2 | exact H1].
    + intros [Hact|Hvis].
      * destruct (disableFold_slot_other (_getTimeUniform s) (activeIndices s) st0 i)
          as [H1 H2].
        { rewrite elem_of_activeIndices. congruence. }
        split; [exact H2 | exact H1].
      * destruct (disableFold_slot_hidden (_getTimeUniform s) (activeIndices s) st0 i Hvis)
          as [H1 H2].
        split; [exact H2 | exact H1].
Qed.

Lemma setReturnMode_false_classifies_witness :
  pendingOf (setReturnMode false (set_returnModePreferred true (draining 15))) 0
  = disabledPending (cycleOf (draining 15) 0).
Proof.
  destruct (setReturnMode_false_classifies (set_returnModePreferred true (draining 15)))
    as (_ & _ & H).
  - split; cbn; lia.
  - destruct (H 0%nat) as (_ & _ & H1 & _).
    now destruct H1.
Defined.


(** *** Leaving round-trip mode: the frames that drain it *)

Lemma reconcileFold_unflagged T l st i :
  NoDup l -> i ∈ l ->
  (i * 4 < length (rl_params st))%nat ->
  rlVisible st i = true -> rlPending st i = false ->
  let st' := fold_left (reconcileStep T) l st in
  rlPending st' i = false
  /\ rlPhase st' i
     = (if gtb (rlCycle T st i) (1 + epsilon)
        then _wrapProgress (rlPhase st i - 1) period else rlPhase st i).
Proof.
  revert st. induction l as [|a l IH]; intros st Hnd Hin Hlen Hv Hp; cbn.
  { now apply elem_of_nil in Hin. }
  apply NoDup_cons in Hnd as [Ha Hnd].
  destruct (Nat.eq_dec i a) as [->|Hne].
  - clear IH.
    destruct (reconcileFold_slot_other T l (reconcileStep T st a) a Ha) as [-> ->].
    destruct (reconcileStep_cases T st a)
      as [[Hv' _]|[(_ & Hp0 & _)|[(_ & Hp0 & _)|[(_ & _ & Hc & ->)|(_ & _ & Hc & ->)]]]];
      try congruence; rewrite Hc.
    + unfold rlPending, rlPhase in *. cbn [rl_params rl_pending].
      rewrite aget_aset_eq by assumption. auto.
    + auto.
  - apply elem_of_cons in Hin as [?|Hin]; [congruence|].
    destruct (reconcileStep_slot_other T st a i Hne) as [Hph Hpd].
    destruct (reconcileStep_slot_fixed T st a i) as [Hsp Hvi].
    destruct (reconcileStep_lengths T st a) as [E1 E2].
    destruct (IH (reconcileStep T st a)) as [-> ->]; auto; try congruence.
    rewrite (rlCycle_ext T st _ i Hsp Hph), Hph. auto.
Qed.

(** A whole number of round trips does not change the one-way progress. *)
Lemma oneWay_of_roundTrip x y :
  _wrapProgress (x + _wrapProgress y 2) 1 == _wrapProgress (x + y) 1.
Proof.
  destruct (wrapProgress_congr y 2) as [k Hk]; [reflexivity|].
  rewrite Hk.
  setoid_replace (x + (y + inject_Z k * 2)) with (x + y + inject_Z (2 * k) * 1)
    using relation Qeq by (rewrite inject_Z_mult; change (inject_Z 2) with 2; ring).
  apply wrapProgress_shift. reflexivity.
Qed.




(** *** Pending flags stay within the active instances *)

Lemma aget_fill_range (a : list Z) (lo hi : Z) i :
  (0 <= lo)%Z -> (0 <= hi)%Z ->
  aget 0%Z (fill_range a 0%Z lo hi) i
  = if (Z.of_nat i <? lo)%Z || (hi <=? Z.of_nat i)%Z then aget 0%Z a i else 0%Z.
Proof.
  intros Hlo Hhi. unfold fill_range, aget. rewrite list_lookup_imap.
  destruct (a !! i) as [x|] eqn:E; cbn [fmap option_fmap option_map default].
  2:{ now destruct (_ || _). }
  apply lookup_lt_Some in E.
  unfold fill_bound.
  assert (E1 : (lo <? 0)%Z = false) by (apply Z.ltb_ge; lia).
  assert (E2 : (hi <? 0)%Z = false) by (apply Z.ltb_ge; lia).
  rewrite E1, E2.
  set (c := (Nat.min (Z.to_nat lo) (length a) <=? i)%nat
            && (i <? Nat.min (Z.to_nat hi) (length a))%nat).
  assert (Ec : c = negb ((Z.of_nat i <? lo)%Z || (hi <=? Z.of_nat i)%Z)).
  { apply eq_true_iff_eq. unfold c.
    rewrite andb_true_iff, negb_true_iff, orb_false_iff,
      Nat.leb_le, Nat.ltb_lt, Z.ltb_ge, Z.leb_gt. lia. }
  rewrite Ec. now destruct (_ || _).
Qed.

Lemma pendingOf_setReturnMode_false s i :
  pendingOf (setReturnMode false s) i = true ->
  activeOf s i = true \/ pendingOf s i = true.
Proof.
  destruct (activeOf s i) eqn:Hact; [now left|right].
  revert H. unfold pendingOf, setReturnMode.
  match goal with |- context [dl_needsUpdate ?x] =>
    assert (E : dlPending x i
                = dlPending (mkDisableLoop (animationParams s)
                               (pendingReturnCompletion s) false) i);
    [|destruct (dl_needsUpdate x)] end.
  { apply disableFold_slot_other.
    change (activeIndices (set_returnModePreferred false s)) with (activeIndices s).
    rewrite elem_of_activeIndices. congruence. }
  - intros H. cbn in H. unfold dlPending in E. cbn in E. now rewrite <- E.
  - intros H. cbn in H. unfold dlPending in E. cbn in E. now rewrite <- E.
Qed.

Lemma flagsWithinActive_call s c :
  match c with CallSetActivePaneCount n => (0 <= n)%Z | _ => True end ->
  flagsWithinActive s -> flagsWithinActive (call s c).
Proof.
  intros Hc H i.
  destruct c as [index controlPoints|enabled|index c|index size|index offset
                |index speed|index mode|index|deltaTime|n|visible|hasTexture info
                |index k]; cbn [call].
  - unfold setCurveControlPoints. destruct (outOfRange index s); [apply H|].
    destruct controlPoints as [|p0 [|p1 [|p2 [|p3 ?]]]]; apply H.
  - destruct enabled.
    + intros Hp. rewrite pendingOf_setReturnMode_true in Hp. discriminate.
    + intros Hp. apply pendingOf_setReturnMode_false in Hp as [Ha|Hp].
      * unfold activeOf, setReturnMode in *.
        match goal with |- context [dl_needsUpdate ?x] => destruct (dl_needsUpdate x) end;
          exact Ha.
      * apply H in Hp. unfold activeOf, setReturnMode in *.
        match goal with |- context [dl_needsUpdate ?x] => destruct (dl_needsUpdate x) end;
          exact Hp.
  - unfold setPaneColor. destruct (outOfRange index s); apply H.
  - unfold setPaneSize. destruct (outOfRange index s); apply H.
  - unfold setElevationOffset. destruct (outOfRange index s); apply H.
  - unfold setAnimationSpeed. destruct (outOfRange index s); apply H.
  - unfold setTiltMode. destruct (outOfRange index s); apply H.
  - unfold hidePane. destruct (outOfRange index s); apply H.
  - intros Hp. rewrite activeOf_update. apply H.
    now apply pendingOf_update_mono with deltaTime.
  - unfold setActivePaneCount, pendingOf, activeOf.
    set (newCount := Z.min n (Z.of_nat (maxPanes s))).
    assert (0 <= newCount)%Z by (unfold newCount; lia).
    destruct (newCount <? activePanes s)%Z eqn:E.
    + apply Z.ltb_lt in E. cbn [pendingReturnCompletion set_pendingReturnCompletion
                                  set_activePanes activePanes].
      rewrite aget_fill_range by lia.
      destruct (Z.of_nat i <? newCount)%Z eqn:E1; cbn [orb]; [reflexivity|].
      destruct (activePanes s <=? Z.of_nat i)%Z eqn:E2; [|discriminate].
      intros Hp. apply H in Hp. unfold activeOf in Hp.
      apply Z.ltb_lt in Hp. apply Z.leb_le in E2. lia.
    + apply Z.ltb_ge in E. cbn. intros Hp. apply H in Hp. unfold activeOf in Hp.
      apply Z.ltb_lt in Hp. apply Z.ltb_lt. lia.
  - apply H.
  - unfold setTexture. destruct hasTexture, info; apply H.
  - unfold setTextureIndex. destruct (outOfRange index s); [apply H|].
    destruct (atlasInfo s); apply H.
Qed.

(** As long as [setActivePaneCount] is never given a negative count, every
    pending flag of a reachable renderer belongs to an active instance:
    lowering the active count clears the flags of the instances it
    deactivates. *)
Theorem pending_flags_within_active (options : PlanesShaderOptions) (rand : nat -> Q)
    (calls : list Call) :
  countsNonNegative calls ->
  flagsWithinActive (run calls (constructor options rand)).
Proof.
  intros Hc.
  assert (H0 : flagsWithinActive (constructor options rand)).
  { intros i. unfold pendingOf, constructor, aget. cbn.
    destruct (repeat 0%Z _ !! i) as [x|] eqn:E; [|discriminate].
    apply list_elem_of_lookup_2, list_elem_of_In, repeat_spec in E. now subst. }
  revert H0. generalize (constructor options rand).
  induction Hc as [|c calls Hc _ IH]; intros s H; [exact H|].
  apply (IH (call s c)). now apply flagsWithinActive_call.
Qed.

Lemma pending_flags_within_active_witness :
  flagsWithinActive
    (run [CallSetCurveControlPoints 0 fourPoints; CallSetActivePaneCount 1;
          CallUpdate 15; CallSetReturnMode false; CallSetActivePaneCount 0]
       (constructor (mkOptions (Some 1%nat) None (Some true) None) (fun _ => 0))).
Proof.
  apply pending_flags_within_active.
  repeat constructor; lia.
Defined.


(** *** Texture regions *)

(** The double remainder of [setTextureIndex] is the mathematical modulo. *)
Lemma rem_rem_mod k c : (0 < c)%Z -> Z.rem (Z.rem k c + c) c = (k mod c)%Z.
Proof.
  intros Hc.
  pose proof (Z.rem_bound_abs k c ltac:(lia)) as Hb.
  pose proof (Z.quot_rem' k c) as Hq.
  rewrite Z.rem_mod_nonneg by lia.
  replace (Z.rem k c + c)%Z with (k + (1 - Z.quot k c) * c)%Z by lia.
  apply Z_mod_plus_full.
Qed.

(** With an atlas, [setTextureIndex] writes the rectangle of the slot
    [(textureIndex mod count) mod (columns * rows)]: its column is within the
    columns, its row within the rows, a negative or too large index wraps
    around, and no other instance's rectangle changes.  Non-positive columns
    and rows count as 1; a zero count counts as [columns * rows]. *)
Theorem setTextureIndex_region (s : t) (index textureIndex : Z) (a : InternalAtlasInfo) :
  sized s ->
  (0 <= index < Z.of_nat (maxPanes s))%Z ->
  atlasInfo s = Some a ->
  let i := Z.to_nat index in
  let cols := Z.max 1 (columns a) in
  let rws := Z.max 1 (rows a) in
  let cnt := Z.max 1 (orZ (count a) (cols * rws)) in
  let slot := ((textureIndex mod cnt) mod (cols * rws))%Z in
  let sx := orQ (scaleX a) (1 / inject_Z cols) in
  let sy := orQ (scaleY a) (1 / inject_Z rws) in
  let s' := setTextureIndex index textureIndex s in
  readUvTransform s' i
  = [inject_Z (slot mod cols) * sx; inject_Z (slot / cols) * sy; sx; sy]
  /\ (0 <= slot mod cols < cols)%Z /\ (0 <= slot / cols < rws)%Z
  /\ (forall j, j <> i -> readUvTransform s' j = readUvTransform s j)
  /\ (forall n, setTextureIndex index (textureIndex + n * cnt) s = s').
Proof.
  intros Hs Hr Ha i cols rws cnt slot sx sy s'.
  destruct Hs as [[Hp Hq Hact] H1 H2 H3 H4 H5 H6 H7 H8].
  assert (Hi : (i < maxPanes s)%nat) by (unfold i; lia).
  assert (E : outOfRange index s = false).
  { unfold outOfRange. rewrite orb_false_iff, Z.ltb_ge, Z.leb_gt. lia. }
  assert (Ecols : Z.max 1 (orZ (columns a) 1) = cols).
  { unfold cols, orZ. destruct (columns a =? 0)%Z eqn:E0; [apply Z.eqb_eq in E0|]; lia. }
  assert (Erws : Z.max 1 (orZ (rows a) 1) = rws).
  { unfold rws, orZ. destruct (rows a =? 0)%Z eqn:E0; [apply Z.eqb_eq in E0|]; lia. }
  assert (Hcols : (0 < cols)%Z) by (unfold cols; lia).
  assert (Hrws : (0 < rws)%Z) by (unfold rws; lia).
  assert (Hcnt : (0 < cnt)%Z) by (unfold cnt; lia).
  assert (Htot : (0 < cols * rws)%Z) by nia.
  assert (Hslot : (0 <= slot < cols * rws)%Z) by (apply Z.mod_pos_bound; lia).
  assert (Eslot : forall k,
             Z.rem (Z.rem (Z.rem k cnt + cnt) cnt) (cols * rws)
             = ((k mod cnt) mod (cols * rws))%Z).
  { intros k. rewrite rem_rem_mod by lia.
    apply Z.rem_mod_nonneg; [|lia]. apply Z.mod_pos_bound. lia. }
  assert (Es' : forall k,
             setTextureIndex index k s
             = mark mark_instanceUVTransform
                 (set_instanceUvTransforms
                    (let slot := ((k mod cnt) mod (cols * rws))%Z in
                     aset (aset (aset (aset (instanceUvTransforms s) (i * 4)
                                         (inject_Z (slot mod cols) * sx))
                                   (i * 4 + 1) (inject_Z (slot / cols) * sy))
                             (i * 4 + 2) sx)
                       (i * 4 + 3) sy) s)).
  { intros k. unfold setTextureIndex. rewrite E, Ha.
    cbv zeta. rewrite Ecols, Erws. fold cnt. rewrite Eslot.
    fold i. fold sx. fold sy.
    rewrite Z.rem_mod_nonneg by (try lia; apply Z.mod_pos_bound; lia).
    reflexivity. }
  split; [|split; [|split; [|split]]].
  - unfold s'. rewrite Es'. unfold readUvTransform. cbn. fold slot.
    aget_aset. reflexivity.
  - apply Z.mod_pos_bound. lia.
  - split.
    + apply Z.div_pos; lia.
    + apply Z.div_lt_upper_bound; lia.
  - intros j Hj. unfold s'. rewrite Es'. unfold readUvTransform. cbn.
    aget_aset. reflexivity.
  - intros n. unfold s'. rewrite !Es'. now rewrite Z_mod_plus_full.
Qed.


Lemma setTextureIndex_region_witness :
  let s := setTexture true (Some (mkAtlasInfo 4 2 8 (Some (0.25, 0.5)))) (draining 15) in
  setTextureIndex 0 (-3 + 1 * 8) s = setTextureIndex 0 (-3) s.
Proof.
  intros s.
  assert (Hr : (0 <= 0 < Z.of_nat (maxPanes s))%Z) by (cbn; lia).
  assert (Hs : sized s) by ((split; [split|..]); cbn; solve [reflexivity | lia]).
  destruct (setTextureIndex_region s 0 (-3)
              (mkInternalAtlasInfo 4 2 8 0.25 0.5) Hs Hr eq_refl)
    as (_ & _ & _ & _ & H).
  exact (H 1%Z).
Defined.

End PlanesShaderMore.

(** ** More on the flight *)

Module FlightMore.

Import JS JSFacts Flight Scenes FlightFacts.
Open Scope Q_scope.

(** *** The smoothed speed stays between the old speed and the target *)

Lemma smoothedSpeed_between sp tg fr :
  0 <= fr -> fr <= 1 ->
  (sp <= tg -> sp <= smoothedSpeed sp tg fr /\ smoothedSpeed sp tg fr <= tg)
  /\ (tg <= sp -> tg <= smoothedSpeed sp tg fr /\ smoothedSpeed sp tg fr <= sp).
Proof.
  intros H0 H1. unfold smoothedSpeed.
  destruct (ltb (abs (tg - (sp + (tg - sp) * fr))) 0.0001); split; intros H;
    split; try lra; nra.
Qed.

(** A frame never overshoots: for a non-negative [deltaTime] the active speed
    after [update] lies between the active speed before and the target, and
    it is the target when [deltaTime] is 0 or at least 1/6. *)
Theorem update_never_overshoots (w : World) (dt : Q) :
  0 <= dt ->
  let f := fst w in
  let f' := fst (update dt w) in
  (animationSpeed f <= animationSpeedTarget f ->
   animationSpeed f <= animationSpeed f' /\ animationSpeed f' <= animationSpeedTarget f)
  /\ (animationSpeedTarget f <= animationSpeed f ->
      animationSpeedTarget f <= animationSpeed f' /\ animationSpeed f' <= animationSpeed f)
  /\ (dt == 0 \/ (1 # 6) <= dt -> animationSpeed f' == animationSpeedTarget f).
Proof.
  intros Hdt f f'.
  destruct (update_speed dt w) as [Es _].
  destruct (smoothing_speed dt w Hdt) as [_ E].
  fold f in E. unfold f'. rewrite Es, E. clear Es E.
  destruct (frameFraction_range dt Hdt) as [H0 H1].
  destruct (smoothedSpeed_between (animationSpeed f) (animationSpeedTarget f)
              (frameFraction dt) H0 H1) as [Hup Hdown].
  split; [exact Hup|]. split; [exact Hdown|].
  intros Hfull.
  assert (Efr : frameFraction dt == 1).
  { unfold frameFraction. destruct (Qeq_bool dt 0) eqn:E0; [reflexivity|].
    destruct Hfull as [Hz|Hbig].
    - apply Qeq_bool_iff in Hz. congruence.
    - destruct (min_spec 1 (dt * 6)) as [[_ ->]|[Hlt _]]; [reflexivity|lra]. }
  unfold smoothedSpeed.
  destruct (ltb _ 0.0001); [reflexivity|]. rewrite Efr. ring.
Qed.

Lemma update_never_overshoots_witness :
  let w := setAnimationSpeed 0.2 (mkSpeedOptions false) cruising in
  animationSpeed (fst w) <= animationSpeed (fst (update 0.05 w))
  /\ animationSpeed (fst (update 0.05 w)) <= animationSpeedTarget (fst w).
Proof.
  intros w.
  destruct (update_never_overshoots w 0.05) as (H & _ & _).
  - vm_compute. discriminate.
  - apply H. vm_compute. discriminate.
Defined.


(** *** The flight and the shared renderer *)

Lemma paneIndex_inRange index (s : PlanesShader.t) :
  (0 <= index < Z.of_nat (PlanesShader.maxPanes s))%Z ->
  PlanesShader.outOfRange index s = false.
Proof.
  intros H. unfold PlanesShader.outOfRange.
  rewrite orb_false_iff, Z.ltb_ge, Z.leb_gt. lia.
Qed.

(** A flight that drives a slot of the shader renderer hands it every change
    of its speed, and the renderer keeps the 32-bit rounding of that speed.
    The progress of the slot afterwards is the one before, displaced by
    [time * (fround speed - speed)] and by the rounding of the re-derived
    phase, modulo the period; the plane stays where it was when the speed
    and the re-derived phase are 32-bit floats.  [setAnimationSpeed] hands
    the renderer the target speed at once, whatever the immediate option; a
    frame of [update] leaves the renderer untouched when the active speed
    already equalled the target, and hands it the new active speed
    otherwise. *)
Theorem flight_speed_change_displacement (f : t) (panes : PlanesShader.t) (v dt : Q)
    (options : AnimationSpeedOptions) :
  drivesShader f = true ->
  PlanesShader.wf panes ->
  (paneIndex f < Z.of_nat (PlanesShader.maxPanes panes))%Z ->
  let i := Z.to_nat (paneIndex f) in
  (let panes' := snd (setAnimationSpeed v options (f, panes)) in
   PlanesShader.speedOf panes' i = JS.fround v
   /\ PlanesShader.progressOf panes' i == PlanesShader.progressAfterSpeedChange panes i v
   /\ (JS.fround v == v ->
       JS.fround (PlanesShader.rederivedPhase panes i v)
       == PlanesShader.rederivedPhase panes i v ->
       PlanesShader.progressOf panes' i == PlanesShader.progressOf panes i))
  /\ (let f' := fst (update dt (f, panes)) in
      let panes' := snd (update dt (f, panes)) in
      (animationSpeed f == animationSpeedTarget f -> panes' = panes)
      /\ (~ animationSpeed f == animationSpeedTarget f ->
          PlanesShader.speedOf panes' i = JS.fround (animationSpeed f')
          /\ PlanesShader.progressOf panes' i
             == PlanesShader.progressAfterSpeedChange panes i (animationSpeed f')
          /\ (JS.fround (animationSpeed f') == animationSpeed f' ->
              JS.fround (PlanesShader.rederivedPhase panes i (animationSpeed f'))
              == PlanesShader.rederivedPhase panes i (animationSpeed f') ->
              PlanesShader.progressOf panes' i == PlanesShader.progressOf panes i))).
Proof.
  intros Hd Hwf Hlt i.
  assert (Hr : (0 <= paneIndex f < Z.of_nat (PlanesShader.maxPanes panes))%Z).
  { unfold drivesShader in Hd. rewrite !andb_true_iff, Z.leb_le in Hd. lia. }
  pose proof (paneIndex_inRange _ _ Hr) as Hin.
  split.
  - unfold setAnimationSpeed.
    assert (Hd' : drivesShader (set_animationSpeedTarget v f) = true) by exact Hd.
    rewrite Hd'.
    change (paneIndex (set_animationSpeedTarget v f)) with (paneIndex f).
    destruct (PlanesShaderFacts.setAnimationSpeed_displacement panes (paneIndex f) v Hwf Hin)
      as (_ & _ & H1 & _ & H2 & H3).
    destruct (immediate options); cbn [snd]; (split; [exact H1|split; [exact H2|exact H3]]).
  - assert (Esnd : snd (update dt (f, panes)) = snd (_applyAnimationSpeedSmoothing dt (f, panes))).
    { unfold update. destruct (_applyAnimationSpeedSmoothing dt (f, panes)) as [f1 p1].
      destruct (_isShaderBasedPanes f1); [reflexivity|].
      destruct (_ || _); reflexivity. }
    destruct (update_speed dt (f, panes)) as [Efst _].
    cbn zeta. rewrite Esnd, Efst. clear Esnd Efst.
    unfold _applyAnimationSpeedSmoothing.
    destruct (ltb (abs (animationSpeedTarget f - animationSpeed f)) 0.00001) eqn:Enear.
    + destruct (Qeq_bool (animationSpeed f) (animationSpeedTarget f)) eqn:Eeq;
        cbn [negb andb snd fst].
      * apply Qeq_bool_iff in Eeq. split; [reflexivity|].
        intros Hne. contradiction.
      * rewrite Hd.
        destruct (PlanesShaderFacts.setAnimationSpeed_displacement panes (paneIndex f)
                    (animationSpeedTarget f) Hwf Hin) as (_ & _ & H1 & _ & H2 & H3).
        split.
        -- intros Heq. apply Qeq_bool_iff in Heq. congruence.
        -- intros _. split; [exact H1|split; [exact H2|exact H3]].
    + apply abs_ge in Enear.
      match goal with |- context [if drivesShader ?g then _ else _] =>
        assert (Hd' : drivesShader g = true);
        [|assert (Hi' : paneIndex g = paneIndex f);
          [|set (g' := g) in *] ] end.
      { destruct (ltb _ 0.0001); exact Hd. }
      { destruct (ltb _ 0.0001); reflexivity. }
      rewrite Hd', Hi'. cbn [fst snd].
      destruct (PlanesShaderFacts.setAnimationSpeed_displacement panes (paneIndex f)
                  (animationSpeed g') Hwf Hin) as (_ & _ & H1 & _ & H2 & H3).
      split.
      * intros Heq. exfalso. destruct Enear; lra.
      * intros _. split; [exact H1|split; [exact H2|exact H3]].
Qed.

Lemma flight_speed_change_displacement_witness :
  PlanesShader.speedOf (snd (update 0.05 (accelerating, draining 3))) 0
  = JS.fround (animationSpeed (fst (update 0.05 (accelerating, draining 3)))).
Proof.
  assert (Hwf : PlanesShader.wf (draining 3)) by (split; cbn; lia).
  assert (Hlt : (paneIndex accelerating < Z.of_nat (PlanesShader.maxPanes (draining 3)))%Z)
    by (cbn; lia).
  destruct (flight_speed_change_displacement accelerating (draining 3) 0.2 0.05
              (mkSpeedOptions false) eq_refl Hwf Hlt) as (_ & _ & H).
  destruct H as (H & _).
  - vm_compute. discriminate.
  - exact H.
Defined.


(** *** Switching a flight between one-way and return motion *)

Lemma rem_unique a b r (k : Z) :
  0 < b -> 0 <= a -> 0 <= r -> r < b -> r == a - inject_Z k * b -> rem a b == r.
Proof.
  intros Hb Ha Hr0 Hr1 Hr.
  destruct (rem_nonneg a b Hb Ha) as [H0 H1].
  assert (Hd : rem a b - r == inject_Z (k - trunc (a / b)) * b).
  { unfold rem at 1. unfold Zminus. rewrite Hr, inject_Z_plus, inject_Z_opp. ring. }
  assert (Hz : (k - trunc (a / b))%Z = 0%Z).
  { apply (PlanesShaderFacts.multiple_small _ b Hb); rewrite <- Hd; lra. }
  rewrite Hz in Hd. change (inject_Z 0) with 0 in Hd. lra.
Qed.

Lemma rem_small a b : 0 < b -> 0 <= a -> a < b -> rem a b == a.
Proof.
  intros Hb H0 H1. apply (rem_unique a b a 0); try assumption.
  change (inject_Z 0) with 0. ring.
Qed.

(** [setReturnFlight] does nothing when the mode is already the requested
    one; otherwise, for a non-negative animation time, it leaves the
    animation time in [0, 1] and the plane where it was on the curve, except
    for a return flight standing exactly at its turning point, which is sent
    from the end of the curve to its start. *)
Theorem setReturnFlight_keeps_position (f : t) (enabled : bool) :
  0 <= animationTime f ->
  let f' := setReturnFlight enabled f in
  returnFlight f' = enabled
  /\ (returnFlight f = enabled -> f' = f)
  /\ (returnFlight f <> enabled -> 0 <= animationTime f' /\ animationTime f' <= 1)
  /\ (pathParameter f' == pathParameter f
      \/ (returnFlight f = true /\ enabled = false
          /\ rem (animationTime f) 2 == 1
          /\ pathParameter f == 1 /\ pathParameter f' == 0)).
Proof.
  intros Ht f'.
  destruct (rem_nonneg (animationTime f) 1 ltac:(reflexivity) Ht) as [H10 H11].
  destruct (rem_nonneg (animationTime f) 2 ltac:(reflexivity) Ht) as [H20 H21].
  unfold f', setReturnFlight, pathParameter.
  destruct (returnFlight f) eqn:Erf, enabled; cbn [Bool.eqb].
  - rewrite Erf. repeat split; try congruence. now left.
  - (* leaving return motion *)
    cbn [returnFlight set_returnFlight set_animationTime animationTime].
    split; [reflexivity|]. split; [congruence|].
    set (cycle := rem (animationTime f) 2) in *.
    destruct (gtb cycle 1) eqn:Ec.
    + apply gtb_gt in Ec.
      split; [intros _; lra|].
      left. apply rem_small; lra.
    + apply gtb_le in Ec.
      split; [intros _; lra|].
      destruct (Qlt_le_dec cycle 1) as [Hlt|Hge].
      * left. apply rem_small; lra.
      * right. assert (E1 : cycle == 1) by lra.
        repeat split; try assumption.
        apply (rem_unique cycle 1 0 1); try lra.
        change (inject_Z 1) with 1. lra.
  - (* entering return motion *)
    cbn [returnFlight set_returnFlight set_animationTime animationTime].
    split; [reflexivity|]. split; [congruence|].
    split; [intros _; lra|].
    left.
    set (r := rem (animationTime f) 1) in *.
    assert (Er : rem r 2 == r) by (apply rem_small; lra).
    destruct (gtb (rem r 2) 1) eqn:Ec.
    + apply gtb_gt in Ec. lra.
    + exact Er.
  - rewrite Erf. repeat split; try congruence. now left.
Qed.

Lemma setReturnFlight_keeps_position_witness :
  pathParameter (setReturnFlight true (set_animationTime 2.75 accelerating))
  == pathParameter (set_animationTime 2.75 accelerating).
Proof.
  destruct (setReturnFlight_keeps_position (set_animationTime 2.75 accelerating) true)
    as (_ & _ & _ & [H|H]).
  - vm_compute. discriminate.
  - exact H.
  - destruct H as (H & _). discriminate H.
Defined.

End FlightMore.


(** ** More on the batched curve renderer *)

Module CurvesMore.

Import V3 Curves CurvesFacts.
Open Scope R_scope.

(** *** Buffer sizes are kept *)

Lemma fold_aset_length {A} (f : nat -> nat) (g : nat -> A) l (buf : list A) :
  List.length (fold_left (fun b k => aset b (f k) (g k)) l buf) = List.length buf.
Proof.
  revert buf. induction l as [|a l IH]; intros buf; cbn; [reflexivity|].
  now rewrite IH, aset_length.
Qed.

Lemma fold_length_preserved {A B} (f : list A -> B -> list A) l (buf : list A) :
  (forall b k, List.length (f b k) = List.length b) ->
  List.length (fold_left f l buf) = List.length buf.
Proof.
  intros Hf. revert buf. induction l as [|a l IH]; intros buf; cbn; [reflexivity|].
  now rewrite IH, Hf.
Qed.

Lemma sampleStep_lengths points off st k :
  List.length (sl_positions (sampleStep points off st k)) = List.length (sl_positions st)
  /\ List.length (sl_lineDistances (sampleStep points off st k))
     = List.length (sl_lineDistances st).
Proof. unfold sampleStep. cbn. now rewrite !aset_length. Qed.

Lemma sampleFold_lengths points off l st :
  List.length (sl_positions (fold_left (sampleStep points off) l st))
  = List.length (sl_positions st)
  /\ List.length (sl_lineDistances (fold_left (sampleStep points off) l st))
     = List.length (sl_lineDistances st).
Proof.
  revert st. induction l as [|a l IH]; intros st; cbn [fold_left]; [auto|].
  destruct (IH (sampleStep points off st a)) as [-> ->].
  apply sampleStep_lengths.
Qed.

Lemma writeSegmentColors_length buf i c0 c1 :
  List.length (writeSegmentColors buf i c0 c1) = List.length buf.
Proof. unfold writeSegmentColors. now rewrite !aset_length. Qed.

Section WithThree.

Context {three : Three}.

Lemma applyColorToCurve_frame curveIndex s :
  let s' := _applyColorToCurve curveIndex s in
  List.length (colors s') = List.length (colors s)
  /\ maxCurves s' = maxCurves s /\ segmentsPerCurve s' = segmentsPerCurve s
  /\ positions s' = positions s /\ lineDistances s' = lineDistances s
  /\ curveData s' = curveData s /\ currentCurveCount s' = currentCurveCount s
  /\ drawRange s' = drawRange s /\ warnings s' = warnings s
  /\ needsPositionUpdate s' = needsPositionUpdate s
  /\ needsLineDistanceUpdate s' = needsLineDistanceUpdate s.
Proof.
  unfold _applyColorToCurve.
  destruct (outOfRange curveIndex s); [repeat split|].
  destruct (negb _); [repeat split|].
  cbn. repeat split.
  apply fold_length_preserved. intros b k.
  destruct (_computeGradientParams _ _); apply writeSegmentColors_length.
Qed.

Lemma sized_setCurve curveIndex controlPoints color metadata s :
  sized s -> sized (setCurve curveIndex controlPoints color metadata s).
Proof.
  intros [H1 H2 H3 H4 H5 H6]. unfold setCurve.
  destruct (outOfRange curveIndex s); [split; assumption|].
  destruct (_ <? 2)%nat; [split; assumption|].
  match goal with |- context [_applyColorToCurve ?i ?x] =>
    destruct (applyColorToCurve_frame i x)
      as (Ec & Em & Es & Ep & El & Ed & _);
    set (y := _applyColorToCurve i x) in * end.
  match type of Ep with _ = positions (set_lineDistances (sl_lineDistances ?st) _) =>
    destruct (sampleFold_lengths
                (catmullRomGetPoints controlPoints (segmentsPerCurve s))
                (Z.to_nat curveIndex * verticesPerCurve s)
                (seq 0 (segmentsPerCurve s))
                (mkSampleLoop (positions s) (lineDistances s) 0)) as [L1 L2] end.
  cbn in Ec, Em, Es, Ep, El, Ed, L1, L2.
  destruct (_ <=? _)%Z; split; unfold verticesPerCurve in *; cbn;
    rewrite ?Ec, ?Em, ?Es, ?Ep, ?El, ?Ed, ?L1, ?L2, ?aset_length; assumption.
Qed.


Lemma sized_setCurveColor curveIndex color metadata s :
  sized s -> sized (setCurveColor curveIndex color metadata s).
Proof.
  intros [H1 H2 H3 H4 H5 H6]. unfold setCurveColor.
  destruct (outOfRange curveIndex s); [split; assumption|].
  destruct (negb _); [split; assumption|].
  match goal with |- context [_applyColorToCurve ?i ?x] =>
    destruct (applyColorToCurve_frame i x)
      as (Ec & Em & Es & Ep & El & Ed & _);
    set (y := _applyColorToCurve i x) in * end.
  cbn in Ec, Em, Es, Ep, El, Ed.
  split; unfold verticesPerCurve in *;
    rewrite ?Ec, ?Em, ?Es, ?Ep, ?El, ?Ed, ?aset_length; assumption.
Qed.

Lemma sized_hideCurve curveIndex s : sized s -> sized (hideCurve curveIndex s).
Proof.
  intros [H1 H2 H3 H4 H5 H6]. unfold hideCurve.
  destruct (outOfRange curveIndex s); [split; assumption|].
  split; unfold verticesPerCurve in *; cbn;
    rewrite ?fold_aset_length, ?aset_length; assumption.
Qed.

Lemma curves_sized_constructor options : sized (constructor options).
Proof.
  unfold constructor.
  destruct (opt_maxCurves options) as [[|m]|], (opt_segmentsPerCurve options) as [[|n]|];
    split; unfold verticesPerCurve; cbn [maxCurves segmentsPerCurve positions colors
      lineDistances curveData]; rewrite ?repeat_length; lia.
Qed.

(** After any sequence of [setCurve], [hideCurve] and [setVisibleCurveCount]
    calls on a constructed renderer the three buffers and the slot records
    still have the sizes the constructor gave them. *)
Theorem run_sized (options : CurvesOptions) (calls : list Call) :
  sized (run calls (constructor options)).
Proof.
  generalize (curves_sized_constructor options). generalize (constructor options).
  induction calls as [|c calls IH]; intros s H; [exact H|].
  apply (IH (call s c)). destruct c; cbn [call].
  - now apply sized_setCurve.
  - now apply sized_hideCurve.
  - destruct H as [H1 H2 H3 H4 H5 H6]. split; assumption.
Qed.

(** *** Showing and hiding a slot *)

Lemma inRange_outOfRange curveIndex s :
  (0 <= curveIndex < Z.of_nat (maxCurves s))%Z -> outOfRange curveIndex s = false.
Proof. intros H. unfold outOfRange. rewrite orb_false_iff, Z.ltb_ge, Z.leb_gt. lia. Qed.

(** For an in-range slot and at least two control points, [setCurve] makes
    the slot visible and raises the count of visible curves to cover it
    (never lowers it); [hideCurve] makes the slot invisible again and leaves
    the count and the draw range as they are; neither changes the
    visibility of another slot; and [setCurveColor] on the hidden slot does
    nothing. *)
Theorem show_hide_slot (s : t) (curveIndex : Z) (controlPoints : list Vec3)
    (color : ColorInput) (metadata : option CurveMetadata) :
  sized s ->
  (0 <= curveIndex < Z.of_nat (maxCurves s))%Z ->
  (2 <= List.length controlPoints)%nat ->
  let shown := setCurve curveIndex controlPoints color metadata s in
  let hidden := hideCurve curveIndex shown in
  isCurveVisible curveIndex shown = true
  /\ currentCurveCount shown = Z.max (currentCurveCount s) (curveIndex + 1)
  /\ isCurveVisible curveIndex hidden = false
  /\ currentCurveCount hidden = currentCurveCount shown
  /\ drawRange hidden = drawRange shown
  /\ (forall j, j <> curveIndex ->
         isCurveVisible j shown = isCurveVisible j s
         /\ isCurveVisible j hidden = isCurveVisible j s)
  /\ (forall color' metadata', setCurveColor curveIndex color' metadata' hidden = hidden).
Proof.
  intros Hs Hr Hlen shown hidden.
  pose proof (sized_setCurve curveIndex controlPoints color metadata s Hs) as Hs'.
  fold shown in Hs'.
  assert (Hi : (Z.to_nat curveIndex < maxCurves s)%nat) by lia.
  assert (Er : outOfRange curveIndex s = false) by (now apply inRange_outOfRange).
  assert (El : (List.length controlPoints <? 2)%nat = false) by (apply Nat.ltb_ge; lia).
  assert (Emax : maxCurves shown = maxCurves s).
  { unfold shown, setCurve. rewrite Er, El.
    match goal with |- context [_applyColorToCurve ?i ?x] =>
      destruct (applyColorToCurve_frame i x) as (_ & Em & _);
      set (y := _applyColorToCurve i x) in * end.
    destruct (_ <=? _)%Z; cbn; rewrite Em; reflexivity. }
  assert (Edata : curveData shown
            = aset (curveData s) (Z.to_nat curveIndex)
                (mkCurveData controlPoints color true metadata)).
  { unfold shown, setCurve. rewrite Er, El.
    match goal with |- context [_applyColorToCurve ?i ?x] =>
      destruct (applyColorToCurve_frame i x) as (_ & _ & _ & _ & _ & Ed & _);
      set (y := _applyColorToCurve i x) in * end.
    destruct (_ <=? _)%Z; cbn; rewrite Ed; reflexivity. }
  assert (Ecount : currentCurveCount shown = Z.max (currentCurveCount s) (curveIndex + 1)).
  { unfold shown, setCurve. rewrite Er, El.
    match goal with |- context [_applyColorToCurve ?i ?x] =>
      destruct (applyColorToCurve_frame i x) as (_ & _ & _ & _ & _ & _ & Ec & _);
      set (y := _applyColorToCurve i x) in * end.
    cbn in Ec. cbn [currentCurveCount set_needsLineDistanceUpdate set_needsPositionUpdate].
    rewrite Ec.
    destruct (currentCurveCount s <=? curveIndex)%Z eqn:E.
    - apply Z.leb_le in E. cbn. lia.
    - apply Z.leb_gt in E. cbn. rewrite Ec. lia. }
  assert (Er' : outOfRange curveIndex shown = false).
  { apply inRange_outOfRange. rewrite Emax. exact Hr. }
  assert (Ehid : curveData hidden
            = aset (curveData shown) (Z.to_nat curveIndex)
                (mkCurveData controlPoints color false metadata)).
  { unfold hidden, hideCurve. rewrite Er'. cbn. rewrite Edata.
    rewrite aget_aset_eq by (destruct Hs; lia). reflexivity. }
  assert (Emaxh : maxCurves hidden = maxCurves s).
  { unfold hidden, hideCurve. rewrite Er'. exact Emax. }
  split; [|split; [|split; [|split; [|split; [|split]]]]].
  - unfold isCurveVisible. rewrite Er', Edata.
    rewrite aget_aset_eq by (destruct Hs; lia). reflexivity.
  - exact Ecount.
  - unfold isCurveVisible.
    rewrite (inRange_outOfRange curveIndex hidden) by (rewrite Emaxh; exact Hr).
    rewrite Ehid, aget_aset_eq; [reflexivity|].
    rewrite Edata, aset_length. destruct Hs. lia.
  - unfold hidden, hideCurve. now rewrite Er'.
  - unfold hidden, hideCurve. now rewrite Er'.
  - intros j Hj. unfold isCurveVisible, outOfRange. rewrite Emaxh, Emax.
    destruct (_ || _) eqn:Ej; [auto|].
    rewrite orb_false_iff, Z.ltb_ge in Ej. destruct Ej as [Ej _].
    rewrite Ehid, Edata.
    rewrite !aget_aset_ne by lia. auto.
  - intros color' metadata'. unfold setCurveColor.
    rewrite (inRange_outOfRange curveIndex hidden) by (rewrite Emaxh; exact Hr).
    rewrite Ehid, aget_aset_eq; [reflexivity|].
    rewrite Edata, aset_length. destruct Hs. lia.
Qed.


End WithThree.

Lemma show_hide_slot_witness :
  let s := constructor (mkOptions (Some 2%nat) (Some 4%nat) None None) in
  let shown := setCurve 1 [zero; mkVector3 1%R 0%R 0%R] (ColorNumber 255) None s in
  isCurveVisible 1 shown = true /\ isCurveVisible 1 (hideCurve 1 shown) = false.
Proof.
  intros s shown.
  assert (Hr : (0 <= 1 < Z.of_nat (maxCurves s))%Z) by (cbn; lia).
  assert (Hl : (2 <= List.length [zero; mkVector3 1%R 0%R 0%R])%nat) by (cbn; lia).
  destruct (show_hide_slot s 1 [zero; mkVector3 1%R 0%R 0%R] (ColorNumber 255) None
              (curves_sized_constructor _) Hr Hl) as (H1 & _ & H2 & _).
  split; [exact H1 | exact H2].
Defined.

(** *** What hiding a slot erases *)

Lemma aget_fold_fill {A} (d z : A) start n (buf : list A) idx :
  (start + n <= List.length buf)%nat ->
  aget d (fold_left (fun b k => aset b (start + k) z) (seq 0 n) buf) idx
  = if (start <=? idx)%nat && (idx <? start + n)%nat then z else aget d buf idx.
Proof.
  induction n as [|n IH]; intros Hlen.
  - cbn [seq fold_left].
    replace (idx <? start + 0)%nat with (idx <? start)%nat by (f_equal; lia).
    destruct (start <=? idx)%nat eqn:E1; cbn [andb]; [|reflexivity].
    destruct (idx <? start)%nat eqn:E2; [|reflexivity].
    apply Nat.leb_le in E1. apply Nat.ltb_lt in E2. lia.
  - rewrite seq_S, fold_left_app. cbn [fold_left Nat.add].
    destruct (Nat.eq_dec idx (start + n)%nat) as [->|Hne].
    + rewrite aget_aset_eq by (rewrite fold_aset_length; lia).
      replace (start <=? start + n)%nat with true by (symmetry; apply Nat.leb_le; lia).
      replace (start + n <? start + S n)%nat with true by (symmetry; apply Nat.ltb_lt; lia).
      reflexivity.
    + rewrite aget_aset_ne by congruence. rewrite IH by lia.
      destruct (start <=? idx)%nat eqn:E1; cbn [andb]; [|reflexivity].
      replace (idx <? start + S n)%nat with (idx <? start + n)%nat; [reflexivity|].
      apply Nat.leb_le in E1.
      destruct (idx <? start + n)%nat eqn:E2; symmetry.
      * apply Nat.ltb_lt in E2. apply Nat.ltb_lt. lia.
      * apply Nat.ltb_ge in E2. apply Nat.ltb_ge. lia.
Qed.

(** [hideCurve] on an in-range slot puts every vertex of the slot at the
    origin with line distance 0, leaves every vertex of the other slots and
    the whole colour buffer as they were, and asks for the position and line
    distance uploads. *)
Theorem hideCurve_erases_slot (s : t) (curveIndex : Z) :
  sized s ->
  (0 <= curveIndex < Z.of_nat (maxCurves s))%Z ->
  let s' := hideCurve curveIndex s in
  let first := (Z.to_nat curveIndex * verticesPerCurve s)%nat in
  (forall v, (first <= v < first + verticesPerCurve s)%nat ->
      vertexPosition s' v = zero /\ vertexDistance s' v = 0)
  /\ (forall v, (v < first \/ first + verticesPerCurve s <= v)%nat ->
         vertexPosition s' v = vertexPosition s v
         /\ vertexDistance s' v = vertexDistance s v)
  /\ colors s' = colors s
  /\ needsPositionUpdate s' = true /\ needsLineDistanceUpdate s' = true.
Proof.
  intros [H1 H2 H3 H4 H5 H6] Hr s' first.
  assert (Hi : (Z.to_nat curveIndex < maxCurves s)%nat) by lia.
  assert (Hfit : (first + verticesPerCurve s <= maxCurves s * verticesPerCurve s)%nat).
  { unfold first. nia. }
  assert (Hp : positions s'
               = fold_left (fun buf k => aset buf (first * 3 + k)%nat 0)
                   (seq 0 (verticesPerCurve s * 3)) (positions s)).
  { unfold s', hideCurve. rewrite (inRange_outOfRange _ _ Hr). reflexivity. }
  assert (Hd : lineDistances s'
               = fold_left (fun buf k => aset buf (first + k)%nat 0)
                   (seq 0 (verticesPerCurve s)) (lineDistances s)).
  { unfold s', hideCurve. rewrite (inRange_outOfRange _ _ Hr). reflexivity. }
  assert (Hc : colors s' = colors s
               /\ needsPositionUpdate s' = true /\ needsLineDistanceUpdate s' = true).
  { unfold s', hideCurve. rewrite (inRange_outOfRange _ _ Hr). repeat split. }
  clearbody s' first.
  unfold vertexPosition, bufferVertex, vertexDistance. rewrite Hp, Hd.
  set (V := verticesPerCurve s) in *. set (M := maxCurves s) in *.
  split; [|split; [|exact Hc]].
  - intros v Hv.
    rewrite !aget_fold_fill by lia.
    repeat match goal with |- context [(?a <=? ?b)%nat] =>
      replace (a <=? b)%nat with true by (symmetry; apply Nat.leb_le; lia) end.
    repeat match goal with |- context [(?a <? ?b)%nat] =>
      replace (a <? b)%nat with true by (symmetry; apply Nat.ltb_lt; lia) end.
    cbn [andb]. split; reflexivity.
  - intros v Hv.
    rewrite !aget_fold_fill by lia.
    assert (Hout1 : ((first <=? v)%nat && (v <? first + V)%nat) = false).
    { apply andb_false_iff. rewrite Nat.leb_gt, Nat.ltb_ge. lia. }
    assert (E3 : forall c, (c < 3)%nat ->
               ((first * 3 <=? v * 3 + c)%nat
                && (v * 3 + c <? first * 3 + V * 3)%nat) = false).
    { intros c Hc3. apply andb_false_iff. rewrite Nat.leb_gt, Nat.ltb_ge. lia. }
    pose proof (E3 0%nat ltac:(lia)) as E30. rewrite Nat.add_0_r in E30.
    rewrite Hout1, E30, (E3 1%nat), (E3 2%nat) by lia.
    split; reflexivity.
Qed.

Lemma hideCurve_erases_slot_witness :
  let s := constructor (mkOptions (Some 2%nat) (Some 4%nat) None None) in
  vertexPosition (hideCurve 1 s) 9 = zero /\ vertexDistance (hideCurve 1 s) 3 = vertexDistance s 3.
Proof.
  intros s.
  assert (Hr : (0 <= 1 < Z.of_nat (maxCurves s))%Z) by (cbn; lia).
  destruct (hideCurve_erases_slot s 1 (curves_sized_constructor _) Hr) as (H & H' & _).
  split; [apply H | apply H']; cbn; lia.
Defined.

(** *** The geometry a curve is given *)

Ltac aget_chain :=
  repeat match goal with
  | |- context [aget ?d (aset ?a ?i ?x) ?j] =>
      first [ replace j with i by lia;
              rewrite (aget_aset_eq d a i x) by (rewrite ?aset_length; lia)
            | rewrite (aget_aset_ne d a i j x) by lia ]
  end.

Lemma sampleStep_vertex points off st m v :
  ((off + m * 2) * 3 + 5 < List.length (sl_positions st))%nat ->
  bufferVertex (sl_positions (sampleStep points off st m)) v
  = if (v =? off + m * 2)%nat then aget zero points m
    else if (v =? off + m * 2 + 1)%nat then aget zero points (m + 1)
    else bufferVertex (sl_positions st) v.
Proof.
  intros Hlen. unfold sampleStep, bufferVertex, verticesPerSegment.
  cbn [sl_positions].
  destruct (v =? off + m * 2)%nat eqn:E1;
    [apply Nat.eqb_eq in E1 | apply Nat.eqb_neq in E1;
     destruct (v =? off + m * 2 + 1)%nat eqn:E2;
       [apply Nat.eqb_eq in E2 | apply Nat.eqb_neq in E2]].
  - subst v. aget_chain. now destruct (aget zero points m).
  - subst v. aget_chain. now destruct (aget zero points (m + 1)).
  - aget_chain. reflexivity.
Qed.

Lemma sampleStep_distance points off st m v :
  (off + m * 2 + 1 < List.length (sl_lineDistances st))%nat ->
  aget 0 (sl_lineDistances (sampleStep points off st m)) v
  = if (v =? off + m * 2)%nat then sl_distance st
    else if (v =? off + m * 2 + 1)%nat
         then sl_distance st + distanceTo (aget zero points m) (aget zero points (m + 1))
         else aget 0 (sl_lineDistances st) v.
Proof.
  intros Hlen. unfold sampleStep, verticesPerSegment.
  cbn [sl_lineDistances].
  destruct (v =? off + m * 2)%nat eqn:E1;
    [apply Nat.eqb_eq in E1 | apply Nat.eqb_neq in E1;
     destruct (v =? off + m * 2 + 1)%nat eqn:E2;
       [apply Nat.eqb_eq in E2 | apply Nat.eqb_neq in E2]].
  - subst v. aget_chain. reflexivity.
  - subst v. aget_chain. reflexivity.
  - aget_chain. reflexivity.
Qed.

Lemma sampleFold_spec points off pos dist m :
  ((off + m * 2) * 3 <= List.length pos)%nat ->
  (off + m * 2 <= List.length dist)%nat ->
  let st := fold_left (sampleStep points off) (seq 0 m) (mkSampleLoop pos dist 0) in
  sl_distance st = arcLength points m
  /\ (forall k, (k < m)%nat ->
        bufferVertex (sl_positions st) (off + k * 2) = aget zero points k
        /\ bufferVertex (sl_positions st) (off + k * 2 + 1) = aget zero points (k + 1)
        /\ aget 0 (sl_lineDistances st) (off + k * 2) = arcLength points k
        /\ aget 0 (sl_lineDistances st) (off + k * 2 + 1) = arcLength points (k + 1))
  /\ (forall v, (v < off \/ off + m * 2 <= v)%nat ->
        bufferVertex (sl_positions st) v = bufferVertex pos v
        /\ aget 0 (sl_lineDistances st) v = aget 0 dist v).
Proof.
  induction m as [|m IH]; intros Hp Hd.
  - cbn. split; [reflexivity|]. split; [intros k Hk; lia|]. intros; split; reflexivity.
  - cbn zeta. rewrite seq_S, fold_left_app. cbn [fold_left Nat.add].
    destruct IH as (Id & Ik & Io); [lia|lia|].
    destruct (sampleFold_lengths points off (seq 0 m) (mkSampleLoop pos dist 0))
      as [L1 L2].
    cbn [sl_positions sl_lineDistances] in L1, L2.
    set (st := fold_left (sampleStep points off) (seq 0 m) (mkSampleLoop pos dist 0)) in *.
    assert (Hp' : ((off + m * 2) * 3 + 5 < List.length (sl_positions st))%nat) by lia.
    assert (Hd' : (off + m * 2 + 1 < List.length (sl_lineDistances st))%nat) by lia.
    assert (Edist : sl_distance (sampleStep points off st m)
                    = arcLength points (S m)).
    { unfold sampleStep. cbn [sl_distance arcLength]. now rewrite Id. }
    split; [exact Edist|]. split.
    + intros k Hk.
      rewrite !sampleStep_vertex, !sampleStep_distance by assumption.
      destruct (Nat.eq_dec k m) as [->|Hne].
      * rewrite !Nat.eqb_refl.
        replace (off + m * 2 + 1 =? off + m * 2)%nat with false
          by (symmetry; apply Nat.eqb_neq; lia).
        rewrite Id. replace (m + 1)%nat with (S m) by lia.
        cbn [arcLength]. replace (m + 1)%nat with (S m) by lia.
        repeat split; reflexivity.
      * replace (off + k * 2 =? off + m * 2)%nat with false
          by (symmetry; apply Nat.eqb_neq; lia).
        replace (off + k * 2 =? off + m * 2 + 1)%nat with false
          by (symmetry; apply Nat.eqb_neq; lia).
        replace (off + k * 2 + 1 =? off + m * 2)%nat with false
          by (symmetry; apply Nat.eqb_neq; lia).
        replace (off + k * 2 + 1 =? off + m * 2 + 1)%nat with false
          by (symmetry; apply Nat.eqb_neq; lia).
        apply Ik. lia.
    + intros v Hv.
      rewrite sampleStep_vertex, sampleStep_distance by assumption.
      replace (v =? off + m * 2)%nat with false
        by (symmetry; apply Nat.eqb_neq; lia).
      replace (v =? off + m * 2 + 1)%nat with false
        by (symmetry; apply Nat.eqb_neq; lia).
      apply Io. lia.
Qed.

Lemma arcLength_step points k : arcLength points k <= arcLength points (S k).
Proof.
  cbn [arcLength]. unfold distanceTo.
  pose proof (sqrt_pos (distanceToSquared (aget zero points k) (aget zero points (k + 1)))).
  lra.
Qed.

Section Geometry.

Context {three : Three}.

(** [setCurve] on an in-range slot with at least two control points writes
    the sampled curve as line segments: segment [k] of the slot joins sample
    [k] to sample [k+1], the line distance of a vertex is the length of the
    polyline up to it (so it starts at 0 and never decreases along the
    curve), the vertices of every other slot keep their position and line
    distance, and both uploads are requested. *)
Theorem setCurve_geometry (s : t) (curveIndex : Z) (controlPoints : list Vec3)
    (color : ColorInput) (metadata : option CurveMetadata) :
  sized s ->
  (0 <= curveIndex < Z.of_nat (maxCurves s))%Z ->
  (2 <= List.length controlPoints)%nat ->
  let s' := setCurve curveIndex controlPoints color metadata s in
  let points := catmullRomGetPoints controlPoints (segmentsPerCurve s) in
  let first := (Z.to_nat curveIndex * verticesPerCurve s)%nat in
  (forall k, (k < segmentsPerCurve s)%nat ->
      vertexPosition s' (first + 2 * k) = aget zero points k
      /\ vertexPosition s' (first + 2 * k + 1) = aget zero points (k + 1)
      /\ vertexDistance s' (first + 2 * k) = arcLength points k
      /\ vertexDistance s' (first + 2 * k + 1) = arcLength points (k + 1)
      /\ vertexDistance s' (first + 2 * k) <= vertexDistance s' (first + 2 * k + 1))
  /\ vertexDistance s' first = 0
  /\ (forall v, (v < first \/ first + verticesPerCurve s <= v)%nat ->
         vertexPosition s' v = vertexPosition s v
         /\ vertexDistance s' v = vertexDistance s v)
  /\ needsPositionUpdate s' = true /\ needsLineDistanceUpdate s' = true.
Proof.
  intros [H1 H2 H3 H4 H5 H6] Hr Hl s' points first.
  assert (Hi : (Z.to_nat curveIndex < maxCurves s)%nat) by lia.
  assert (Hfit : (first + verticesPerCurve s <= maxCurves s * verticesPerCurve s)%nat).
  { unfold first. nia. }
  assert (El : (List.length controlPoints <? 2)%nat = false) by (apply Nat.ltb_ge; lia).
  set (st := fold_left (sampleStep points first) (seq 0 (segmentsPerCurve s))
               (mkSampleLoop (positions s) (lineDistances s) 0)).
  assert (E : positions s' = sl_positions st /\ lineDistances s' = sl_lineDistances st
              /\ needsPositionUpdate s' = true /\ needsLineDistanceUpdate s' = true).
  { unfold s', setCurve. rewrite (inRange_outOfRange _ _ Hr), El.
    match goal with |- context [_applyColorToCurve ?i ?x] =>
      destruct (applyColorToCurve_frame i x)
        as (_ & _ & _ & Ep & Ed & _);
      set (y := _applyColorToCurve i x) in * end.
    destruct (_ <=? _)%Z; cbn; rewrite Ep, Ed; repeat split. }
  destruct E as (Ep & Ed & En1 & En2).
  assert (Hv : verticesPerCurve s = (segmentsPerCurve s * 2)%nat) by reflexivity.
  destruct (sampleFold_spec points first (positions s) (lineDistances s)
              (segmentsPerCurve s)) as (_ & Ik & Io); [lia|lia|].
  fold st in Ik, Io.
  unfold vertexPosition, vertexDistance. rewrite Ep, Ed.
  assert (Hk : forall k, (k < segmentsPerCurve s)%nat ->
      bufferVertex (sl_positions st) (first + 2 * k) = aget zero points k
      /\ bufferVertex (sl_positions st) (first + 2 * k + 1) = aget zero points (k + 1)
      /\ aget 0 (sl_lineDistances st) (first + 2 * k) = arcLength points k
      /\ aget 0 (sl_lineDistances st) (first + 2 * k + 1) = arcLength points (k + 1)).
  { intros k Hk. replace (2 * k)%nat with (k * 2)%nat by lia. now apply Ik. }
  split; [|split; [|split; [|split; assumption]]].
  - intros k Hlt. destruct (Hk k Hlt) as (A & B & C & D).
    repeat split; try assumption.
    rewrite C, D. replace (k + 1)%nat with (S k) by lia. apply arcLength_step.
  - destruct (Hk 0%nat H6) as (_ & _ & C & _).
    replace (first + 2 * 0)%nat with first in C by lia. exact C.
  - intros v Hout. apply Io. lia.
Qed.

End Geometry.

Lemma setCurve_geometry_witness :
  let s := constructor (mkOptions (Some 2%nat) (Some 4%nat) None None) in
  let s' := setCurve 1 [zero; mkVector3 1%R 0%R 0%R] (ColorNumber 255) None s in
  vertexDistance s' 8 = 0 /\ vertexDistance s' 3 = vertexDistance s 3.
Proof.
  intros s s'.
  assert (Hr : (0 <= 1 < Z.of_nat (maxCurves s))%Z) by (cbn; lia).
  assert (Hl : (2 <= List.length [zero; mkVector3 1%R 0%R 0%R])%nat) by (cbn; lia).
  destruct (setCurve_geometry s 1 [zero; mkVector3 1%R 0%R 0%R] (ColorNumber 255) None
              (curves_sized_constructor _) Hr Hl) as (_ & H0 & Ho & _).
  split; [exact H0 | apply Ho; cbn; lia].
Defined.

End CurvesMore.

(** ** More on the geometry helpers *)

Module GeometryMore.

Import V3 FlightUtils GeometryFacts.
Open Scope R_scope.

Lemma lengthSq_multiplyScalar v k :
  lengthSq (multiplyScalar v k) = k * k * lengthSq v.
Proof. unfold lengthSq, multiplyScalar. cbn. ring. Qed.

Lemma length_sq v : V3.length v * V3.length v = lengthSq v.
Proof. unfold V3.length. apply sqrt_sqrt, lengthSq_nonneg. Qed.

Lemma length_pos_of_lengthSq v : 0 < lengthSq v -> 0 < V3.length v.
Proof. intros H. unfold V3.length. now apply sqrt_lt_R0. Qed.

Lemma length_normalize v : 0 < V3.length v -> V3.length (normalize v) = 1.
Proof.
  intros H.
  replace (normalize v) with (multiplyScalar (normalize v) 1).
  - apply length_push; lra.
  - unfold multiplyScalar. destruct (normalize v). cbn. f_equal; ring.
Qed.

Lemma length_spherical r phi theta :
  lengthSq (mkVector3 (r * sin phi * cos theta) (r * cos phi) (r * sin phi * sin theta))
  = r * r.
Proof.
  unfold lengthSq. cbn.
  pose proof (sin2_cos2 phi) as Hp. pose proof (sin2_cos2 theta) as Ht.
  unfold Rsqr in Hp, Ht.
  replace (r * sin phi * cos theta * (r * sin phi * cos theta)
           + r * cos phi * (r * cos phi)
           + r * sin phi * sin theta * (r * sin phi * sin theta))
    with (r * r * (sin phi * sin phi * (sin theta * sin theta + cos theta * cos theta)
                   + cos phi * cos phi)) by ring.
  rewrite Ht, Rmult_1_r, Hp. ring.
Qed.

(** *** The projection lands on the sphere *)

Lemma length_latLngToVector3 lat lng radius :
  V3.length (Utils.latLngToVector3 lat lng radius) = Rabs radius.
Proof.
  unfold V3.length, Utils.latLngToVector3. cbn zeta.
  set (phi := (90 - lat) * PI / 180). set (theta := (- lng + 180) * PI / 180).
  replace (lengthSq _) with (radius * radius).
  - fold (Rsqr radius). apply sqrt_Rsqr_abs.
  - rewrite <- (length_spherical radius phi theta). unfold lengthSq. cbn. ring.
Qed.

(** [latLngToVector3] returns a point at distance [|radius|] from the
    origin, for every latitude and longitude; the point does not change when
    the longitude is increased by a full turn, and at latitude 90 and -90 it
    is the pole whatever the longitude. *)
Theorem latLngToVector3_on_sphere (lat lng radius : R) :
  V3.length (Utils.latLngToVector3 lat lng radius) = Rabs radius
  /\ Utils.latLngToVector3 lat (lng + 360) radius = Utils.latLngToVector3 lat lng radius
  /\ Utils.latLngToVector3 90 lng radius = mkVector3 0 radius 0
  /\ Utils.latLngToVector3 (- 90) lng radius = mkVector3 0 (- radius) 0.
Proof.
  repeat split.
  - apply length_latLngToVector3.
  - unfold Utils.latLngToVector3. cbn zeta.
    set (theta := (- lng + 180) * PI / 180).
    replace ((- (lng + 360) + 180) * PI / 180) with (theta - 2 * PI)
      by (unfold theta; field).
    assert (Es : sin (theta - 2 * PI) = sin theta).
    { rewrite <- (sin_period (theta - 2 * PI) 1). f_equal. cbn. ring. }
    assert (Ec : cos (theta - 2 * PI) = cos theta).
    { rewrite <- (cos_period (theta - 2 * PI) 1). f_equal. cbn. ring. }
    now rewrite Es, Ec.
  - unfold Utils.latLngToVector3. cbn zeta.
    replace ((90 - 90) * PI / 180) with 0 by field.
    rewrite sin_0, cos_0. f_equal; ring.
  - unfold Utils.latLngToVector3. cbn zeta.
    replace ((90 - - 90) * PI / 180) with PI by field.
    rewrite sin_PI, cos_PI. f_equal; ring.
Qed.

(** *** The altitude floor settles in one pass *)

Lemma liftPoint_cases radius minAltitude p :
  let q := liftPoint radius minAltitude p in
  (V3.length q = 0 \/ radius + minAltitude <= V3.length q)
  /\ V3.length p <= V3.length q
  /\ liftPoint radius minAltitude q = q.
Proof.
  intros q. unfold q.
  pose proof (length_nonneg p) as Hp.
  destruct (Req_dec (V3.length p) 0) as [E0|N0].
  - rewrite (liftPoint_origin _ _ _ E0).
    rewrite (liftPoint_origin _ _ _ E0). repeat split; [now left | lra].
  - destruct (Rlt_dec (V3.length p) (radius + minAltitude)) as [Hlt|Hge].
    + destruct (liftPoint_below radius minAltitude p) as (_ & _ & El); [lra|lra|].
      repeat split.
      * right. lra.
      * lra.
      * apply liftPoint_above. lra.
    + rewrite (liftPoint_above radius minAltitude p) by lra.
      rewrite (liftPoint_above radius minAltitude p) by lra.
      repeat split; [right; lra | lra].
Qed.

(** [ensureMinimumCurveAltitude] keeps the number of points, never moves a
    point towards the origin, leaves every point either at the origin or at
    distance at least [radius + minAltitude], and applying it a second time
    changes nothing. *)
Theorem ensureMinimumCurveAltitude_settles (points : list Vec3)
    (radius minAltitude : R) :
  let lifted := ensureMinimumCurveAltitude points radius minAltitude in
  List.length lifted = List.length points
  /\ ensureMinimumCurveAltitude lifted radius minAltitude = lifted
  /\ Forall (fun q => V3.length q = 0 \/ radius + minAltitude <= V3.length q) lifted
  /\ Forall2 (fun p q => V3.length p <= V3.length q) points lifted.
Proof.
  cbn zeta. rewrite !ensureMinimumCurveAltitude_map.
  split; [apply length_map|].
  induction points as [|p points (IH1 & IH2 & IH3)]; cbn [map].
  - repeat split; constructor.
  - destruct (liftPoint_cases radius minAltitude p) as (A & B & C).
    repeat split.
    + cbn [map]. now rewrite C, IH1.
    + now constructor.
    + now constructor.
Qed.

(** *** Tangent directions *)

Lemma small_positive : 0 < 1e-6.
Proof. lra. Qed.

Lemma normalize_unit v : JSR.ltb (lengthSq v) 1e-6 = false -> V3.length (normalize v) = 1.
Proof.
  intros H. apply Rltb_ge in H. pose proof small_positive.
  apply length_normalize, length_pos_of_lengthSq. lra.
Qed.

(** [tangentAt] always returns a vector of length 1, whatever the two
    points and the random direction are: each fallback is taken exactly when
    the vector before it is too short to be normalised. *)
Theorem tangentAt_unit (surface other random : Vec3) :
  V3.length (tangentAt surface other random) = 1.
Proof.
  unfold tangentAt. cbn zeta.
  match goal with |- context [normalize (if JSR.ltb (lengthSq ?t) _ then _ else _)] =>
    set (tangent := t) end.
  destruct (JSR.ltb (lengthSq tangent) 1e-6) eqn:E1.
  - destruct (JSR.ltb (lengthSq (crossVectors (normalize surface) (mkVector3 0 1 0))) 1e-6)
      eqn:E2.
    + apply length_normalize.
      replace (V3.length (mkVector3 1 0 0)) with 1; [lra|].
      unfold V3.length, lengthSq. cbn.
      replace (1 * 1 + 0 * 0 + 0 * 0) with 1 by ring. now rewrite sqrt_1.
    + now apply normalize_unit.
  - now apply normalize_unit.
Qed.

(** *** Clamping into a sphere *)

Lemma add_sub_cancel a c : sub (add a c) c = a.
Proof. unfold sub, add. destruct a, c. cbn. f_equal; ring. Qed.

Lemma lengthSq_setLength o r : 0 < lengthSq o -> lengthSq (setLength o r) = r * r.
Proof.
  intros H. unfold setLength. rewrite lengthSq_multiplyScalar.
  rewrite <- (length_sq (normalize o)).
  rewrite length_normalize by now apply length_pos_of_lengthSq. ring.
Qed.

Lemma clampToSphere_cases v r c :
  (lengthSq (sub v c) <= r * r /\ clampToSphere v r c = v)
  \/ (r * r < lengthSq (sub v c)
      /\ clampToSphere v r c = add (setLength (sub v c) r) c
      /\ distanceToSquared (clampToSphere v r c) c = r * r).
Proof.
  unfold clampToSphere. cbn zeta.
  destruct (JSR.gtb (lengthSq (sub v c)) (r * r)) eqn:E.
  - right. apply Rgtb_gt in E. split; [assumption|]. split; [reflexivity|].
    unfold distanceToSquared. rewrite add_sub_cancel.
    apply lengthSq_setLength. nra.
  - left. apply Rgtb_le in E. split; [assumption|reflexivity].
Qed.

Lemma clampToSphere_within v r c : distanceToSquared (clampToSphere v r c) c <= r * r.
Proof.
  destruct (clampToSphere_cases v r c) as [[H E]|(H & _ & E)].
  - rewrite E. exact H.
  - rewrite E. lra.
Qed.

Lemma distance_within p c r : distanceToSquared p c <= r * r -> distanceTo p c <= Rabs r.
Proof.
  intros H. unfold distanceTo. rewrite <- sqrt_Rsqr_abs.
  apply sqrt_le_1_alt. exact H.
Qed.

(** [clampToSphere] returns a point at distance at most [|radius|] from the
    centre; a point already that close is returned as it is, a point further
    away lands at distance exactly [|radius|]; clamping twice is clamping
    once. *)
Theorem clampToSphere_inside (vector : Vec3) (radius : R) (center : Vec3) :
  let clamped := clampToSphere vector radius center in
  distanceTo clamped center <= Rabs radius
  /\ (distanceToSquared vector center <= radius * radius -> clamped = vector)
  /\ (radius * radius < distanceToSquared vector center ->
      distanceTo clamped center = Rabs radius)
  /\ clampToSphere clamped radius center = clamped.
Proof.
  cbn zeta. split; [apply distance_within, clampToSphere_within|].
  split; [|split].
  - intros H. destruct (clampToSphere_cases vector radius center) as [[_ E]|(Hgt & _)].
    + exact E.
    + unfold distanceToSquared in H. lra.
  - intros H. destruct (clampToSphere_cases vector radius center) as [[Hle _]|(_ & _ & E)].
    + unfold distanceToSquared in H. lra.
    + unfold distanceTo. rewrite E. fold (Rsqr radius). apply sqrt_Rsqr_abs.
  - pose proof (clampToSphere_within vector radius center) as Hw.
    destruct (clampToSphere_cases (clampToSphere vector radius center) radius center)
      as [[_ E]|(Hgt & _)].
    + exact E.
    + unfold distanceToSquared in Hw. lra.
Qed.

Lemma clampToSphere_inside_witness :
  distanceTo (clampToSphere (mkVector3 3 0 0) 1 zero) zero = Rabs 1.
Proof.
  destruct (clampToSphere_inside (mkVector3 3 0 0) 1 zero) as (_ & _ & H & _).
  apply H. unfold distanceToSquared, lengthSq, sub, zero. cbn. lra.
Defined.

(** *** The parabolic path *)

Lemma generateParabolicControlPoints_form departure arrival options random1 random2 :
  exists m1 m2 m3 m4 m5 m6 m7,
    generateParabolicControlPoints departure arrival options random1 random2
    = map (liftPoint (radius options) (minCurveAltitude options))
        [ multiplyScalar
            (normalize (Utils.latLngToVector3 (lat departure) (lng departure)
                          (radius options)))
            (radius options + Rmax (takeoffOffset options) (minCurveAltitude options));
          m1; m2; m3; m4; m5; m6; m7;
          multiplyScalar
            (normalize (Utils.latLngToVector3 (lat arrival) (lng arrival)
                          (radius options)))
            (radius options + Rmax (takeoffOffset options) (minCurveAltitude options)) ].
Proof. do 7 eexists. unfold generateParabolicControlPoints. reflexivity. Qed.

Lemma surface_point lat lng radius offset minAltitude :
  0 < radius -> 0 <= radius + offset -> minAltitude <= offset ->
  let p := multiplyScalar (normalize (Utils.latLngToVector3 lat lng radius))
             (radius + offset) in
  liftPoint radius minAltitude p
  = multiplyScalar (Utils.latLngToVector3 lat lng radius) ((radius + offset) / radius)
  /\ V3.length (liftPoint radius minAltitude p) = radius + offset.
Proof.
  intros Hr Ho Hm p.
  pose proof (length_latLngToVector3 lat lng radius) as Hl.
  rewrite Rabs_right in Hl by lra.
  assert (Ep : p = multiplyScalar (Utils.latLngToVector3 lat lng radius)
                     ((radius + offset) / radius)).
  { unfold p. rewrite push_radially by lra. now rewrite Hl. }
  assert (Elen : V3.length p = radius + offset).
  { unfold p. apply length_push; lra. }
  rewrite liftPoint_above by lra. split; assumption.
Qed.

(** [generateParabolicControlPoints] returns nine points, each of them at
    the origin or at distance at least [radius + minCurveAltitude]; for a
    positive radius its first and last points are the projections of the
    departure and of the arrival pushed out radially to distance
    [radius + max(takeoffOffset, minCurveAltitude)]. *)
Theorem generateParabolicControlPoints_shape (departure arrival : Geolocation)
    (options : ParabolicOptions) (random1 random2 : Vec3) :
  let points := generateParabolicControlPoints departure arrival options random1 random2 in
  let surfaceOffset := Rmax (takeoffOffset options) (minCurveAltitude options) in
  List.length points = 9%nat
  /\ Forall (fun q => V3.length q = 0
                      \/ radius options + minCurveAltitude options <= V3.length q) points
  /\ (0 < radius options -> 0 <= radius options + surfaceOffset ->
      nth 0 points zero
      = multiplyScalar
          (Utils.latLngToVector3 (lat departure) (lng departure) (radius options))
          ((radius options + surfaceOffset) / radius options)
      /\ nth 8 points zero
         = multiplyScalar
             (Utils.latLngToVector3 (lat arrival) (lng arrival) (radius options))
             ((radius options + surfaceOffset) / radius options)
      /\ V3.length (nth 0 points zero) = radius options + surfaceOffset
      /\ V3.length (nth 8 points zero) = radius options + surfaceOffset).
Proof.
  intros points surfaceOffset.
  destruct (generateParabolicControlPoints_form departure arrival options random1 random2)
    as (m1 & m2 & m3 & m4 & m5 & m6 & m7 & E).
  unfold points. rewrite E. split; [reflexivity|]. split.
  - apply Forall_map. apply Forall_forall. intros p _.
    apply (liftPoint_cases (radius options) (minCurveAltitude options) p).
  - intros Hr Ho. cbn [map nth].
    assert (Hm : minCurveAltitude options <= surfaceOffset) by apply Rmax_r.
    destruct (surface_point (lat departure) (lng departure) (radius options)
                surfaceOffset (minCurveAltitude options) Hr Ho Hm) as [A B].
    destruct (surface_point (lat arrival) (lng arrival) (radius options)
                surfaceOffset (minCurveAltitude options) Hr Ho Hm) as [C D].
    repeat split; assumption.
Qed.

Lemma generateParabolicControlPoints_shape_witness :
  V3.length
    (nth 0 (generateParabolicControlPoints (mkGeolocation 10 20) (mkGeolocation 30 40)
              (mkParabolicOptions 3000 18 20 30 200) zero zero) zero)
  = 3000 + Rmax 18 20.
Proof.
  destruct (generateParabolicControlPoints_shape (mkGeolocation 10 20) (mkGeolocation 30 40)
              (mkParabolicOptions 3000 18 20 30 200) zero zero) as (_ & _ & H).
  cbn [radius takeoffOffset minCurveAltitude] in H.
  assert (Hm : 20 <= Rmax 18 20) by apply Rmax_r.
  destruct H as (_ & _ & H & _); [lra|lra|exact H].
Defined.

(** *** Spheres from bounds and random curves *)

Lemma within_extent a b x :
  a <= x <= b ->
  x * x <= Rmax (Rabs a) (Rabs b) * Rmax (Rabs a) (Rabs b)
  /\ (x - (a + b) * 0.5) * (x - (a + b) * 0.5)
     <= Rmax (Rabs a) (Rabs b) * Rmax (Rabs a) (Rabs b).
Proof.
  intros H.
  assert (Ha : Rabs a <= Rmax (Rabs a) (Rabs b)) by apply Rmax_l.
  assert (Hb : Rabs b <= Rmax (Rabs a) (Rabs b)) by apply Rmax_r.
  set (m := Rmax (Rabs a) (Rabs b)) in *.
  assert (Ha' : - m <= a <= m).
  { split; [pose proof (Rle_abs (- a)); rewrite Rabs_Ropp in *; lra
           | pose proof (Rle_abs a); lra]. }
  assert (Hb' : - m <= b <= m).
  { split; [pose proof (Rle_abs (- b)); rewrite Rabs_Ropp in *; lra
           | pose proof (Rle_abs b); lra]. }
  split; nra.
Qed.

(** The sphere that [inferRadiusFromBounds] and [inferCenterFromBounds]
    infer contains the whole box of the bounds (a missing bound counting as
    0): every point of the box is within the inferred radius of the origin
    and within the inferred radius of the inferred centre. *)
Theorem inferRadiusFromBounds_contains (bounds : Bounds) (x y z : R) :
  default 0 (minX bounds) <= x <= default 0 (maxX bounds) ->
  default 0 (minY bounds) <= y <= default 0 (maxY bounds) ->
  default 0 (minZ bounds) <= z <= default 0 (maxZ bounds) ->
  V3.length (mkVector3 x y z) <= inferRadiusFromBounds (Some bounds)
  /\ distanceTo (mkVector3 x y z) (inferCenterFromBounds (Some bounds))
     <= inferRadiusFromBounds (Some bounds).
Proof.
  intros Hx Hy Hz.
  destruct (within_extent _ _ _ Hx) as [X1 X2].
  destruct (within_extent _ _ _ Hy) as [Y1 Y2].
  destruct (within_extent _ _ _ Hz) as [Z1 Z2].
  unfold inferRadiusFromBounds, inferCenterFromBounds, distanceTo, distanceToSquared,
    V3.length, lengthSq, sub. cbn [vx vy vz].
  split; apply sqrt_le_1_alt; lra.
Qed.

Lemma inferRadiusFromBounds_contains_witness :
  V3.length (mkVector3 1 2 (- 3))
  <= inferRadiusFromBounds (Some (mkBounds (Some (- 1)) (Some 4) None (Some 2)
                                     (Some (- 5)) None)).
Proof.
  apply (inferRadiusFromBounds_contains
           (mkBounds (Some (- 1)) (Some 4) None (Some 2) (Some (- 5)) None) 1 2 (- 3));
    cbn; lra.
Defined.

Lemma pow_unit_interval w y : 0 <= w <= 1 -> 0 <= y -> 0 <= JSR.pow w y <= 1.
Proof.
  intros Hw Hy. unfold JSR.pow. destruct (Req_dec_T w 0); [lra|].
  split.
  - left. unfold Rpower. apply exp_pos.
  - replace 1 with (Rpower 1 y).
    + apply Rle_Rpower_l; lra.
    + unfold Rpower. rewrite ln_1, Rmult_0_r. apply exp_0.
Qed.

(** [randomPointInSphere], for a third draw [w] in [0, 1], returns a point
    at distance [|radius| * cbrt w] from the origin, so inside the ball of
    that radius. *)
Theorem randomPointInSphere_inside (radius u v w : R) :
  0 <= w <= 1 ->
  V3.length (randomPointInSphere radius (u, v, w)) = Rabs radius * JSR.pow w (1 / 3)
  /\ V3.length (randomPointInSphere radius (u, v, w)) <= Rabs radius.
Proof.
  intros Hw.
  destruct (pow_unit_interval w (1 / 3) Hw) as [P0 P1]; [lra|].
  assert (E : V3.length (randomPointInSphere radius (u, v, w))
              = Rabs radius * JSR.pow w (1 / 3)).
  { unfold randomPointInSphere, V3.length. cbn zeta.
    set (r := radius * JSR.pow w (1 / 3)).
    set (phi := acos (2 * v - 1)). set (theta := 2 * PI * u).
    replace (lengthSq _) with (r * r).
    - fold (Rsqr r). rewrite sqrt_Rsqr_abs. unfold r.
      rewrite Rabs_mult. f_equal. apply Rabs_right. lra.
    - rewrite <- (length_spherical r phi theta). unfold lengthSq. cbn. ring. }
  split; [exact E|].
  rewrite E. pose proof (Rabs_pos radius). nra.
Qed.

Lemma randomPointInSphere_inside_witness :
  V3.length (randomPointInSphere 10 (0, 0, 1)) <= Rabs 10.
Proof.
  apply (randomPointInSphere_inside 10 0 0 1). lra.
Defined.

(** Every point of a curve returned by [generateRandomCurve] is inside the
    sphere it was asked for, the end points given by the caller included,
    and the curve has [numControlPoints + 2] points. *)
Theorem generateRandomCurve_inside (options : RandomCurveOptions)
    (random : nat -> R * R * R) (randFloat : R) :
  let center :=
    match rc_center options with
    | Some c => c
    | None => inferCenterFromBounds (rc_bounds options)
    end in
  let radius :=
    match rc_radius options with
    | Some r => r
    | None => inferRadiusFromBounds (rc_bounds options)
    end in
  let numControlPoints :=
    match rc_numControlPoints options with
    | Some n => n
    | None => JSR.floor randFloat
    end in
  let points := generateRandomCurve options random randFloat in
  List.length points = (Z.to_nat numControlPoints + 2)%nat
  /\ Forall (fun p => distanceTo p center <= Rabs radius) points.
Proof.
  intros center radius numControlPoints points.
  unfold points, generateRandomCurve. fold center radius numControlPoints.
  destruct (rc_start options) as [start|]; destruct (rc_end options) as [end_|];
    (split;
     [ rewrite !length_app, length_map, length_seq; cbn [List.length]; lia
     | cbn [app]; constructor;
       [ apply distance_within, clampToSphere_within
       | apply Forall_app; split;
         [ apply Forall_map, Forall_forall; intros i _;
           apply distance_within, clampToSphere_within
         | constructor; [apply distance_within, clampToSphere_within | constructor] ] ] ]).
Qed.

(** *** The subsolar point *)

Lemma wrapAbove_spec n : forall x fuel,
  x <= 180 + 360 * INR n -> (n < fuel)%nat ->
  exists y k, Utils.wrapAbove fuel x = Some y /\ y = x - 360 * INR k
              /\ y <= 180 /\ (x <= 180 -> y = x) /\ (180 < x -> - 180 < y).
Proof.
  induction n as [|n IH]; intros x fuel Hx Hf;
    (destruct fuel as [|fuel]; [lia|]); cbn [Utils.wrapAbove].
  - cbn in Hx. assert (E : JSR.gtb x 180 = false) by (apply Rgtb_le; lra).
    rewrite E. exists x, 0%nat. cbn. repeat split; lra.
  - destruct (JSR.gtb x 180) eqn:E.
    + apply Rgtb_gt in E. rewrite S_INR in Hx.
      destruct (IH (x - 360) fuel) as (y & k & Ey & Ek & Hy & Hsame & Hlow); [lra|lia|].
      exists y, (S k). rewrite S_INR.
      split; [exact Ey|]. split; [lra|]. split; [lra|]. split; [intros; lra|].
      intros _. destruct (Rle_dec (x - 360) 180) as [Hle|Hgt].
      * rewrite (Hsame Hle). lra.
      * apply Hlow. lra.
    + apply Rgtb_le in E. exists x, 0%nat. cbn. repeat split; lra.
Qed.

Lemma wrapBelow_spec n : forall x fuel,
  - 180 - 360 * INR n <= x -> x <= 180 -> (n < fuel)%nat ->
  exists y k, Utils.wrapBelow fuel x = Some y /\ y = x + 360 * INR k
              /\ - 180 <= y <= 180 /\ (- 180 <= x -> y = x).
Proof.
  induction n as [|n IH]; intros x fuel Hx Hx' Hf;
    (destruct fuel as [|fuel]; [lia|]); cbn [Utils.wrapBelow].
  - cbn in Hx. assert (E : JSR.ltb x (- 180) = false) by (apply Rltb_ge; lra).
    rewrite E. exists x, 0%nat. cbn. repeat split; lra.
  - destruct (JSR.ltb x (- 180)) eqn:E.
    + apply Rltb_lt in E. rewrite S_INR in Hx.
      destruct (IH (x + 360) fuel) as (y & k & Ey & Ek & Hy & Hsame); [lra|lra|lia|].
      exists y, (S k). rewrite S_INR.
      split; [exact Ey|]. split; [lra|]. split; [lra|]. intros; lra.
    + apply Rltb_ge in E. exists x, 0%nat. cbn. repeat split; lra.
Qed.

Lemma turns_bound x : exists n, x <= 180 + 360 * INR n /\ - 180 - 360 * INR n <= x.
Proof.
  destruct (archimed (Rabs x / 360)) as [Hup _].
  pose proof (Rabs_pos x) as Hpos.
  assert (Hz : (0 <= up (Rabs x / 360))%Z).
  { apply le_IZR. assert (0 <= Rabs x / 360) by (apply Rmult_le_pos; lra). lra. }
  exists (Z.to_nat (up (Rabs x / 360))).
  rewrite INR_IZR_INZ, Z2Nat.id by assumption.
  assert (Rabs x < 360 * IZR (up (Rabs x / 360))).
  { apply Rmult_lt_compat_l with (r := 360) in Hup; [|lra].
    replace (360 * (Rabs x / 360)) with (Rabs x) in Hup by field. lra. }
  pose proof (Rle_abs x). pose proof (Rle_abs (- x)) as H'. rewrite Rabs_Ropp in H'.
  split; lra.
Qed.

(** [getSunPosition] returns, its two normalisation loops ending after
    finitely many turns: a latitude between -23.45 and 23.45, and a longitude
    between -180 and 180 that differs from [(12 - timeDecimal) * 15] by a
    whole number of turns; for a time of day between 0 and 24 the longitude
    is [(12 - timeDecimal) * 15] itself. *)
Theorem getSunPosition_range (dayOfYear hours minutes seconds : Z)
    (simulatedTimeHours : option R) :
  let timeDecimal :=
    match simulatedTimeHours with
    | Some t => t
    | None => IZR hours + IZR minutes / 60 + IZR seconds / 3600
    end in
  exists fuel0, forall fuel, (fuel0 <= fuel)%nat ->
    exists p,
      Utils.getSunPosition fuel dayOfYear hours minutes seconds simulatedTimeHours = Some p
      /\ - 23.45 <= Utils.sun_lat p <= 23.45
      /\ - 180 <= Utils.sun_lng p <= 180
      /\ (exists k : Z, Utils.sun_lng p = (12 - timeDecimal) * 15 + 360 * IZR k)
      /\ (0 <= timeDecimal <= 24 -> Utils.sun_lng p = (12 - timeDecimal) * 15).
Proof.
  intros timeDecimal.
  destruct (turns_bound ((12 - timeDecimal) * 15)) as (n & Hn1 & Hn2).
  exists (S n). intros fuel Hf.
  destruct (wrapAbove_spec n _ fuel Hn1) as (y & k1 & Ey & Ek1 & Hy & Hsame1 & Hlow);
    [lia|].
  assert (Hyn : - 180 - 360 * INR n <= y).
  { destruct (Rle_dec ((12 - timeDecimal) * 15) 180) as [Hle|Hgt].
    - rewrite (Hsame1 Hle). exact Hn2.
    - pose proof (pos_INR n). assert (- 180 < y) by (apply Hlow; lra). lra. }
  destruct (wrapBelow_spec n y fuel Hyn Hy) as (w & k2 & Ew & Ek2 & Hw & Hsame2); [lia|].
  unfold Utils.getSunPosition. fold timeDecimal. cbn zeta. rewrite Ey, Ew.
  eexists. split; [reflexivity|]. cbn [Utils.sun_lat Utils.sun_lng].
  split; [|split; [exact Hw|split]].
  - match goal with |- context [sin ?a] => pose proof (SIN_bound a) end. lra.
  - exists (Z.of_nat k2 - Z.of_nat k1)%Z.
    rewrite minus_IZR, <- !INR_IZR_INZ. lra.
  - intros Ht. rewrite Hsame2, Hsame1; lra.
Qed.

Lemma getSunPosition_range_witness :
  exists fuel0, forall fuel, (fuel0 <= fuel)%nat ->
    exists p, Utils.getSunPosition fuel 274 0 0 0 (Some 6) = Some p
              /\ Utils.sun_lng p = (12 - 6) * 15.
Proof.
  destruct (getSunPosition_range 274 0 0 0 (Some 6)) as (fuel0 & H).
  exists fuel0. intros fuel Hf.
  destruct (H fuel Hf) as (p & Ep & _ & _ & _ & Hl).
  exists p. split; [exact Ep|]. apply Hl. lra.
Defined.

(** *** Brightness controls *)

Lemma JSR_clamp_range v lo hi : lo <= hi -> lo <= JSR.clamp v lo hi <= hi.
Proof.
  intros H. unfold JSR.clamp, Rmax, Rmin.
  destruct (Rle_dec hi v); destruct (Rle_dec lo _); lra.
Qed.

(** For a finite percentage, or a fallback between 0 and 100,
    [clampPercentValue] is between 0 and 100, the day intensity between 0.1
    and 3 and the night mix between 0 and 1; the fallback itself is used as
    it is. *)
Theorem percent_controls_range (value : option R) (fallbackPercent : R) :
  (value <> None \/ 0 <= fallbackPercent <= 100) ->
  0 <= Utils.clampPercentValue value fallbackPercent <= 100
  /\ 0.1 <= Utils.resolveDayIntensityFromPercent value fallbackPercent <= 3
  /\ 0 <= Utils.resolveNightMixFromPercent value fallbackPercent <= 1
  /\ Utils.clampPercentValue None fallbackPercent = fallbackPercent.
Proof.
  intros H.
  assert (Hc : 0 <= Utils.clampPercentValue value fallbackPercent <= 100).
  { destruct value as [numeric|]; cbn.
    - apply JSR_clamp_range. lra.
    - destruct H as [H|H]; [congruence|exact H]. }
  split; [exact Hc|].
  unfold Utils.resolveDayIntensityFromPercent, Utils.resolveNightMixFromPercent, JSR.lerp.
  set (c := Utils.clampPercentValue value fallbackPercent) in *.
  repeat split; try lra.
Qed.

Lemma percent_controls_range_witness :
  0 <= Utils.resolveNightMixFromPercent (Some 250) 40 <= 1.
Proof.
  destruct (percent_controls_range (Some 250) 40) as (_ & _ & H & _).
  - left. discriminate.
  - exact H.
Defined.

(** *** Back from a position to latitude and longitude *)

Lemma tan_shift x : cos x <> 0 -> tan (x + PI) = tan x.
Proof. intros H. unfold tan. rewrite neg_sin, neg_cos. field. exact H. Qed.

Lemma atan2_polar rho alpha :
  0 < rho -> - PI < alpha <= PI ->
  JSR.atan2 (rho * sin alpha) (rho * cos alpha) = alpha.
Proof.
  intros Hrho [Hlo Hhi]. pose proof PI_RGT_0 as Hpi.
  assert (Hquot : cos alpha <> 0 ->
                  rho * sin alpha / (rho * cos alpha) = tan alpha).
  { intros Hc. unfold tan. field. split; lra. }
  unfold JSR.atan2.
  destruct (Rlt_dec alpha (- (PI / 2))) as [A1|A1].
  - (* third quadrant *)
    assert (Hc : cos alpha < 0).
    { rewrite <- cos_neg. apply cos_lt_0; lra. }
    assert (Hs : sin alpha < 0) by (apply sin_lt_0_var; lra).
    destruct (Rlt_dec 0 (rho * cos alpha)); [nra|].
    destruct (Rlt_dec (rho * cos alpha) 0); [|nra].
    destruct (Rle_dec 0 (rho * sin alpha)); [nra|].
    rewrite Hquot by lra. rewrite <- tan_shift by lra.
    rewrite atan_tan by lra. lra.
  - destruct (Req_dec alpha (- (PI / 2))) as [A2|A2].
    + subst alpha. rewrite cos_neg, sin_neg, cos_PI2, sin_PI2.
      destruct (Rlt_dec 0 (rho * 0)); [lra|].
      destruct (Rlt_dec (rho * 0) 0); [lra|].
      destruct (Rlt_dec 0 (rho * - (1))); [lra|].
      destruct (Rlt_dec (rho * - (1)) 0); [reflexivity|lra].
    + destruct (Rlt_dec alpha (PI / 2)) as [A3|A3].
      * assert (Hc : 0 < cos alpha) by (apply cos_gt_0; lra).
        destruct (Rlt_dec 0 (rho * cos alpha)); [|nra].
        rewrite Hquot by lra. apply atan_tan. lra.
      * destruct (Req_dec alpha (PI / 2)) as [A4|A4].
        -- subst alpha. rewrite cos_PI2, sin_PI2.
           destruct (Rlt_dec 0 (rho * 0)); [lra|].
           destruct (Rlt_dec (rho * 0) 0); [lra|].
           destruct (Rlt_dec 0 (rho * 1)); [reflexivity|lra].
        -- assert (Hc : cos alpha < 0) by (apply cos_lt_0; lra).
           assert (Hs : 0 <= sin alpha) by (apply sin_ge_0; lra).
           destruct (Rlt_dec 0 (rho * cos alpha)); [nra|].
           destruct (Rlt_dec (rho * cos alpha) 0); [|nra].
           destruct (Rle_dec 0 (rho * sin alpha)); [|nra].
           rewrite Hquot by lra.
           assert (Hc' : cos (alpha - PI) <> 0).
           { assert (Hcm : cos (alpha - PI) = - cos alpha).
             { replace (cos alpha) with (cos (alpha - PI + PI)) by (f_equal; ring).
               rewrite neg_cos. ring. }
             lra. }
           replace (tan alpha) with (tan (alpha - PI)).
           ++ rewrite atan_tan by lra. lra.
           ++ rewrite <- (tan_shift (alpha - PI)) by exact Hc'. f_equal. ring.
Qed.

Lemma rem_below a b : 0 <= a < b -> JSR.rem a b = a.
Proof.
  intros H. unfold JSR.rem, JSR.trunc.
  assert (Hq : 0 <= a / b < 1).
  { split.
    - apply Rmult_le_pos; [lra|]. left. apply Rinv_0_lt_compat. lra.
    - apply Rmult_lt_reg_r with (r := b); [lra|].
      replace (a / b * b) with a by (field; lra). lra. }
  destruct (Rle_dec 0 (a / b)); [|lra].
  replace (Int_part (a / b)) with 0%Z; [ring|].
  apply Int_part_spec. cbn. lra.
Qed.

Lemma rem_self b : 0 < b -> JSR.rem b b = 0.
Proof.
  intros H. unfold JSR.rem, JSR.trunc.
  replace (b / b) with 1 by (field; lra).
  destruct (Rle_dec 0 1); [|lra].
  replace (Int_part 1) with 1%Z; [ring|].
  apply Int_part_spec. cbn. lra.
Qed.

(** [vector3ToLatLng] does not invert [latLngToVector3]: for a positive
    radius and a point off the poles it recovers the latitude, but it returns
    the longitude mirrored, [180 - lng] for a longitude in (0, 180] and
    [-180 - lng] for a longitude in (-180, 0]; only the longitudes 90 and -90
    come back as they were. *)
Theorem vector3ToLatLng_mirrors_longitude (lat lng radius : R) :
  0 < radius -> - 90 < lat < 90 -> - 180 < lng <= 180 ->
  Utils.vector3ToLatLng (Utils.latLngToVector3 lat lng radius) radius
  = Utils.mkLatLng lat (if Rle_dec lng 0 then - 180 - lng else 180 - lng).
Proof.
  intros Hr Hlat Hlng. pose proof PI_RGT_0 as Hpi.
  unfold Utils.vector3ToLatLng, Utils.latLngToVector3. cbn zeta. cbn [vx vy vz].
  set (phi := (90 - lat) * PI / 180). set (theta := (- lng + 180) * PI / 180).
  assert (Hphi : 0 < phi < PI).
  { unfold phi. split.
    - apply Rmult_lt_0_compat; [nra|lra].
    - apply Rmult_lt_reg_r with (r := 180); [lra|].
      replace ((90 - lat) * PI / 180 * 180) with ((90 - lat) * PI) by field. nra. }
  assert (Hs : 0 < sin phi) by (apply sin_gt_0; lra).
  assert (Hrho : 0 < radius * sin phi) by (apply Rmult_lt_0_compat; assumption).
  set (V := mkVector3 (radius * sin phi * cos theta) (radius * cos phi)
              (radius * sin phi * sin theta)).
  replace (mkVector3 (- - (radius * sin phi * cos theta)) (radius * cos phi)
             (radius * sin phi * sin theta)) with V
    by (unfold V; f_equal; ring).
  assert (HlenV : V3.length V = radius).
  { unfold V3.length, V. rewrite length_spherical. apply sqrt_square. lra. }
  assert (Hnorm : multiplyScalar (normalize V) radius = V).
  { rewrite push_radially by lra. rewrite HlenV.
    unfold multiplyScalar, V. cbn. f_equal; field; lra. }
  rewrite Hnorm. unfold V. cbn [vx vy vz].
  (* latitude *)
  assert (Eclamp : Utils.clamp (radius * cos phi / radius) (- 1) 1 = cos phi).
  { replace (radius * cos phi / radius) with (cos phi) by (field; lra).
    pose proof (COS_bound phi). unfold Utils.clamp, Rmin, Rmax.
    destruct (Rle_dec (cos phi) (- 1)); destruct (Rle_dec _ 1); lra. }
  rewrite Eclamp, acos_cos by lra.
  assert (Elat : 90 - phi * 180 / PI = lat) by (unfold phi; field; lra).
  rewrite Elat. f_equal.
  (* longitude *)
  assert (Htheta : 0 <= theta < 2 * PI).
  { unfold theta. split.
    - apply Rmult_le_pos; [nra|lra].
    - apply Rmult_lt_reg_r with (r := 180); [lra|].
      replace ((- lng + 180) * PI / 180 * 180) with ((- lng + 180) * PI) by field. nra. }
  destruct (Rle_dec lng 0) as [Hneg|Hpos].
  - destruct (Req_dec lng 0) as [E0|N0].
    + (* lng = 0: theta = PI *)
      assert (Et : theta = PI) by (unfold theta; rewrite E0; field).
      rewrite atan2_polar by lra. rewrite Et.
      replace (PI * 180 / PI + 180) with 360 by (field; lra).
      rewrite rem_self by lra. lra.
    + assert (Hth : PI < theta).
      { unfold theta. apply Rmult_lt_reg_r with (r := 180); [lra|].
        replace ((- lng + 180) * PI / 180 * 180) with ((- lng + 180) * PI) by field. nra. }
      assert (Es : sin theta = sin (theta - 2 * PI)).
      { rewrite <- (sin_period (theta - 2 * PI) 1). f_equal. cbn. ring. }
      assert (Ec : cos theta = cos (theta - 2 * PI)).
      { rewrite <- (cos_period (theta - 2 * PI) 1). f_equal. cbn. ring. }
      rewrite Es, Ec, atan2_polar by lra.
      replace ((theta - 2 * PI) * 180 / PI + 180) with (- lng)
        by (unfold theta; field; lra).
      rewrite rem_below by lra. lra.
  - assert (Hth : theta < PI).
    { unfold theta. apply Rmult_lt_reg_r with (r := 180); [lra|].
      replace ((- lng + 180) * PI / 180 * 180) with ((- lng + 180) * PI) by field. nra. }
    rewrite atan2_polar by lra.
    replace (theta * 180 / PI + 180) with (360 - lng) by (unfold theta; field; lra).
    rewrite rem_below by lra. lra.
Qed.

Lemma vector3ToLatLng_mirrors_longitude_witness :
  Utils.vector3ToLatLng (Utils.latLngToVector3 30 45 3000) 3000
  = Utils.mkLatLng 30 (if Rle_dec 45 0 then - 180 - 45 else 180 - 45).
Proof.
  apply (vector3ToLatLng_mirrors_longitude 30 45 3000); lra.
Defined.

End GeometryMore.

(** ** Upload requests of the plane animator *)

Module PlanesShaderUploads.

Import PlanesShader.

Ltac flags :=
  repeat split;
  first [ left; reflexivity | right; split; reflexivity ].

Lemma disableStep_flag T st i :
  let st' := disableStep T st i in
  (dl_needsUpdate st = true -> dl_needsUpdate st' = true)
  /\ (dl_needsUpdate st' = true
      \/ (dl_params st' = dl_params st /\ dl_needsUpdate st' = dl_needsUpdate st)).
Proof.
  unfold disableStep. cbn zeta.
  destruct (JS.ltb _ _); [split; auto|].
  destruct (JS.gtb _ (1 + epsilon)); [split; auto|].
  destruct (JS.gtb _ (1 - epsilon)); cbn; split; auto.
Qed.

Lemma disableFold_flag T l : forall st,
  let st' := fold_left (disableStep T) l st in
  (dl_needsUpdate st = true -> dl_needsUpdate st' = true)
  /\ (dl_needsUpdate st' = true
      \/ (dl_params st' = dl_params st /\ dl_needsUpdate st' = dl_needsUpdate st)).
Proof.
  induction l as [|i l IH]; intros st; cbn [fold_left]; [split; auto|].
  destruct (disableStep_flag T st i) as [M1 C1].
  destruct (IH (disableStep T st i)) as [M2 C2].
  cbn zeta in *. split; [auto|].
  destruct C2 as [C2|[P2 F2]]; [now left|].
  destruct C1 as [C1|[P1 F1]].
  - left. now rewrite F2.
  - right. split; congruence.
Qed.

Lemma reconcileStep_flag T st i :
  let st' := reconcileStep T st i in
  (rl_needsUpdate st = true -> rl_needsUpdate st' = true)
  /\ (rl_needsUpdate st' = true
      \/ (rl_params st' = rl_params st /\ rl_needsUpdate st' = rl_needsUpdate st)).
Proof.
  unfold reconcileStep. cbn zeta.
  destruct (JS.ltb _ _); [split; auto|].
  destruct (truthy _).
  - destruct (JS.leb _ _); cbn; split; auto.
  - destruct (JS.gtb _ _); cbn; split; auto.
Qed.

Lemma reconcileFold_flag T l : forall st,
  let st' := fold_left (reconcileStep T) l st in
  (rl_needsUpdate st = true -> rl_needsUpdate st' = true)
  /\ (rl_needsUpdate st' = true
      \/ (rl_params st' = rl_params st /\ rl_needsUpdate st' = rl_needsUpdate st)).
Proof.
  induction l as [|i l IH]; intros st; cbn [fold_left]; [split; auto|].
  destruct (reconcileStep_flag T st i) as [M1 C1].
  destruct (IH (reconcileStep T st i)) as [M2 C2].
  cbn zeta in *. split; [auto|].
  destruct C2 as [C2|[P2 F2]]; [now left|].
  destruct C1 as [C1|[P1 F1]].
  - left. now rewrite F2.
  - right. split; congruence.
Qed.

(** No call writes an instanced attribute without asking for its upload:
    after any call, for each of the eight attributes, either its upload is
    requested, or both the attribute array and its request flag are as they
    were before the call.  The loops of [setReturnMode] and of
    [_reconcileReturnMode], which request the upload only when an iteration
    wrote a phase, are included. *)
Theorem buffer_writes_request_upload (s : t) (c : Call) :
  let s' := call s c in
  let kept {A} (array : t -> list A) (flag : NeedsUpdate -> bool) :=
    flag (needsUpdate s') = true
    \/ (array s' = array s /\ flag (needsUpdate s') = flag (needsUpdate s)) in
  kept controlPointsPack1 nu_controlPointsPack1
  /\ kept controlPointsPack2 nu_controlPointsPack2
  /\ kept controlPointsPack3 nu_controlPointsPack3
  /\ kept instanceColors nu_instanceColor
  /\ kept instanceScales nu_instanceScale
  /\ kept instanceElevations nu_instanceElevation
  /\ kept instanceUvTransforms nu_instanceUVTransform
  /\ kept animationParams nu_animationParams.
Proof.
  cbn zeta.
  destruct c as [index controlPoints|enabled|index c|index size|index offset
                |index speed|index mode|index|deltaTime|n|visible|hasTexture info
                |index textureIndex]; cbn [call].
  - unfold setCurveControlPoints.
    destruct (outOfRange index s); [flags|].
    destruct controlPoints as [|p0 [|p1 [|p2 [|p3 rest]]]]; cbn; flags.
  - unfold setReturnMode. destruct enabled.
    + cbn. destruct (returnModeEnabled s); cbn; flags.
    + match goal with |- context [fold_left (disableStep ?T) ?l ?st] =>
        destruct (disableFold_flag T l st) as [_ C];
        set (st' := fold_left (disableStep T) l st) in * end.
      cbn zeta in C. cbn [dl_params dl_needsUpdate] in C.
      destruct (dl_needsUpdate st') eqn:E; cbn.
      * flags.
      * destruct C as [C|[P _]]; [discriminate|].
        repeat split; first [ right; split; [exact P|reflexivity]
                            | right; split; reflexivity ].
  - unfold setPaneColor. destruct (outOfRange index s); cbn; flags.
  - unfold setPaneSize. destruct (outOfRange index s); cbn; flags.
  - unfold setElevationOffset. destruct (outOfRange index s); cbn; flags.
  - unfold setAnimationSpeed. destruct (outOfRange index s); cbn; flags.
  - unfold setTiltMode. destruct (outOfRange index s); cbn; flags.
  - unfold hidePane. destruct (outOfRange index s); cbn; flags.
  - unfold update, _reconcileReturnMode.
    set (s0 := set_time (time (uniforms s) + deltaTime) s).
    change (returnModePreferred s0) with (returnModePreferred s).
    change (returnModeEnabled s0) with (returnModeEnabled s).
    destruct (returnModePreferred s).
    + destruct (returnModeEnabled s); cbn; flags.
    + destruct (returnModeEnabled s); cbn [negb]; [|cbn; flags].
      unfold reconcileLoop.
      match goal with |- context [fold_left (reconcileStep ?T) ?l ?st] =>
        destruct (reconcileFold_flag T l st) as [_ C];
        set (st' := fold_left (reconcileStep T) l st) in * end.
      cbn zeta in C. cbn [rl_params rl_needsUpdate] in C.
      destruct (rl_needsUpdate st') eqn:E; destruct (rl_anyPending st'); cbn;
        try flags;
        (destruct C as [C|[P _]]; [discriminate|]);
        repeat split; first [ right; split; [exact P|reflexivity]
                            | right; split; reflexivity ].
  - unfold setActivePaneCount. destruct (_ <? _)%Z; cbn; flags.
  - unfold setPlanesVisible. cbn. flags.
  - unfold setTexture. destruct hasTexture, info; cbn; flags.
  - unfold setTextureIndex. destruct (outOfRange index s); [flags|].
    destruct (atlasInfo s); cbn; flags.
Qed.

End PlanesShaderUploads.

(** ** Colours and dash pattern of the curve renderer *)

Module CurvesColours.

Import V3 Curves CurvesFacts CurvesMore GeometryFacts GeometryMore.
Open Scope R_scope.

Lemma writeSegmentColors_vertex buf vi c0 c1 v :
  (vi * 3 + 5 < List.length buf)%nat ->
  bufferColor (writeSegmentColors buf (vi * 3) c0 c1) v
  = if (v =? vi)%nat then c0
    else if (v =? vi + 1)%nat then c1
    else bufferColor buf v.
Proof.
  intros Hlen. unfold writeSegmentColors, bufferColor.
  destruct (v =? vi)%nat eqn:E1;
    [apply Nat.eqb_eq in E1 | apply Nat.eqb_neq in E1;
     destruct (v =? vi + 1)%nat eqn:E2;
       [apply Nat.eqb_eq in E2 | apply Nat.eqb_neq in E2]].
  - subst v. aget_chain. now destruct c0.
  - subst v. aget_chain. now destruct c1.
  - aget_chain. reflexivity.
Qed.

Lemma colourFold_spec (c0 c1 : nat -> RGB) off buf m :
  ((off + m * 2) * 3 <= List.length buf)%nat ->
  let buf' :=
    fold_left (fun b k => writeSegmentColors b ((off + k * 2) * 3) (c0 k) (c1 k))
      (seq 0 m) buf in
  List.length buf' = List.length buf
  /\ (forall k, (k < m)%nat ->
        bufferColor buf' (off + k * 2) = c0 k
        /\ bufferColor buf' (off + k * 2 + 1) = c1 k)
  /\ (forall v, (v < off \/ off + m * 2 <= v)%nat -> bufferColor buf' v = bufferColor buf v).
Proof.
  induction m as [|m IH]; intros Hlen.
  - cbn. split; [reflexivity|]. split; [intros k Hk; lia|]. reflexivity.
  - cbn zeta. rewrite seq_S, fold_left_app. cbn [fold_left Nat.add].
    destruct IH as (Il & Ik & Io); [lia|].
    set (b := fold_left _ (seq 0 m) buf) in *.
    assert (Hb : ((off + m * 2) * 3 + 5 < List.length b)%nat) by lia.
    split; [now rewrite writeSegmentColors_length|]. split.
    + intros k Hk. rewrite !writeSegmentColors_vertex by assumption.
      destruct (Nat.eq_dec k m) as [->|Hne].
      * rewrite !Nat.eqb_refl.
        replace (off + m * 2 + 1 =? off + m * 2)%nat with false
          by (symmetry; apply Nat.eqb_neq; lia).
        split; reflexivity.
      * replace (off + k * 2 =? off + m * 2)%nat with false
          by (symmetry; apply Nat.eqb_neq; lia).
        replace (off + k * 2 =? off + m * 2 + 1)%nat with false
          by (symmetry; apply Nat.eqb_neq; lia).
        replace (off + k * 2 + 1 =? off + m * 2)%nat with false
          by (symmetry; apply Nat.eqb_neq; lia).
        replace (off + k * 2 + 1 =? off + m * 2 + 1)%nat with false
          by (symmetry; apply Nat.eqb_neq; lia).
        apply Ik. lia.
    + intros v Hv. rewrite writeSegmentColors_vertex by assumption.
      replace (v =? off + m * 2)%nat with false
        by (symmetry; apply Nat.eqb_neq; lia).
      replace (v =? off + m * 2 + 1)%nat with false
        by (symmetry; apply Nat.eqb_neq; lia).
      apply Io. lia.
Qed.

Section WithThree.

Context {three : Three}.

(** The colours [_applyColorToCurve] gives the vertices of a slot. *)
Lemma applyColorToCurve_paints s curveIndex :
  sized s ->
  (0 <= curveIndex < Z.of_nat (maxCurves s))%Z ->
  isCurveVisible curveIndex s = true ->
  let s' := _applyColorToCurve curveIndex s in
  let cd := aget emptyCurveData (curveData s) (Z.to_nat curveIndex) in
  let first := (Z.to_nat curveIndex * verticesPerCurve s)%nat in
  let n := segmentsPerCurve s in
  match _computeGradientParams (color cd) (metadata cd) with
  | Some params =>
      forall k, (k < n)%nat ->
        vertexColor s' (first + 2 * k) = _getColorForProgress params (INR k / INR n)
        /\ vertexColor s' (first + 2 * k + 1)
           = _getColorForProgress params (INR (k + 1) / INR n)
  | None =>
      forall v, (first <= v < first + verticesPerCurve s)%nat ->
        vertexColor s' v = _resolveSolidColor (color cd)
  end
  /\ (forall v, (v < first \/ first + verticesPerCurve s <= v)%nat ->
         vertexColor s' v = vertexColor s v)
  /\ needsColorUpdate s' = true.
Proof.
  intros [H1 H2 H3 H4 H5 H6] Hr Hvis s' cd first n.
  assert (Hi : (Z.to_nat curveIndex < maxCurves s)%nat) by lia.
  assert (Hv : verticesPerCurve s = (n * 2)%nat) by reflexivity.
  assert (Hfit : (first + n * 2 <= maxCurves s * (n * 2))%nat).
  { unfold first. rewrite Hv. nia. }
  assert (Evis : visible cd = true).
  { unfold isCurveVisible in Hvis. now rewrite (inRange_outOfRange _ _ Hr) in Hvis. }
  unfold s', _applyColorToCurve, vertexColor.
  rewrite (inRange_outOfRange _ _ Hr). fold cd. rewrite Evis. cbn [negb].
  cbn [colors needsColorUpdate set_needsColorUpdate set_colors].
  fold first. fold n.
  destruct (_computeGradientParams (color cd) (metadata cd)) as [params|].
  - destruct (colourFold_spec
                (fun k => _getColorForProgress params (INR k / INR n))
                (fun k => _getColorForProgress params (INR (k + 1) / INR n))
                first (colors s) n) as (_ & Ik & Io); [rewrite H2, Hv; lia|].
    cbn zeta in Ik, Io. unfold verticesPerSegment.
    split; [|split; [|reflexivity]].
    + intros k Hk. replace (2 * k)%nat with (k * 2)%nat by lia. now apply Ik.
    + intros v Hout. apply Io. lia.
  - destruct (colourFold_spec
                (fun _ => _resolveSolidColor (color cd))
                (fun _ => _resolveSolidColor (color cd))
                first (colors s) n) as (_ & Ik & Io); [rewrite H2, Hv; lia|].
    cbn zeta in Ik, Io. unfold verticesPerSegment.
    split; [|split; [|reflexivity]].
    + intros v Hin.
      assert (Hk : (exists k, (k < n)%nat /\ (v = first + k * 2 \/ v = first + k * 2 + 1))%nat).
      { exists ((v - first) / 2)%nat.
        pose proof (Nat.div_mod_eq (v - first) 2) as Hd.
        pose proof (Nat.mod_upper_bound (v - first) 2 ltac:(lia)) as Hm.
        split; [apply Nat.Div0.div_lt_upper_bound; lia|]. lia. }
      destruct Hk as (k & Hk & [->| ->]); now apply Ik.
    + intros v Hout. apply Io. lia.
Qed.

(** [setCurveColor] on a visible in-range slot stores the colour and
    repaints the slot: with a gradient source (a gradient colour, or a
    departure in the metadata, which takes precedence over a plain colour)
    segment [k] runs from the gradient colour at [k/n] to the one at
    [(k+1)/n]; without one every vertex of the slot gets the solid colour.
    The colours of the other slots, all positions and all line distances are
    unchanged, and the colour upload is requested. *)
Theorem setCurveColor_paints_slot (s : t) (curveIndex : Z) (color : ColorInput)
    (metadata : option (option CurveMetadata)) :
  sized s ->
  (0 <= curveIndex < Z.of_nat (maxCurves s))%Z ->
  isCurveVisible curveIndex s = true ->
  let s' := setCurveColor curveIndex color metadata s in
  let old := aget emptyCurveData (curveData s) (Z.to_nat curveIndex) in
  let metadata' := match metadata with Some m => m | None => Curves.metadata old end in
  let first := (Z.to_nat curveIndex * verticesPerCurve s)%nat in
  let n := segmentsPerCurve s in
  match _computeGradientParams color metadata' with
  | Some params =>
      forall k, (k < n)%nat ->
        vertexColor s' (first + 2 * k) = _getColorForProgress params (INR k / INR n)
        /\ vertexColor s' (first + 2 * k + 1)
           = _getColorForProgress params (INR (k + 1) / INR n)
  | None =>
      forall v, (first <= v < first + verticesPerCurve s)%nat ->
        vertexColor s' v = _resolveSolidColor color
  end
  /\ (forall v, (v < first \/ first + verticesPerCurve s <= v)%nat ->
         vertexColor s' v = vertexColor s v)
  /\ positions s' = positions s /\ lineDistances s' = lineDistances s
  /\ isCurveVisible curveIndex s' = true
  /\ needsColorUpdate s' = true.
Proof.
  intros Hs Hr Hvis s' old metadata' first n.
  pose proof Hs as [H1 H2 H3 H4 H5 H6].
  assert (Hi : (Z.to_nat curveIndex < maxCurves s)%nat) by lia.
  assert (Evis : visible old = true).
  { unfold isCurveVisible in Hvis. now rewrite (inRange_outOfRange _ _ Hr) in Hvis. }
  set (cd := mkCurveData (Curves.controlPoints old) color (visible old) metadata').
  set (s1 := set_curveData (aset (curveData s) (Z.to_nat curveIndex) cd) s).
  assert (Es' : s' = _applyColorToCurve curveIndex s1).
  { unfold s', setCurveColor. rewrite (inRange_outOfRange _ _ Hr).
    fold old. unfold s1, cd. rewrite Evis. reflexivity. }
  assert (Hs1 : sized s1).
  { split; cbn; rewrite ?aset_length; assumption. }
  assert (Ecd : aget emptyCurveData (curveData s1) (Z.to_nat curveIndex) = cd).
  { unfold s1. cbn. apply aget_aset_eq. lia. }
  assert (Hvis1 : isCurveVisible curveIndex s1 = true).
  { unfold isCurveVisible.
    change (outOfRange curveIndex s1) with (outOfRange curveIndex s).
    rewrite (inRange_outOfRange _ _ Hr), Ecd. exact Evis. }
  destruct (applyColorToCurve_paints s1 curveIndex Hs1 Hr Hvis1) as (Hin & Hout & Hn).
  rewrite Ecd in Hin. cbn [Curves.color Curves.metadata cd] in Hin.
  destruct (applyColorToCurve_frame curveIndex s1)
    as (_ & _ & _ & Ep & El & Ed & _).
  rewrite Es'. split; [exact Hin|]. split; [exact Hout|].
  split; [exact Ep|]. split; [exact El|]. split; [|exact Hn].
  unfold isCurveVisible in *.
  change (outOfRange curveIndex (_applyColorToCurve curveIndex s1))
    with ((curveIndex <? 0)%Z
          || (Z.of_nat (maxCurves (_applyColorToCurve curveIndex s1)) <=? curveIndex)%Z).
  destruct (applyColorToCurve_frame curveIndex s1) as (_ & Em & _).
  rewrite Em, Ed. exact Hvis1.
Qed.

(** *** Gradient parameters *)

Lemma rem_bound a b : 0 < b -> - b < JSR.rem a b < b.
Proof.
  intros Hb. unfold JSR.rem, JSR.trunc.
  assert (Ea : a = b * (a / b)) by (field; lra).
  set (x := a / b) in *.
  destruct (Rle_dec 0 x) as [Hx|Hx].
  - destruct (base_Int_part x) as [I1 I2]. nra.
  - destruct (base_Int_part (- x)) as [I1 I2]. rewrite opp_IZR. nra.
Qed.

Lemma JSR_clamp_id v lo hi : lo <= v <= hi -> JSR.clamp v lo hi = v.
Proof.
  intros H. unfold JSR.clamp. rewrite (Rmin_right hi v) by lra. apply Rmax_right. lra.
Qed.

Lemma JSR_clamp_low v lo hi : v <= lo -> lo <= hi -> JSR.clamp v lo hi = lo.
Proof.
  intros H H'. unfold JSR.clamp. rewrite (Rmin_right hi v) by lra. apply Rmax_left. lra.
Qed.

Lemma JSR_clamp_high v lo hi : hi <= v -> lo <= hi -> JSR.clamp v lo hi = hi.
Proof.
  intros H H'. unfold JSR.clamp. rewrite (Rmin_left hi v) by lra. apply Rmax_right. lra.
Qed.

Lemma computeGradientParams_inv color metadata params :
  _computeGradientParams color metadata = Some params ->
  exists lat lng,
    params = mkGradientParams (JSR.rem (lng + 180) 360 / 360)
               (JSR.clamp (0.6 + 0.3 * (1 - Rmin (Rabs lat / 90) 1)) 0 1) 0.35 0.75.
Proof.
  unfold _computeGradientParams.
  destruct color as [hex|c|config].
  - destruct metadata as [[[d|]]|]; intros H; inversion H; eauto.
  - destruct metadata as [[[d|]]|]; intros H; inversion H; eauto.
  - intros H; inversion H; eauto.
Qed.

(** Whatever the departure, the gradient parameters have a saturation
    between 0.6 and 0.9 and a hue strictly between -1 and 1, and the colours
    of the gradient have a lightness between 0.35 and 0.75; a progress below
    0 or above 1 gives the colour of the nearer end. *)
Theorem gradient_params_range (color : ColorInput) (metadata : option CurveMetadata)
    (params : GradientParams) :
  _computeGradientParams color metadata = Some params ->
  0.6 <= saturation params <= 0.9
  /\ - 1 < hue params < 1
  /\ (forall progress, exists lightness,
         0.35 <= lightness <= 0.75
         /\ _getColorForProgress params progress
            = colorSetHSL (hue params) (saturation params) lightness)
  /\ (forall progress, progress <= 0 ->
         _getColorForProgress params progress = _getColorForProgress params 0)
  /\ (forall progress, 1 <= progress ->
         _getColorForProgress params progress = _getColorForProgress params 1).
Proof.
  intros H. destruct (computeGradientParams_inv _ _ _ H) as (lat & lng & ->).
  cbn [saturation hue lightnessStart lightnessEnd].
  assert (Hf : 0 <= Rmin (Rabs lat / 90) 1 <= 1).
  { pose proof (Rabs_pos lat). unfold Rmin. destruct (Rle_dec _ 1); lra. }
  assert (Hsat : JSR.clamp (0.6 + 0.3 * (1 - Rmin (Rabs lat / 90) 1)) 0 1
                 = 0.6 + 0.3 * (1 - Rmin (Rabs lat / 90) 1)).
  { apply JSR_clamp_id. lra. }
  split; [rewrite Hsat; lra|]. split.
  { destruct (rem_bound (lng + 180) 360) as [R1 R2]; lra. }
  split; [|split].
  - intros progress. unfold _getColorForProgress.
    cbn [saturation hue lightnessStart lightnessEnd].
    eexists. split; [|reflexivity].
    pose proof (JSR_clamp_range progress 0 1) as Hp.
    set (p := JSR.clamp progress 0 1) in *.
    rewrite JSR_clamp_id; lra.
  - intros progress Hp. unfold _getColorForProgress. f_equal. f_equal. f_equal.
    rewrite (JSR_clamp_low progress) by lra. rewrite (JSR_clamp_id 0); lra.
  - intros progress Hp. unfold _getColorForProgress. f_equal. f_equal. f_equal.
    rewrite (JSR_clamp_high progress) by lra. rewrite (JSR_clamp_id 1); lra.
Qed.

End WithThree.

Lemma setCurveColor_paints_slot_witness :
  let s := setCurve 0 [zero; mkVector3 1%R 0%R 0%R] (ColorNumber 255) None
             (constructor (mkOptions (Some 2%nat) (Some 4%nat) None None)) in
  let s' := setCurveColor 0 (ColorNumber 7) None s in
  positions s' = positions s /\ needsColorUpdate s' = true.
Proof.
  intros s s'.
  assert (Hs : sized s) by (apply sized_setCurve, curves_sized_constructor).
  assert (Em : maxCurves s = 2%nat) by reflexivity.
  assert (Hr : (0 <= 0 < Z.of_nat (maxCurves s))%Z) by (rewrite Em; lia).
  assert (Hv : isCurveVisible 0 s = true) by reflexivity.
  destruct (setCurveColor_paints_slot s 0 (ColorNumber 7) None Hs Hr Hv)
    as (_ & _ & Hp & _ & _ & Hn).
  split; [exact Hp | exact Hn].
Defined.

Lemma gradient_params_range_witness :
  0.6 <= saturation (mkGradientParams (JSR.rem (20 + 180) 360 / 360)
                       (JSR.clamp (0.6 + 0.3 * (1 - Rmin (Rabs 10 / 90) 1)) 0 1)
                       0.35 0.75) <= 0.9.
Proof.
  apply (gradient_params_range
           (ColorGradient (mkGradientColorConfig (Some 10) (Some 20))) None).
  reflexivity.
Defined.

(** *** Dash pattern and uploads *)

Lemma Reqb_eq a b : JSR.eqb a b = true <-> a = b.
Proof. unfold JSR.eqb. destruct (Req_dec_T a b); split; intros; auto; discriminate. Qed.

Lemma Reqb_neq a b : JSR.eqb a b = false <-> a <> b.
Proof.
  unfold JSR.eqb. destruct (Req_dec_T a b); split; intros; auto; try discriminate.
  contradiction.
Qed.

Lemma applyUpdates_spec s :
  let s' := applyUpdates s in
  needsPositionUpdate s' = false /\ needsColorUpdate s' = false
  /\ (0 <= dashSize s -> needsLineDistanceUpdate s' = false)
  /\ uploadLineDistance s'
     = (uploadLineDistance s || (JSR.gtb (dashSize s) 0 && needsLineDistanceUpdate s))
  /\ applyUpdates s' = s'.
Proof.
  destruct s as [mc sc d g m ps cs ls cc np nc nl cd dr up uc ul w].
  unfold applyUpdates. cbn -[JSR.gtb JSR.eqb].
  assert (Hd : 0 <= d -> JSR.gtb d 0 = false -> JSR.eqb d 0 = false -> False).
  { intros H0 Eg Ee. apply Rgtb_le in Eg. apply Reqb_neq in Ee. lra. }
  destruct np, nc; cbn -[JSR.gtb JSR.eqb];
    destruct (JSR.gtb d 0) eqn:Eg; destruct nl; cbn -[JSR.gtb JSR.eqb];
    destruct (JSR.eqb d 0) eqn:Ee; cbn -[JSR.gtb JSR.eqb];
    rewrite ?Eg, ?Ee; cbn -[JSR.gtb JSR.eqb];
    rewrite ?orb_true_r, ?orb_false_r;
    (split; [reflexivity|]); (split; [reflexivity|]);
    (split; [first [reflexivity | intros H0; exfalso; now apply Hd]|]);
    split; reflexivity.
Qed.

(** [setDashPattern] stores the pattern with negative sizes raised to 0,
    keeps the material in step with the stored pattern, touches no buffer,
    and does nothing when repeated.  The following [applyUpdates] clears all
    three pending flags; it uploads the line distances when the pattern was
    changed to a dashed one, never when the line is solid, and a second
    [applyUpdates] changes nothing. *)
Theorem dash_pattern_upload (s : t) (dashSize gapSize : R) :
  let s1 := setDashPattern dashSize gapSize s in
  let s2 := applyUpdates s1 in
  Curves.dashSize s1 = Rmax 0 dashSize /\ Curves.gapSize s1 = Rmax 0 gapSize
  /\ setDashPattern dashSize gapSize s1 = s1
  /\ (material s = createMaterial (Curves.dashSize s) (Curves.gapSize s) ->
      material s1 = createMaterial (Rmax 0 dashSize) (Rmax 0 gapSize))
  /\ positions s1 = positions s /\ colors s1 = colors s
  /\ lineDistances s1 = lineDistances s /\ curveData s1 = curveData s
  /\ needsPositionUpdate s2 = false /\ needsColorUpdate s2 = false
  /\ needsLineDistanceUpdate s2 = false
  /\ (0 < dashSize ->
      Curves.dashSize s <> dashSize \/ Curves.gapSize s <> Rmax 0 gapSize ->
      uploadLineDistance s2 = true)
  /\ (dashSize <= 0 -> uploadLineDistance s2 = uploadLineDistance s)
  /\ applyUpdates s2 = s2.
Proof.
  intros s1 s2.
  assert (Hd : Curves.dashSize s1 = Rmax 0 dashSize /\ Curves.gapSize s1 = Rmax 0 gapSize).
  { unfold s1, setDashPattern.
    destruct (JSR.eqb (Curves.dashSize s) _) eqn:E1;
      [destruct (JSR.eqb (Curves.gapSize s) _) eqn:E2|]; cbn [andb].
    - apply Reqb_eq in E1, E2. now split.
    - unfold updateMaterial. cbn -[JSR.gtb]. destruct (JSR.gtb (Rmax 0 dashSize) 0); split; reflexivity.
    - unfold updateMaterial. cbn -[JSR.gtb]. destruct (JSR.gtb (Rmax 0 dashSize) 0); split; reflexivity. }
  destruct Hd as [Hd Hg].
  assert (Hbuf : positions s1 = positions s /\ colors s1 = colors s
                 /\ lineDistances s1 = lineDistances s /\ curveData s1 = curveData s
                 /\ uploadLineDistance s1 = uploadLineDistance s).
  { unfold s1, setDashPattern. destruct (_ && _); [repeat split|].
    unfold updateMaterial. cbn -[JSR.gtb]. destruct (JSR.gtb (Rmax 0 dashSize) 0); repeat split. }
  destruct Hbuf as (B1 & B2 & B3 & B4 & B5).
  destruct (applyUpdates_spec s1) as (A1 & A2 & A3 & A4 & A5). cbn zeta in *.
  fold s2 in A1, A2, A3, A4, A5.
  pose proof (Rmax_l 0 dashSize) as Hnn.
  split; [exact Hd|]. split; [exact Hg|]. split.
  { unfold setDashPattern at 1. rewrite Hd, Hg.
    assert (E1 : JSR.eqb (Rmax 0 dashSize) (Rmax 0 dashSize) = true) by now apply Reqb_eq.
    assert (E2 : JSR.eqb (Rmax 0 gapSize) (Rmax 0 gapSize) = true) by now apply Reqb_eq.
    now rewrite E1, E2. }
  split.
  { intros Hm. unfold s1, setDashPattern.
    destruct (JSR.eqb (Curves.dashSize s) _) eqn:E1;
      [destruct (JSR.eqb (Curves.gapSize s) _) eqn:E2|]; cbn [andb].
    - apply Reqb_eq in E1, E2. now rewrite Hm, E1, E2.
    - unfold updateMaterial. cbn -[JSR.gtb createMaterial].
      destruct (JSR.gtb (Rmax 0 dashSize) 0); reflexivity.
    - unfold updateMaterial. cbn -[JSR.gtb createMaterial].
      destruct (JSR.gtb (Rmax 0 dashSize) 0); reflexivity. }
  split; [exact B1|]. split; [exact B2|]. split; [exact B3|]. split; [exact B4|].
  split; [exact A1|]. split; [exact A2|]. split; [apply A3; lra|].
  split; [|split; [|exact A5]].
  - intros Hpos Hchanged. rewrite A4, Hd.
    assert (Em : Rmax 0 dashSize = dashSize) by (apply Rmax_right; lra).
    assert (Eg : JSR.gtb (Rmax 0 dashSize) 0 = true) by (apply Rgtb_gt; lra).
    rewrite Eg. cbn [andb].
    assert (En : needsLineDistanceUpdate s1 = true).
    { unfold s1, setDashPattern.
      destruct (JSR.eqb (Curves.dashSize s) _) eqn:E1;
        [destruct (JSR.eqb (Curves.gapSize s) _) eqn:E2|]; cbn [andb].
      - apply Reqb_eq in E1, E2. destruct Hchanged; congruence.
      - unfold updateMaterial. cbn -[JSR.gtb]. now rewrite Eg.
      - unfold updateMaterial. cbn -[JSR.gtb]. now rewrite Eg. }
    rewrite En. apply orb_true_r.
  - intros Hneg. rewrite A4, Hd, B5.
    assert (Em : Rmax 0 dashSize = 0) by (apply Rmax_left; lra).
    assert (Eg : JSR.gtb (Rmax 0 dashSize) 0 = false) by (apply Rgtb_le; lra).
    rewrite Eg. cbn [andb]. apply orb_false_r.
Qed.

Lemma dash_pattern_upload_witness :
  uploadLineDistance
    (applyUpdates (setDashPattern 3 1
                     (constructor (mkOptions (Some 2%nat) (Some 4%nat) None None))))
  = true.
Proof.
  destruct (dash_pattern_upload
              (constructor (mkOptions (Some 2%nat) (Some 4%nat) None None)) 3 1)
    as (_ & _ & _ & _ & _ & _ & _ & _ & _ & _ & _ & H & _).
  apply H; [lra|]. left. cbn. lra.
Defined.

End CurvesColours.

(** ** The path generation scenario *)

Module ParabolicScenario.

Import V3 FlightUtils GeometryFacts GeometryMore PathScenes.
Open Scope R_scope.

Lemma length_zero_inv v : V3.length v = 0 -> v = zero.
Proof.
  unfold V3.length. intros H.
  apply sqrt_eq_0 in H; [|apply lengthSq_nonneg].
  unfold lengthSq in H. destruct v as [x y z]. cbn [vx vy vz] in H.
  assert (x = 0) by nra. assert (y = 0) by nra. assert (z = 0) by nra.
  subst. reflexivity.
Qed.

Lemma length_off_origin v : v <> zero -> 0 < V3.length v.
Proof.
  intros H. pose proof (length_nonneg v).
  destruct (Req_dec (V3.length v) 0) as [E|E]; [|lra].
  apply length_zero_inv in E. contradiction.
Qed.

(** A point off the origin ends at or above the floor. *)
Lemma lifted_off_origin radius minAltitude p :
  0 < V3.length p ->
  radius + minAltitude <= V3.length (liftPoint radius minAltitude p).
Proof.
  intros Hp.
  destruct (liftPoint_cases radius minAltitude p) as ([H0|H] & Hle & _); [lra|exact H].
Qed.

Lemma lifted_direction radius minAltitude v k :
  v <> zero -> 0 < k ->
  radius + minAltitude
  <= V3.length (liftPoint radius minAltitude (multiplyScalar (normalize v) k)).
Proof.
  intros Hv Hk. apply lifted_off_origin.
  rewrite length_push; [exact Hk|now apply length_off_origin|lra].
Qed.

(** Between two points at the same positive distance from the origin, the
    interpolated point is off the origin, except half-way between opposite
    points. *)
Lemma lerp_off_origin a b t :
  V3.length a = V3.length b -> 0 < V3.length a -> t <> 0.5 -> lerp a b t <> zero.
Proof.
  intros Hab Ha Ht E.
  assert (Em : multiplyScalar a (1 - t) = multiplyScalar b (- t)).
  { unfold lerp, zero in E. inversion E as [[Ex Ey Ez]].
    unfold multiplyScalar. f_equal; lra. }
  apply (f_equal V3.length) in Em. rewrite !length_multiplyScalar, <- Hab in Em.
  assert (Eabs : Rabs (1 - t) = Rabs (- t)) by nra.
  unfold Rabs in Eabs.
  destruct (Rcase_abs (1 - t)); destruct (Rcase_abs (- t)); lra.
Qed.

Lemma lerp_half_off_origin a b : 0 < vy a -> 0 < vy b -> lerp a b 0.5 <> zero.
Proof.
  intros Ha Hb E. unfold lerp, zero in E. inversion E as [[Ex Ey Ez]]. lra.
Qed.

Lemma offset_off_origin a u d :
  V3.length u = 1 -> V3.length a <> Rabs d -> add a (multiplyScalar u d) <> zero.
Proof.
  intros Hu Ha E.
  assert (Em : a = multiplyScalar u (- d)).
  { unfold add, multiplyScalar, zero in E. inversion E as [[Ex Ey Ez]].
    destruct a as [x y z]. unfold multiplyScalar. cbn [vx vy vz] in *. f_equal; lra. }
  apply Ha. rewrite Em, length_multiplyScalar, Hu, Rabs_Ropp. ring.
Qed.

Lemma tangentAt_length surface other random : V3.length (tangentAt surface other random) = 1.
Proof.
  unfold tangentAt. cbn zeta.
  match goal with |- context [normalize (if JSR.ltb (lengthSq ?t) _ then _ else _)] =>
    set (tangent := t) end.
  destruct (JSR.ltb (lengthSq tangent) 1e-6) eqn:E1.
  - destruct (JSR.ltb (lengthSq (crossVectors (normalize surface) (mkVector3 0 1 0))) 1e-6)
      eqn:E2.
    + apply length_normalize.
      replace (V3.length (mkVector3 1 0 0)) with 1; [lra|].
      unfold V3.length, lengthSq. cbn.
      replace (1 * 1 + 0 * 0 + 0 * 0) with 1 by ring. now rewrite sqrt_1.
    + now apply normalize_unit.
  - now apply normalize_unit.
Qed.

(** The nine points of a parabolic path between two places of the northern
    hemisphere, on a globe of positive radius with non-negative offsets, are
    all at or above the floor. *)
Lemma parabolic_points_floor departure arrival options random1 random2 :
  0 < radius options ->
  0 <= Rmax (takeoffOffset options) (minCurveAltitude options) ->
  0 <= maxCruiseAltitude options ->
  0 < vy (Utils.latLngToVector3 (lat departure) (lng departure) (radius options)) ->
  0 < vy (Utils.latLngToVector3 (lat arrival) (lng arrival) (radius options)) ->
  Forall (fun p => radius options + minCurveAltitude options <= V3.length p)
    (generateParabolicControlPoints departure arrival options random1 random2).
Proof.
  intros Hr Hso Hmax Hy1 Hy2.
  unfold generateParabolicControlPoints. cbv zeta.
  rewrite ensureMinimumCurveAltitude_map.
  set (r := radius options) in *.
  set (so := Rmax (takeoffOffset options) (minCurveAltitude options)) in *.
  set (origin := Utils.latLngToVector3 (lat departure) (lng departure) r) in *.
  set (dest := Utils.latLngToVector3 (lat arrival) (lng arrival) r) in *.
  assert (Lo : V3.length origin = r).
  { unfold origin. rewrite length_latLngToVector3. apply Rabs_right. lra. }
  assert (Ld : V3.length dest = r).
  { unfold dest. rewrite length_latLngToVector3. apply Rabs_right. lra. }
  assert (HS : 0 < r + so) by lra.
  assert (Es : multiplyScalar (normalize origin) (r + so)
               = multiplyScalar origin ((r + so) / r)).
  { rewrite push_radially by lra. now rewrite Lo. }
  assert (Ee : multiplyScalar (normalize dest) (r + so)
               = multiplyScalar dest ((r + so) / r)).
  { rewrite push_radially by lra. now rewrite Ld. }
  assert (Ls : V3.length (multiplyScalar (normalize origin) (r + so)) = r + so).
  { apply length_push; lra. }
  assert (Le : V3.length (multiplyScalar (normalize dest) (r + so)) = r + so).
  { apply length_push; lra. }
  assert (Hq : 0 < (r + so) / r) by (apply Rdiv_lt_0_compat; lra).
  assert (Ys : 0 < vy (multiplyScalar (normalize origin) (r + so))).
  { rewrite Es. cbn [vy multiplyScalar]. now apply Rmult_lt_0_compat. }
  assert (Ye : 0 < vy (multiplyScalar (normalize dest) (r + so))).
  { rewrite Ee. cbn [vy multiplyScalar]. now apply Rmult_lt_0_compat. }
  set (start := multiplyScalar (normalize origin) (r + so)) in *.
  set (end_ := multiplyScalar (normalize dest) (r + so)) in *.
  assert (Hstart : origin <> zero).
  { intros E. rewrite E, length_zero in Lo. lra. }
  assert (Hend : dest <> zero).
  { intros E. rewrite E, length_zero in Ld. lra. }
  set (ratio := Rmin (distanceTo start end_ / (r * PI * 0.3)) 1).
  assert (Hratio : 0 <= ratio <= 1).
  { unfold ratio. split; [|apply Rmin_r].
    apply Rmin_glb; [|lra].
    pose proof PI_RGT_0. unfold distanceTo.
    pose proof (sqrt_pos (distanceToSquared start end_)).
    apply Rmult_le_pos; [assumption|]. left. apply Rinv_0_lt_compat. nra. }
  destruct (pow_unit_interval ratio 0.7 Hratio) as [P0 P1]; [lra|].
  set (pw := JSR.pow ratio 0.7) in *.
  set (cm := Rmax (minCruiseAltitude options) (so + 5)).
  assert (Hcm : 5 <= cm) by (pose proof (Rmax_r (minCruiseAltitude options) (so + 5)); unfold cm; lra).
  set (cA := cm + (maxCruiseAltitude options - cm) * pw).
  assert (HcA : 0 <= cA) by (unfold cA; nra).
  assert (Hlen : V3.length start = V3.length end_) by congruence.
  assert (Hpos : 0 < V3.length start) by lra.
  assert (Htd : V3.length start <> Rabs (r * 0.08)).
  { rewrite Ls, Rabs_right; lra. }
  assert (Hte : V3.length end_ <> Rabs (r * 0.08)).
  { rewrite Le, Rabs_right; lra. }
  cbn [map].
  repeat (apply List.Forall_cons); [..|apply List.Forall_nil].
  - apply lifted_direction; [exact Hstart|lra].
  - apply lifted_direction; [|lra].
    apply offset_off_origin; [apply tangentAt_length|exact Htd].
  - apply lifted_direction; [apply lerp_off_origin; [assumption|assumption|lra]|lra].
  - apply lifted_direction; [apply lerp_off_origin; [assumption|assumption|lra]|lra].
  - apply lifted_direction; [now apply lerp_half_off_origin|lra].
  - apply lifted_direction; [apply lerp_off_origin; [assumption|assumption|lra]|lra].
  - apply lifted_direction; [apply lerp_off_origin; [assumption|assumption|lra]|lra].
  - apply lifted_direction; [|lra].
    apply offset_off_origin; [apply tangentAt_length|exact Hte].
  - apply lifted_direction; [exact Hend|lra].
Qed.

Lemma northern_latitude lat lng r :
  0 < r -> 0 < lat <= 90 -> 0 < vy (Utils.latLngToVector3 lat lng r).
Proof.
  intros Hr Hlat. unfold Utils.latLngToVector3. cbn [vy].
  pose proof PI_RGT_0.
  apply Rmult_lt_0_compat; [exact Hr|].
  apply cos_gt_0.
  - assert (0 <= (90 - lat) * PI / 180).
    { apply Rmult_le_pos; [nra|lra]. }
    lra.
  - apply Rmult_lt_reg_r with (r := 180); [lra|].
    replace ((90 - lat) * PI / 180 * 180) with ((90 - lat) * PI) by field. nra.
Qed.

Section WithThree.

Context {three : Three}.

(** On a list that is neither empty nor of four points,
    [normalizeControlPoints] is the floor applied to four samples of the
    library's curve through the points. *)
Lemma normalizeControlPoints_resample (points : list Vec3) (radius minAltitude : R) :
  (4 < List.length points)%nat ->
  normalizeControlPoints points radius minAltitude
  = ensureMinimumCurveAltitude
      [ catmullRomGetPoint points 0.0; catmullRomGetPoint points 0.333;
        catmullRomGetPoint points 0.666; catmullRomGetPoint points 1.0 ]
      radius minAltitude.
Proof.
  intros Hlen. destruct points as [|p rest]; [cbn in Hlen; lia|].
  unfold normalizeControlPoints, cloneControlPoints.
  rewrite List.map_id.
  assert (E : (List.length (p :: rest) =? 4)%nat = false) by (apply Nat.eqb_neq; lia).
  rewrite E. reflexivity.
Qed.


End WithThree.


End ParabolicScenario.
